(** * nftstorage-tools: checkpointed scans, denylist lookup and DAG export

    A shallow embedding of the scripts of the repository:
    - [lib/denylist.mjs]            ([Denylist])
    - [lib/state.mjs], [lib/currentid-state.mjs]  ([State], [CurrentIDState])
    - [count-dag-size.mjs]          ([CountDagSize])
    - [count-dag-size-monthly.mjs]  ([CountDagSizeMonthly])
    - [denylist-cars.mjs]           ([DenylistCars])
    - [export-cars.mjs]             ([ExportCars])

    Asynchronous functions are written in direct style: every [await]
    is a sequencing point of an error monad, a thrown exception is the
    [Throw] result.  Loops carry a fuel argument; the theorems show
    that a bounded amount of fuel is always enough. *)

From Stdlib Require Import ZArith Lia Ascii String DecimalString DecimalPos DecimalZ.
From Stdlib.Strings Require Import Byte.
From stdpp Require Import gmap strings list sorting.

Local Open Scope Z_scope.

(** ** Exceptions and results *)

(** A JavaScript exception value.  [SysError] is a Node.js system error,
    identified by its [err.code]; [JsError] is [new Error(message)] (or a
    built-in [TypeError]/[SyntaxError]); [Caused] is
    [new Error(message, { cause })]. *)
Inductive Error : Type :=
| SysError (code : string)
| JsError (message : string)
| Caused (message : string) (cause : Error).

Inductive Result (A : Type) : Type :=
| Ok (a : A)
| Throw (e : Error).
Arguments Ok {A} a.
Arguments Throw {A} e.

Global Instance Result_ret : MRet Result := fun A a => Ok a.
Global Instance Result_bind : MBind Result := fun A B k r =>
  match r with
  | Ok a => k a
  | Throw e => Throw e
  end.

Definition is_ok {A} (r : Result A) : bool :=
  match r with Ok _ => true | Throw _ => false end.

(** [err.message] (of a system error, its code stands for the text) *)
Definition message_of (e : Error) : string :=
  match e with
  | SysError code => code
  | JsError m => m
  | Caused m _ => m
  end.

(** ** SHA-256 (FIPS 180-4), the hasher behind [sha256.encode] *)

Module Sha256.

Definition mask32 : Z := 4294967295.
Definition wrap (x : Z) : Z := Z.land x mask32.
Definition add32 (a b : Z) : Z := wrap (a + b).
Definition rotr (n x : Z) : Z :=
  Z.lor (Z.shiftr x n) (wrap (Z.shiftl x (32 - n))).
Definition shr (n x : Z) : Z := Z.shiftr x n.

Definition Ch (x y z : Z) : Z :=
  Z.lxor (Z.land x y) (Z.land (Z.lxor x mask32) z).
Definition Maj (x y z : Z) : Z :=
  Z.lxor (Z.lxor (Z.land x y) (Z.land x z)) (Z.land y z).
Definition bsig0 (x : Z) : Z :=
  Z.lxor (Z.lxor (rotr 2 x) (rotr 13 x)) (rotr 22 x).
Definition bsig1 (x : Z) : Z :=
  Z.lxor (Z.lxor (rotr 6 x) (rotr 11 x)) (rotr 25 x).
Definition ssig0 (x : Z) : Z :=
  Z.lxor (Z.lxor (rotr 7 x) (rotr 18 x)) (shr 3 x).
Definition ssig1 (x : Z) : Z :=
  Z.lxor (Z.lxor (rotr 17 x) (rotr 19 x)) (shr 10 x).

(** Round constants: the first 32 bits of the fractional parts of the
    cube roots of the first 64 primes. *)
Definition K : list Z :=
  [ 1116352408; 1899447441; 3049323471; 3921009573;
    961987163; 1508970993; 2453635748; 2870763221;
    3624381080; 310598401; 607225278; 1426881987;
    1925078388; 2162078206; 2614888103; 3248222580;
    3835390401; 4022224774; 264347078; 604807628;
    770255983; 1249150122; 1555081692; 1996064986;
    2554220882; 2821834349; 2952996808; 3210313671;
    3336571891; 3584528711; 113926993; 338241895;
    666307205; 773529912; 1294757372; 1396182291;
    1695183700; 1986661051; 2177026350; 2456956037;
    2730485921; 2820302411; 3259730800; 3345764771;
    3516065817; 3600352804; 4094571909; 275423344;
    430227734; 506948616; 659060556; 883997877;
    958139571; 1322822218; 1537002063; 1747873779;
    1955562222; 2024104815; 2227730452; 2361852424;
    2428436474; 2756734187; 3204031479; 3329325298 ].

(** Initial hash value: square roots of the first 8 primes. *)
Definition H0 : list Z :=
  [ 1779033703; 3144134277; 1013904242; 2773480762;
    1359893119; 2600822924; 528734635; 1541459225 ].

(** Big-endian bytes of the low [8 * n] bits of [x]. *)
Fixpoint be_bytes (n : nat) (x : Z) : list Z :=
  match n with
  | O => []
  | S n' => Z.land (Z.shiftr x (8 * Z.of_nat n')) 255 :: be_bytes n' x
  end.

(** Padding: a 1 bit, zeros up to 56 mod 64 bytes, the bit length. *)
Definition pad (msg : list Z) : list Z :=
  let l := Z.of_nat (length msg) in
  msg ++ [128] ++ replicate (Z.to_nat ((55 - l) mod 64)) 0 ++ be_bytes 8 (8 * l).

Fixpoint words (bs : list Z) : list Z :=
  match bs with
  | a :: b :: c :: d :: rest =>
      (Z.shiftl a 24 + Z.shiftl b 16 + Z.shiftl c 8 + d) :: words rest
  | _ => []
  end.

Fixpoint blocks (fuel : nat) (ws : list Z) : list (list Z) :=
  match fuel, ws with
  | O, _ | _, [] => []
  | S fuel', _ => take 16 ws :: blocks fuel' (drop 16 ws)
  end.

(** Message schedule: extends the 16 words of a block to 64. *)
Fixpoint schedule (n : nat) (w : list Z) : list Z :=
  match n with
  | O => w
  | S n' =>
      let i := length w in
      let at_ j := nth (i - j)%nat w 0 in
      schedule n'
        (w ++ [add32 (add32 (ssig1 (at_ 2%nat)) (at_ 7%nat))
                     (add32 (ssig0 (at_ 15%nat)) (at_ 16%nat))])
  end.

Record regs : Type :=
  Regs { ra : Z; rb : Z; rc : Z; rd : Z; re : Z; rf : Z; rg : Z; rh : Z }.

Definition round (r : regs) (kw : Z * Z) : regs :=
  let t1 := add32 (add32 (add32 (rh r) (bsig1 (re r)))
                         (add32 (Ch (re r) (rf r) (rg r)) (fst kw))) (snd kw) in
  let t2 := add32 (bsig0 (ra r)) (Maj (ra r) (rb r) (rc r)) in
  Regs (add32 t1 t2) (ra r) (rb r) (rc r) (add32 (rd r) t1) (re r) (rf r) (rg r).

Definition regs_of (h : list Z) : regs :=
  Regs (nth 0 h 0) (nth 1 h 0) (nth 2 h 0) (nth 3 h 0)
       (nth 4 h 0) (nth 5 h 0) (nth 6 h 0) (nth 7 h 0).

Definition list_of (r : regs) : list Z :=
  [ra r; rb r; rc r; rd r; re r; rf r; rg r; rh r].

Definition compress (h : list Z) (block : list Z) : list Z :=
  let r := fold_left round (combine K (schedule 48 block)) (regs_of h) in
  zip_with add32 h (list_of r).

Definition digest_bytes (msg : list Z) : list Z :=
  let ws := words (pad msg) in
  let h := fold_left compress (blocks (length ws) ws) H0 in
  concat (map (be_bytes 4) h).

Definition Z_of_byte (b : Byte.byte) : Z := Z.of_N (Byte.to_N b).
Definition byte_of_Z (z : Z) : Byte.byte :=
  match Byte.of_N (Z.to_N z) with Some b => b | None => Byte.x00 end.

(** [sha256.encode(bytes)]: the 32-byte digest. *)
Definition encode (data : list Byte.byte) : list Byte.byte :=
  map byte_of_Z (digest_bytes (map Z_of_byte data)).

End Sha256.

(** ** lib/denylist.mjs *)

Module Denylist.

(** [Buffer.from(str)]: the UTF-8 bytes of a string.  A Rocq string is
    already a sequence of 8-bit characters. *)
Definition Buffer_from (s : string) : list Byte.byte := String.list_byte_of_string s.

Definition hex_digit (n : N) : ascii :=
  ascii_of_N (if (n <? 10)%N then 48 + n else 87 + n)%N.

(** [Buffer.from(hash).toString('hex')]: two lowercase digits a byte. *)
Fixpoint toString_hex (bs : list Byte.byte) : string :=
  match bs with
  | [] => EmptyString
  | b :: rest =>
      let n := Byte.to_N b in
      String (hex_digit (n / 16)%N) (String (hex_digit (n mod 16)%N) (toString_hex rest))
  end.

(** The anchor the denylist stores for a CID: the hex SHA-256 of the
    CID followed by ["/"]. *)
Definition anchor (cid : string) : string :=
  toString_hex (Sha256.encode (Buffer_from (cid +:+ "/"))).

(** [readDenyList]: every parsed line of [out/denylist.json] is added
    to a fresh [Set]. *)
Definition readDenyList (anchors : list string) : gset string :=
  foldl (fun list anchor => list ∪ {[anchor]}) ∅ anchors.

(** [isDenyListed(denylist, cid)].  [sha256.encode] is synchronous, so
    the [instanceof Promise] guard never throws. *)
Definition isDenyListed (denylist : gset string) (cid : string) : bool :=
  let hash := Sha256.encode (Buffer_from (cid +:+ "/")) in
  let exists_ := bool_decide (toString_hex hash ∈ denylist) in
  exists_.

End Denylist.

(** ** JSON text, as far as the checkpoint files use it

    The state files hold one flat object whose values are strings or
    integers.  [stringify] is [JSON.stringify] (and [dagJSON.encode],
    whose output for such an object is the same text) and [parse] is
    [JSON.parse] / [dagJSON.decode] on that fragment: no white space,
    string escapes for the quote and the backslash only. *)

Module Json.

Inductive value : Type :=
| JStr (s : string)
| JNum (n : Z).

(** An object: its entries in insertion order. *)
Definition object : Type := list (string * value).

(** [String(n)] for a bigint or an integral number. *)
Definition String_ (n : Z) : string := NilZero.string_of_int (Z.to_int n).

(** The double quote and the backslash. *)
Definition dquote : ascii := ascii_of_nat 34.
Definition backslash : ascii := ascii_of_nat 92.

Definition needs_escape (c : ascii) : bool :=
  Ascii.eqb c dquote || Ascii.eqb c backslash.

(** The characters of a string literal up to and with the closing
    quote, followed by [k]. *)
Fixpoint emit_chars (s k : string) : string :=
  match s with
  | EmptyString => String dquote k
  | String c r =>
      if needs_escape c then String backslash (String c (emit_chars r k))
      else String c (emit_chars r k)
  end.

Definition emit_string (s k : string) : string := String dquote (emit_chars s k).

Definition emit_value (v : value) (k : string) : string :=
  match v with
  | JStr s => emit_string s k
  | JNum n => (String_ n ++ k)%string
  end.

Fixpoint emit_entries (es : object) (k : string) : string :=
  match es with
  | [] => k
  | (key, v) :: rest =>
      emit_string key (String ":" (emit_value v
        match rest with
        | [] => k
        | _ => String "," (emit_entries rest k)
        end))
  end.

Definition stringify (o : object) : string :=
  String "{" (emit_entries o (String "}" EmptyString)).

(** Reading: each reader returns what it read and the rest. *)
Fixpoint read_chars (s : string) : option (string * string) :=
  match s with
  | EmptyString => None
  | String c r =>
      if Ascii.eqb c dquote then Some (EmptyString, r)
      else if Ascii.eqb c backslash then
        match r with
        | String d r' =>
            if needs_escape d
            then match read_chars r' with
                 | Some (t, k) => Some (String d t, k)
                 | None => None
                 end
            else None
        | EmptyString => None
        end
      else match read_chars r with
           | Some (t, k) => Some (String c t, k)
           | None => None
           end
  end.

Definition read_string (s : string) : option (string * string) :=
  match s with
  | String c r => if Ascii.eqb c dquote then read_chars r else None
  | EmptyString => None
  end.

Definition is_num_char (c : ascii) : bool :=
  Ascii.eqb c "-" || ((48 <=? nat_of_ascii c)%nat && (nat_of_ascii c <=? 57)%nat).

(** The longest prefix of sign and digit characters, and the rest. *)
Fixpoint span_num (s : string) : string * string :=
  match s with
  | EmptyString => (EmptyString, EmptyString)
  | String c r =>
      if is_num_char c
      then let '(t, k) := span_num r in (String c t, k)
      else (EmptyString, s)
  end.

Definition read_number (s : string) : option (Z * string) :=
  let '(t, k) := span_num s in
  match NilZero.int_of_string t with
  | Some d => Some (Z.of_int d, k)
  | None => None
  end.

Definition read_value (s : string) : option (value * string) :=
  match s with
  | String c _ =>
      if Ascii.eqb c dquote
      then match read_string s with
           | Some (t, k) => Some (JStr t, k)
           | None => None
           end
      else match read_number s with
           | Some (n, k) => Some (JNum n, k)
           | None => None
           end
  | EmptyString => None
  end.

(** The entries after the opening brace, up to and with the closing one. *)
Fixpoint read_entries (fuel : nat) (s : string) : option (object * string) :=
  match fuel with
  | O => None
  | S fuel' =>
      match read_string s with
      | Some (key, String c s1) =>
          if Ascii.eqb c ":" then
            match read_value s1 with
            | Some (v, String d s2) =>
                if Ascii.eqb d "}" then Some ([(key, v)], s2)
                else if Ascii.eqb d "," then
                  match read_entries fuel' s2 with
                  | Some (es, k) => Some ((key, v) :: es, k)
                  | None => None
                  end
                else None
            | _ => None
            end
          else None
      | _ => None
      end
  end.

(** [JSON.parse] on the texts [stringify] writes: one object whose
    values are strings and integers, without white space.  Any other
    text is answered with the [SyntaxError], other JSON too. *)
Definition parse (text : string) : Result object :=
  let bad := Throw (JsError "SyntaxError: unexpected token in JSON") in
  match text with
  | String c r =>
      if Ascii.eqb c "{" then
        match r with
        | String d EmptyString => if Ascii.eqb d "}" then Ok [] else bad
        | _ =>
            match read_entries (String.length r) r with
            | Some (es, EmptyString) => Ok es
            | _ => bad
            end
        end
      else bad
  | EmptyString => bad
  end.

(** A string of sign and digit characters only. *)
Fixpoint num_string (s : string) : bool :=
  match s with
  | EmptyString => true
  | String c r => is_num_char c && num_string r
  end.

(** A text a number can stand before: it does not go on with a sign
    or a digit. *)
Definition ends_number (k : string) : Prop :=
  match k with
  | EmptyString => True
  | String c _ => is_num_char c = false
  end.

(** [raw.key]: the property of a parsed object, [undefined] as [None]. *)
Fixpoint get (key : string) (o : object) : option value :=
  match o with
  | [] => None
  | (k, v) :: rest => if String.eqb k key then Some v else get key rest
  end.

(** [BigInt(v)]: of a decimal string (the empty string is [0n]), of an
    integral number, and a [TypeError] of [undefined]. *)
Definition BigInt (v : option value) : Result Z :=
  match v with
  | Some (JStr EmptyString) => Ok 0
  | Some (JStr s) =>
      match NilZero.int_of_string s with
      | Some d => Ok (Z.of_int d)
      | None => Throw (JsError "SyntaxError: Cannot convert to a BigInt")
      end
  | Some (JNum n) => Ok n
  | None => Throw (JsError "TypeError: Cannot convert undefined to a BigInt")
  end.

End Json.

(** ** The file system: [fs.promises.readFile] and [writeFile] *)

Module Fs.

Inductive node : Type :=
| File (data : list Byte.byte)
| Directory.

(** The paths that exist, and what is there.  A path is looked up as
    it is written, whatever is at the paths above it: an error for a
    file in the place of a directory above (ENOTDIR), or one of
    permissions or of the device, is not among the outcomes. *)
Abbreviation t := (gmap string node).

Definition readFile (path : string) (d : t) : Result (list Byte.byte) :=
  match d !! path with
  | Some (File data) => Ok data
  | Some Directory => Throw (SysError "EISDIR")
  | None => Throw (SysError "ENOENT")
  end.

(** [writeFile] replaces the whole content of the file. *)
Definition writeFile (path : string) (data : list Byte.byte) (d : t) : Result t :=
  match d !! path with
  | Some Directory => Throw (SysError "EISDIR")
  | _ => Ok (<[path := File data]> d)
  end.

(** A file can be written at a path where no directory is. *)
Definition writable (path : string) (d : t) : Prop := d !! path ≠ Some Directory.

(** [err.code] *)
Definition code (e : Error) : option string :=
  match e with
  | SysError c => Some c
  | _ => None
  end.

Definition utf8 (s : string) : list Byte.byte := String.list_byte_of_string s.
Definition of_utf8 (data : list Byte.byte) : string := String.string_of_list_byte data.

End Fs.

(** ** lib/state.mjs *)

Module State.

(** [load({ decode, path })]: the decoded file, [undefined] ([None])
    when the file does not exist, any other error rethrown. *)
Definition load {S : Type} (decode : list Byte.byte -> Result S) (path : string)
    (d : Fs.t) : Result (option S) :=
  match (data ← Fs.readFile path d; decode data) with
  | Ok s => Ok (Some s)
  | Throw err =>
      if bool_decide (Fs.code err ≠ Some "ENOENT"%string) then Throw err
      else Ok None
  end.

(** [store({ encode, path }, state)] *)
Definition store {S : Type} (encode : S -> list Byte.byte) (path : string)
    (state : S) (d : Fs.t) : Result Fs.t :=
  Fs.writeFile path (encode state) d.

End State.

(** ** lib/currentid-state.mjs *)

Module CurrentIDState.

Record State : Type := mkState { currentID : Z }.

Definition decode (data : list Byte.byte) : Result State :=
  raw ← Json.parse (Fs.of_utf8 data);
  currentID ← Json.BigInt (Json.get "currentID" raw);
  Ok {| currentID := currentID |}.

Definition encode (state : State) : list Byte.byte :=
  Fs.utf8 (Json.stringify [("currentID"%string, Json.JStr (Json.String_ (currentID state)))]).

Definition init : State := {| currentID := 0 |}.

(** [(await State.load({ path, ...CurrentIDState })) ?? CurrentIDState.init()] *)
Definition load_or_init (path : string) (d : Fs.t) : Result State :=
  loaded ← State.load decode path d;
  Ok (default init loaded).

End CurrentIDState.

(** ** The database *)

Module Db.

(** [new Date(inserted_at)] as far as the scripts look at it. *)
Record Date : Type := mkDate { getFullYear : Z; getMonth : Z }.

(** A row of the [upload] table (the columns the scripts select). *)
Record Upload : Type := mkUpload {
  id : Z;
  user_id : Z;
  source_cid : string;
  content_cid : string;
  inserted_at : Date
}.

(** A connection, seen through the three queries the scripts send.
    Every query may fail.
    - [upload_id_range]: [SELECT MIN(id), MAX(id) FROM upload], the one
      row of the answer, [NULL] as [None];
    - [uploads_after id limit]:
      [SELECT ... FROM upload WHERE id >= $1 ORDER BY id ASC LIMIT $2];
    - [sum_size_actual cids]:
      [SELECT SUM(size_actual) FROM cargo.dags WHERE cid_v1 IN (cids)],
      [NULL] ([None]) when no row matches. *)
Record t : Type := mkDb {
  upload_id_range : Result (option Z * option Z);
  uploads_after : Z -> Z -> Result (list Upload);
  sum_size_actual : list string -> Result (option Z)
}.

(** *** The queries over concrete tables *)

Definition id_le (a b : Upload) : Prop := id a <= id b.
Global Instance id_le_dec : RelDecision id_le := fun a b => Z_le_dec (id a) (id b).

(** [WHERE id >= $1 ORDER BY id ASC LIMIT $2] *)
Definition select_uploads_after (upload : list Upload) (after limit : Z) : list Upload :=
  take (Z.to_nat limit) (merge_sort id_le (filter (fun r => after <= id r) upload)).

(** [SUM(size_actual) ... WHERE cid_v1 IN (cids)] over rows [(cid_v1, size_actual)] *)
Definition select_sum_size (dags : list (string * Z)) (cids : list string) : option Z :=
  match filter (fun row => row.1 ∈ cids) dags with
  | [] => None
  | rows => Some (foldr Z.add 0 (snd <$> rows))
  end.

Definition select_id_range (upload : list Upload) : option Z * option Z :=
  match id <$> upload with
  | [] => (None, None)
  | i :: ids => (Some (foldr Z.min i ids), Some (foldr Z.max i ids))
  end.

Definition of_tables (upload : list Upload) (dags : list (string * Z)) : t :=
  {| upload_id_range := Ok (select_id_range upload);
     uploads_after := fun after limit => Ok (select_uploads_after upload after limit);
     sum_size_actual := fun cids => Ok (select_sum_size dags cids) |}.

(** [BigInt(rows[0].min)]: of [null] a [TypeError]. *)
Definition BigInt (v : option Z) : Result Z :=
  match v with
  | Some n => Ok n
  | None => Throw (JsError "TypeError: Cannot convert null to a BigInt")
  end.

(** [fetchUploadIdRange(db)], the same in every script.  The answer of
    an aggregate query always has its one row. *)
Definition fetchUploadIdRange (db : t) : Result (Z * Z) :=
  row ← upload_id_range db;
  min ← BigInt row.1;
  max ← BigInt row.2;
  Ok (min, max).

(** [fetchUploadsAfter(db, id, limit)] *)
Definition fetchUploadsAfter (db : t) (id limit : Z) : Result (list Upload) :=
  uploads_after db id limit.

End Db.

(** ** The scan loop

    [count-dag-size.mjs] and [count-dag-size-monthly.mjs] run the same
    loop:
<<
    while (state.currentID < range.max) {
      try { db = await pool.connect(); ...page...; await save(state) }
      finally { db && db.release() }
    }
>>
    inside a [try] whose [catch] reports the error and ends the script.
    [batch] is the page between [connect] and the save: it fetches the
    page at the cursor, folds it into the state in memory and advances
    the cursor.  A run records the cursors it queried, oldest first. *)

Module Scanner.

Inductive Outcome (S : Type) : Type :=
| Finished (state : S)
| Failed (err : Error)
| OutOfFuel.
Arguments Finished {S} state.
Arguments Failed {S} err.
Arguments OutOfFuel {S}.

(** [D] is what the script keeps on disk. *)
Record Run (S D : Type) : Type := mkRun {
  disk : D;
  queried : list Z;
  outcome : Outcome S
}.
Arguments mkRun {S D} disk queried outcome.
Arguments disk {S D} r.
Arguments queried {S D} r.
Arguments outcome {S D} r.

Inductive Fate : Type := Survives | DiesBeforeSave.

Section Scan.
Context {S D : Type}.
Variable currentID : S -> Z.
Variable batch : S -> Result S.
Variable save : S -> D -> Result D.

(** One turn of the loop body. *)
Definition page (state : S) (d : D) : Result (S * D) :=
  state' ← batch state;
  d' ← save state' d;
  Ok (state', d').

Fixpoint scan (fuel : nat) (max : Z) (state : S) (d : D) (queried : list Z)
    : Run S D :=
  match fuel with
  | O => mkRun d queried OutOfFuel
  | Datatypes.S fuel' =>
      if bool_decide (currentID state < max) then
        match page state d with
        | Ok (state', d') =>
            scan fuel' max state' d' (queried ++ [currentID state])
        | Throw err => mkRun d (queried ++ [currentID state]) (Failed err)
        end
      else mkRun d queried (Finished state)
  end.

(** The state a process starts from: the one on disk, or the
    initial one. *)
Variable load : D -> Result S.

(** One page in a process of its own, which is killed before the
    save or not: what is on disk afterwards. *)
Definition turn (fate : Fate) (d : D) : Result D :=
  state ← load d;
  state' ← batch state;
  match fate with
  | DiesBeforeSave => Ok d
  | Survives => save state' d
  end.
End Scan.

End Scanner.

(** ** count-dag-size.mjs *)

Module CountDagSize.

(** [{ currentID: bigint, size: bigint, count: number }] *)
Record State : Type := mkState { currentID : Z; size : Z; count : Z }.

Definition statePath : string := "./out/count-dag-size.state.json".

(** [fetchTotalDagSize(db, cids)]: [BigInt(rows[0].sum)] *)
Definition fetchTotalDagSize (db : Db.t) (cids : list string) : Result Z :=
  sum ← Db.sum_size_actual db cids;
  Db.BigInt sum.

(** [data.count]: a number in every file the script wrote.  (On a file
    with another [count] the script would go on with it and add to it;
    the model stops there.) *)
Definition number (v : option Json.value) : Result Z :=
  match v with
  | Some (Json.JNum n) => Ok n
  | _ => Throw (JsError "count is not a number")
  end.

Definition loadState (d : Fs.t) : Result State :=
  match (text ← Fs.readFile statePath d;
         data ← Json.parse (Fs.of_utf8 text);
         currentID ← Json.BigInt (Json.get "currentID" data);
         size ← Json.BigInt (Json.get "size" data);
         count ← number (Json.get "count" data);
         Ok {| currentID := currentID; size := size; count := count |}) with
  | Ok state => Ok state
  | Throw err =>
      if bool_decide (Fs.code err ≠ Some "ENOENT"%string) then Throw err
      else Ok {| currentID := 0; size := 0; count := 0 |}
  end.

Definition saveState (state : State) (d : Fs.t) : Result Fs.t :=
  let data := [ ("currentID"%string, Json.JStr (Json.String_ (currentID state)));
                ("size"%string, Json.JStr (Json.String_ (size state)));
                ("count"%string, Json.JNum (count state)) ] in
  Fs.writeFile statePath (Fs.utf8 (Json.stringify data)) d.

Section Main.
Variable PAGE_SIZE : Z.
Variable db : Db.t.
Variable denylist : gset string.

(** The body of the loop up to the save. *)
Definition batch (state : State) : Result State :=
  uploads ← Db.fetchUploadsAfter db (currentID state) PAGE_SIZE;
  let cids := Db.content_cid <$>
    filter (fun u => Denylist.isDenyListed denylist (Db.source_cid u) = false) uploads in
  state ← (if bool_decide (cids ≠ []) then
             size' ← fetchTotalDagSize db cids;
             Ok {| currentID := currentID state; size := size state + size';
                   count := count state |}
           else Ok state);
  let state := {| currentID := currentID state; size := size state;
                  count := count state + Z.of_nat (length cids) |} in
  Ok {| currentID := currentID state + PAGE_SIZE; size := size state;
        count := count state |}.

(** What the page at a cursor adds to [size] and to [count]. *)
Definition page_delta (cursor : Z) : Result (Z * Z) :=
  uploads ← Db.fetchUploadsAfter db cursor PAGE_SIZE;
  let cids := Db.content_cid <$>
    filter (fun u => Denylist.isDenyListed denylist (Db.source_cid u) = false) uploads in
  size' ← (if bool_decide (cids ≠ []) then fetchTotalDagSize db cids else Ok 0);
  Ok (size', Z.of_nat (length cids)).

(** [main], after the denylist has been read.  An error of
    [loadState] or [fetchUploadIdRange] is not caught. *)
Definition main (fuel : nat) (d : Fs.t) : Scanner.Run State Fs.t :=
  match loadState d with
  | Throw err => Scanner.mkRun d [] (Scanner.Failed err)
  | Ok state =>
      match Db.fetchUploadIdRange db with
      | Throw err => Scanner.mkRun d [] (Scanner.Failed err)
      | Ok range => Scanner.scan currentID batch saveState fuel range.2 state d []
      end
  end.
End Main.

Definition PAGE_SIZE : Z := 10000.

End CountDagSize.

(** ** Numbers *)

(** [Number(s)] of the decimal digits of the integer [z], and the
    result of an addition whose exact sum is [z]: the double nearest
    to [z], a tie going to the one with the even significand.  An
    integer of at most 53 bits is kept; of a longer one the 53 leading
    bits are kept and the rest is rounded.  (A double ends at 2^1024;
    the sizes summed here are 64-bit integers of a table, far below
    it.) *)
Definition Number_ (z : Z) : Z :=
  let a := Z.abs z in
  let e := Z.log2 a - 52 in
  if e <=? 0 then z
  else
    let q := Z.shiftr a e in
    let r := Z.land a (Z.ones e) in
    let half := Z.shiftl 1 (e - 1) in
    let q' := if (half <? r) || ((r =? half) && Z.odd q) then q + 1 else q in
    Z.sgn z * Z.shiftl q' e.

(** [a + b] of two numbers that are integers. *)
Definition Number_add (a b : Z) : Z := Number_ (a + b).

(** ** count-dag-size-monthly.mjs *)

Module CountDagSizeMonthly.

(** [{ bytes: number, count: number }]: numbers that are integers. *)
Record Total : Type := mkTotal { bytes : Z; count : Z }.
Record Totals : Type := mkTotals { real : Total; adjusted : Total }.

(** [Record<Year, Record<Month, T>>] *)
Abbreviation MonthlyItems T := (gmap Z (gmap Z T)).

(** [{ currentID: bigint, totals: MonthlyTotals }] *)
Record State : Type := mkState { currentID : Z; totals : MonthlyItems Totals }.

(** The state file, identified with the state [decodeState] reads
    from it: [None] when the file does not exist.  [State.load] and
    [State.store] with the dag-json codec of the script then are: *)
Definition load (d : option State) : Result (option State) := Ok d.
Definition store (state : State) (d : option State) : Result (option State) :=
  Ok (Some state).

(** [(await State.load(...)) ?? { currentID: 0n, totals: {} }] *)
Definition load_or_init (d : option State) : Result State :=
  loaded ← load d;
  Ok (default {| currentID := 0; totals := ∅ |} loaded).

(** [fetchTotalDagSize(db, cids)]: [Number(rows[0].sum)], [0] of [null]. *)
Definition fetchTotalDagSize (db : Db.t) (cids : list string) : Result Z :=
  sum ← Db.sum_size_actual db cids;
  Ok (Number_ (default 0 sum)).

(** [Object.keys] of an object whose keys are years or months: the
    integer keys in ascending order. *)
Definition keys {T : Type} (o : gmap Z T) : list Z :=
  merge_sort Z.le (elements (dom o)).

(** The first loop: [monthlyUploads[year][month].push(u)]. *)
Definition group (uploads : list Db.Upload) : MonthlyItems (list Db.Upload) :=
  foldl (fun monthlyUploads u =>
           let year := Db.getFullYear (Db.inserted_at u) in
           let month := Db.getMonth (Db.inserted_at u) in
           let of_year := default ∅ (monthlyUploads !! year) in
           <[year := <[month := default [] (of_year !! month) ++ [u]]> of_year]>
             monthlyUploads)
        ∅ uploads.

(** The months of the nested loops, in the order they are visited. *)
Definition months (monthlyUploads : MonthlyItems (list Db.Upload))
    : list (Z * Z * list Db.Upload) :=
  year ← keys monthlyUploads;
  let of_year := default ∅ (monthlyUploads !! year) in
  month ← keys of_year;
  [(year, month, default [] (of_year !! month))].

Section Main.
Variable PAGE_SIZE : Z.
Variable db : Db.t.
Variable denylist : gset string.

(** The body of the inner loop.  The two queries of [Promise.all]
    touch different totals; an error of the first is reported
    first. *)
Definition add_month (totals : MonthlyItems Totals) (year month : Z)
    (uploads : list Db.Upload) : Result (MonthlyItems Totals) :=
  let of_year := default ∅ (totals !! year) in
  let t := default (mkTotals (mkTotal 0 0) (mkTotal 0 0)) (of_year !! month) in
  real_bytes ← fetchTotalDagSize db (Db.content_cid <$> uploads);
  let real' := mkTotal (Number_add (bytes (real t)) real_bytes)
                       (Number_add (count (real t)) (Z.of_nat (length uploads))) in
  let denyCIDs := Db.content_cid <$>
    filter (fun u => Denylist.isDenyListed denylist (Db.source_cid u) = false) uploads in
  adjusted' ← (if bool_decide (denyCIDs ≠ []) then
                 adjusted_bytes ← fetchTotalDagSize db denyCIDs;
                 Ok (mkTotal (Number_add (bytes (adjusted t)) adjusted_bytes)
                             (Number_add (count (adjusted t)) (Z.of_nat (length denyCIDs))))
               else Ok (adjusted t));
  Ok (<[year := <[month := mkTotals real' adjusted']> of_year]> totals).

Fixpoint add_months (ms : list (Z * Z * list Db.Upload))
    (totals : MonthlyItems Totals) : Result (MonthlyItems Totals) :=
  match ms with
  | [] => Ok totals
  | (year, month, uploads) :: rest =>
      totals' ← add_month totals year month uploads;
      add_months rest totals'
  end.

(** The body of the loop up to the save. *)
Definition batch (state : State) : Result State :=
  uploads ← Db.fetchUploadsAfter db (currentID state) PAGE_SIZE;
  totals' ← add_months (months (group uploads)) (totals state);
  Ok {| currentID := currentID state + PAGE_SIZE; totals := totals' |}.

Definition main (fuel : nat) (d : option State) : Scanner.Run State (option State) :=
  match load_or_init d with
  | Throw err => Scanner.mkRun d [] (Scanner.Failed err)
  | Ok state =>
      match Db.fetchUploadIdRange db with
      | Throw err => Scanner.mkRun d [] (Scanner.Failed err)
      | Ok range => Scanner.scan currentID batch store fuel range.2 state d []
      end
  end.
End Main.

Definition PAGE_SIZE : Z := 10000.

End CountDagSizeMonthly.

(** ** denylist-cars.mjs *)

Module DenylistCars.

Definition PAGE_SIZE : Z := 10000.
Definition statePath : string := "out/denylist-cars.state.json".

(** What the stream emits for a listed upload. *)
Record Item : Type := mkItem {
  user : Z;
  upload : Z;
  root : string;
  keys : list string;
  size : Z
}.

(** [fetchTotalDagSize(db, cids)]: [Number(rows[0].sum)], [0] of
    [null]. *)
Definition fetchTotalDagSize (db : Db.t) (cids : list string) : Result Z :=
  sum ← Db.sum_size_actual db cids;
  Ok (Number_ (default 0 sum)).

(** What [pull] ends with: the stream is closed, it yields with data
    enqueued, or it throws. *)
Inductive Pulled : Type :=
| Closed
| Yielded
| Errored (err : Error)
| PullOutOfFuel.

(** The script's variables and what it has done so far: the state,
    the files, the cursors queried and the items enqueued, oldest
    first. *)
Record World : Type := mkWorld {
  state : CurrentIDState.State;
  disk : Fs.t;
  queried : list Z;
  enqueued : list Item
}.

Section Source.
Variable PAGE_SIZE : Z.
Variable db : Db.t.
(** [fetchBucketKeys(dynamo, Link.parse(cid))], with its retries: the
    keys, or the error of [Link.parse] or of the last attempt. *)
Variable fetchBucketKeys : string -> Result (list string).
Variable denylist : gset string.

(** The mapper of [map(listedUploads, ...)]. *)
Definition mapper (u : Db.Upload) : Result Item :=
  keys ← fetchBucketKeys (Db.source_cid u);
  size ← fetchTotalDagSize db [Db.content_cid u];
  Ok {| user := Db.user_id u; upload := Db.id u; root := Db.source_cid u;
        keys := keys; size := size |}.

(** [await map(listedUploads, mapper, { concurrency: 100 })]: the
    items in the order of the page, or the first error.  (Which
    items of a failing page were enqueued before the error depends
    on timing; the model enqueues none of them.) *)
Fixpoint map_ (us : list Db.Upload) : Result (list Item) :=
  match us with
  | [] => Ok []
  | u :: rest =>
      item ← mapper u;
      items ← map_ rest;
      Ok (item :: items)
  end.

(** A page: the listed uploads of the rows at a cursor, mapped. *)
Definition listed_items (currentID : Z) : Result (list Item) :=
  uploads ← Db.fetchUploadsAfter db currentID PAGE_SIZE;
  let listedUploads :=
    filter (fun u => Denylist.isDenyListed denylist (Db.source_cid u) = true) uploads in
  map_ listedUploads.

(** [pull(controller)]: the [while (true)] loop. *)
Fixpoint pull (fuel : nat) (max : Z) (w : World) : World * Pulled :=
  match fuel with
  | O => (w, PullOutOfFuel)
  | S fuel' =>
      let currentID := CurrentIDState.currentID (state w) in
      if bool_decide (currentID >= max) then (w, Closed)
      else
        let w := mkWorld (state w) (disk w) (queried w ++ [currentID]) (enqueued w) in
        match listed_items currentID with
        | Throw err => (w, Errored err)
        | Ok items =>
            let pushedData := bool_decide (items ≠ []) in
            let state' := CurrentIDState.mkState (currentID + PAGE_SIZE) in
            match State.store CurrentIDState.encode statePath state' (disk w) with
            | Throw err =>
                (mkWorld state' (disk w) (queried w) (enqueued w ++ items), Errored err)
            | Ok d' =>
                let w := mkWorld state' d' (queried w) (enqueued w ++ items) in
                if pushedData then (w, Yielded) else pull fuel' max w
            end
        end
  end.

(** The stream piped to its end: [pull] is called again after every
    return until the stream is closed or fails. *)
Fixpoint pipe (pulls fuel : nat) (max : Z) (w : World) : World * Pulled :=
  match pulls with
  | O => (w, PullOutOfFuel)
  | S pulls' =>
      match pull fuel max w with
      | (w', Yielded) => pipe pulls' fuel max w'
      | done => done
      end
  end.

(** The script from its first line, after the denylist is read. *)
Definition main (pulls fuel : nat) (d : Fs.t) : World * Pulled :=
  match CurrentIDState.load_or_init statePath d with
  | Throw err => (mkWorld CurrentIDState.init d [] [], Errored err)
  | Ok state =>
      match Db.fetchUploadIdRange db with
      | Throw err => (mkWorld state d [] [], Errored err)
      | Ok range => pipe pulls fuel range.2 (mkWorld state d [] [])
      end
  end.
End Source.

End DenylistCars.

(** ** export-cars.mjs *)

Module ExportCars.

(** A link, identified with the string [toString] prints. *)
Definition CID : Type := string.

Record Block : Type := mkBlock { cid : CID; bytes : list Byte.byte }.

(** A CAR file as the CAR codec reads it: the roots of the header and
    the blocks. *)
Record Car : Type := mkCar { roots : list CID; blocks : list Block }.

(** [report.structure] *)
Inductive Structure : Type := Complete | Partial | Unknown.

Global Instance Structure_eq_dec : EqDecision Structure.
Proof. solve_decision. Defined.

Definition Structure_name (s : Structure) : string :=
  match s with
  | Complete => "Complete"
  | Partial => "Partial"
  | Unknown => "Unknown"
  end.

Definition PEERS : list string :=
  [ "/ip4/212.6.53.91/tcp/8888/p2p/12D3KooWFzZYEChh6Dsy4jHyTopK42oRrk41WVfnpMG5r8eoXa6u";
    "/ip4/212.6.53.53/tcp/8888/p2p/12D3KooWJqxfjvbDkKByJQeT5urmeFBavNhNvidsAeqjWr6hf7jT";
    "/ip4/212.6.53.51/tcp/8888/p2p/12D3KooWRPfVRXRzEsSrJVhcu616vniJF8zQbuBN87skKdh93CbM" ]%string.

(** *** shuffle

    [random k n] is [Math.floor(Math.random() * n)] at the [k]-th call
    of [Math.random]: an index below [n], here the remainder of an
    arbitrary number. *)
Section Shuffle.
Context {T : Type}.
Variable random : nat -> nat.

Fixpoint shuffle_from (currentIndex call : nat) (array : list T) : list T :=
  match currentIndex with
  | O => array
  | S currentIndex' =>
      let randomIndex := (random call mod currentIndex)%nat in
      (* currentIndex-- *)
      match array !! randomIndex, array !! currentIndex' with
      | Some r, Some c =>
          shuffle_from currentIndex' (S call)
            (<[randomIndex := c]> (<[currentIndex' := r]> array))
      | _, _ => array
      end
  end.

Definition shuffle (array : list T) : list T :=
  shuffle_from (length array) 0 array.
End Shuffle.

(** *** verifyDAG

    The indexer is the [HashingLinkIndexer] of linkdex, used through
    [decodeAndIndex] and [report].  The events record what
    [verifyDAG] asked of it and of the reader, oldest first. *)
Inductive Event : Type :=
| Indexed (b : Block)
| GotHeader
| Reported.

Section Verify.
Context {Indexer : Type}.
Variable new_indexer : Indexer.
Variable decodeAndIndex : Indexer -> Block -> Result Indexer.
Variable report : Indexer -> Result Structure.

(** The [write] of the sink, for every block of the file. *)
Fixpoint index_blocks (indexer : Indexer) (bs : list Block) (events : list Event)
    : list Event * Result Indexer :=
  match bs with
  | [] => (events, Ok indexer)
  | b :: rest =>
      match decodeAndIndex indexer b with
      | Ok indexer' => index_blocks indexer' rest (events ++ [Indexed b])
      | Throw err => (events ++ [Indexed b], Throw err)
      end
  end.

(** [header.roots[0]?.toString()], [undefined] printed in a message. *)
Definition show_root (r : option CID) : string := default "undefined"%string r.

(** The first [try] block. *)
Definition indexing (root : CID) (path : string) (files : gmap string Car)
    : list Event * Result Indexer :=
  match files !! path with
  | None => ([], Throw (SysError "ENOENT"))
  | Some car =>
      match index_blocks new_indexer (blocks car) [] with
      | (events, Throw err) => (events, Throw err)
      | (events, Ok indexer) =>
          let header_root := head (roots car) in
          if bool_decide (header_root ≠ Some root)
          then (events ++ [GotHeader],
                Throw (JsError ("root CID mismatch " +:+ show_root header_root
                                +:+ " != " +:+ root)))
          else (events ++ [GotHeader], Ok indexer)
      end
  end.

Definition verifyDAG (root : CID) (path : string) (files : gmap string Car)
    : list Event * Result unit :=
  match indexing root path files with
  | (events, Throw err) =>
      (events, Throw (Caused ("failed indexing: " +:+ message_of err) err))
  | (events, Ok indexer) =>
      match (r ← report indexer;
             if bool_decide (r ≠ Complete)
             then Throw (JsError ("non-complete DAG: " +:+ Structure_name r))
             else Ok ()) with
      | Throw err =>
          (events ++ [Reported],
           Throw (Caused ("failed verification: " +:+ message_of err) err))
      | Ok _ => (events ++ [Reported], Ok ())
      end
  end.
End Verify.

(** *** exportDAG

    Time is counted in milliseconds from the call of [exportDAG].
    What the peer does is given by a [Transfer]: how long the dial
    takes and how it ends, then what each [iterator.next()] settles
    with and after how long.  When the arrivals are used up the peer
    stays silent for ever. *)
Inductive Arrival : Type :=
| Value (b : Block)
| Done
| Reject (err : Error).

Record Transfer : Type := mkTransfer {
  dial_delay : nat;
  dial : Result unit;
  arrivals : list (nat * Arrival)
}.

(** What the reader of the stream does before a read: it pulls after
    being busy for a while, or it cancels the stream. *)
Inductive Demand : Type :=
| Pull (busy : nat)
| Cancel.

Definition TIMEOUT : Z := 5000.

(** The variables of a session.
    - [timer]: the deadline of the [TimeoutController], [None] when it
      is cleared or has fired;
    - [aborted]: [timeout.signal.aborted];
    - [interval]: the progress reporter of [setInterval] is running;
    - [libp2p]: a started libp2p node is held;
    - [waits]: for how long each [iterator.next()] was awaited. *)
Record Session : Type := mkSession {
  now : Z;
  timer : option Z;
  aborted : bool;
  interval : bool;
  libp2p : bool;
  totalBytes : Z;
  waits : list Z
}.

(** [new TimeoutController(5000)] and [setInterval(...)] *)
Definition open_session : Session :=
  {| now := 0; timer := Some TIMEOUT; aborted := false; interval := true;
     libp2p := false; totalBytes := 0; waits := [] |}.

(** [timeout.reset()]: the timer runs its full time again. *)
Definition timeout_reset (s : Session) : Session :=
  {| now := now s; timer := Some (now s + TIMEOUT); aborted := aborted s;
     interval := interval s; libp2p := libp2p s; totalBytes := totalBytes s;
     waits := waits s |}.

(** [timeout.clear()] *)
Definition timeout_clear (s : Session) : Session :=
  {| now := now s; timer := None; aborted := aborted s;
     interval := interval s; libp2p := libp2p s; totalBytes := totalBytes s;
     waits := waits s |}.

Definition clearInterval (s : Session) : Session :=
  {| now := now s; timer := timer s; aborted := aborted s;
     interval := false; libp2p := libp2p s; totalBytes := totalBytes s;
     waits := waits s |}.

(** Time passes without the script running; a timer whose deadline
    passes fires and aborts the signal. *)
Definition elapse (dt : nat) (s : Session) : Session :=
  let now' := now s + Z.of_nat dt in
  match timer s with
  | Some deadline =>
      if bool_decide (deadline < now')
      then {| now := now'; timer := None; aborted := true; interval := interval s;
              libp2p := libp2p s; totalBytes := totalBytes s; waits := waits s |}
      else {| now := now'; timer := timer s; aborted := aborted s;
              interval := interval s; libp2p := libp2p s;
              totalBytes := totalBytes s; waits := waits s |}
  | None => {| now := now'; timer := None; aborted := aborted s; interval := interval s;
               libp2p := libp2p s; totalBytes := totalBytes s; waits := waits s |}
  end.

Definition AbortError : Error := JsError "TimeoutError: the operation was aborted".

(** [await iterator.next()] under [signal]: it settles with the
    arrival, unless the signal is aborted or aborts first; then it
    rejects at that moment.  [None]: it never settles. *)
Definition await_next (next : option (nat * Arrival)) (s : Session)
    : option (Session * Arrival) :=
  let settle (at_ : Z) (fired : bool) (a : Arrival) :=
    Some ({| now := at_; timer := if fired then None else timer s;
             aborted := aborted s || fired; interval := interval s;
             libp2p := libp2p s; totalBytes := totalBytes s;
             waits := waits s ++ [at_ - now s] |}, a) in
  if aborted s then settle (now s) false (Reject AbortError)
  else
    match next, timer s with
    | Some (delay, a), Some deadline =>
        if bool_decide (deadline < now s + Z.of_nat delay)
        then settle deadline true (Reject AbortError)
        else settle (now s + Z.of_nat delay) false a
    | Some (delay, a), None => settle (now s + Z.of_nat delay) false a
    | None, Some deadline => settle deadline true (Reject AbortError)
    | None, None => None
    end.

(** The stall timer watches the session: the signal is aborted, or
    the timer is set and will fire within the window. *)
Definition watched (s : Session) : Prop :=
  aborted s = true
  \/ exists deadline, timer s = Some deadline /\ now s <= deadline <= now s + TIMEOUT.

(** A wait that is no longer than the window of the timer. *)
Definition in_window (wait : Z) : Prop := 0 <= wait <= TIMEOUT.

(** How a session ends. *)
Inductive Exit : Type :=
| ExitClosed
| ExitErrored (err : Error)
| ExitCancelled
| ExitHung.

(** [pull(controller)], called for every demand of the reader, and
    [cancel()]. *)
Fixpoint pulls (arrivals : list (nat * Arrival)) (demands : list Demand)
    (s : Session) (out : list Block) : Session * list Block * Exit :=
  match demands with
  | Cancel :: _ => (clearInterval (timeout_clear s), out, ExitCancelled)
  | _ =>
      let busy := match demands with Pull busy :: _ => busy | _ => O end in
      let s := elapse busy s in
      match await_next (head arrivals) s with
      | None => (s, out, ExitHung)
      | Some (s, Reject err) =>
          (clearInterval (timeout_clear s), out, ExitErrored err)
      | Some (s, Done) =>
          let s := timeout_reset s in
          (clearInterval (timeout_clear s), out, ExitClosed)
      | Some (s, Value value) =>
          let s := timeout_reset s in
          let s := {| now := now s; timer := timer s; aborted := aborted s;
                      interval := interval s; libp2p := libp2p s;
                      totalBytes := totalBytes s + Z.of_nat (length (bytes value));
                      waits := waits s |} in
          match arrivals with
          | _ :: arrivals' => pulls arrivals' (tail demands) s (out ++ [value])
          | [] => (s, out, ExitHung)
          end
      end
  end.

(** [exportDAG(peer, content)] read to its end: the session as it is
    left, the blocks enqueued and how the stream ended.  [start]
    creates the libp2p node and dials the peer. *)
Definition exportDAG (t : Transfer) (demands : list Demand)
    : Session * list Block * Exit :=
  let s := open_session in
  let s := elapse (dial_delay t)
             {| now := now s; timer := timer s; aborted := aborted s;
                interval := interval s; libp2p := true;
                totalBytes := totalBytes s; waits := waits s |} in
  match dial t with
  | Throw err => (s, [], ExitErrored err)
  | Ok _ => pulls (arrivals t) demands s []
  end.

(** *** getContentExtractor *)

Record LocalUpload : Type := mkLocalUpload { upload : Db.Upload; path : string }.

(** What a [transform] call did: the peers it tried, oldest first, the
    errors it logged, what it enqueued and the files it left. *)
Record Transformed : Type := mkTransformed {
  attempted : list string;
  logged : list string;
  emitted : option LocalUpload;
  files : gmap string Car
}.

Section Extractor.
Context {Indexer : Type}.
Variable new_indexer : Indexer.
Variable decodeAndIndex : Indexer -> Block -> Result Indexer.
Variable report : Indexer -> Result Structure.
(** [Link.parse] *)
Variable Link_parse : string -> Result CID.
(** What each peer does when asked for a root. *)
Variable network : string -> CID -> Transfer.
Variable random : nat -> nat.

(** The body of the [try]: the export piped through the CAR writer
    into the file, then the verification.  The file is created with
    the root in its header and holds the blocks that arrived. *)
Definition attempt (peer : string) (root : CID) (destPath : string)
    (fs : gmap string Car) : gmap string Car * Result unit :=
  let '(_, out, exit) := exportDAG (network peer root) [] in
  let fs := <[destPath := mkCar [root] out]> fs in
  match exit with
  | ExitClosed => (fs, (verifyDAG new_indexer decodeAndIndex report root destPath fs).2)
  | ExitErrored err => (fs, Throw err)
  (* The file writer never cancels the stream and, under the timer, no
     read hangs: the two cases below do not arise. *)
  | ExitCancelled => (fs, Throw (JsError "cancelled"))
  | ExitHung => (fs, Throw (JsError "never settles"))
  end.

(** Whether the export from a peer and the verification of what it
    wrote both go through. *)
Definition succeeds (peer : string) (root : CID) : bool :=
  is_ok (attempt peer root root ∅).2.

(** The [for (const peer of peers)] loop. *)
Fixpoint try_peers (peers : list string) (upload : Db.Upload) (t : Transformed)
    : Result Transformed :=
  match peers with
  | [] => Ok t
  | peer :: rest =>
      let destPath := ("./out/contents/" +:+ Db.content_cid upload +:+ ".car")%string in
      root ← Link_parse (Db.content_cid upload);
      match attempt peer root destPath (files t) with
      | (fs, Ok _) =>
          Ok {| attempted := attempted t ++ [peer]; logged := logged t;
                emitted := Some (mkLocalUpload upload destPath); files := fs |}
      | (fs, Throw err) =>
          try_peers rest upload
            {| attempted := attempted t ++ [peer];
               logged := logged t ++ [("failed to bitswap " +:+ root +:+ " from " +:+ peer
                                       +:+ ": " +:+ message_of err)%string];
               emitted := emitted t; files := fs |}
      end
  end.

(** [transform(upload, controller)] *)
Definition transform (upload : Db.Upload) (fs : gmap string Car) : Result Transformed :=
  let peers := shuffle random PEERS in
  try_peers peers upload
    {| attempted := []; logged := []; emitted := None; files := fs |}.
End Extractor.

End ExportCars.

(** ** The arithmetic of the scan *)

(** The quotient rounded up. *)
Definition ceil_div (a b : Z) : Z := (a + b - 1) / b.

(** The cursors [c], [c + P], [c + 2 P], ...: [n] of them. *)
Fixpoint cursors (P c : Z) (n : nat) : list Z :=
  match n with
  | O => []
  | S n' => c :: cursors P (c + P) n'
  end.

(** The pages between a cursor and the end of the range. *)
Definition pages_left (P max c : Z) : nat := Z.to_nat (ceil_div (max - c) P).

(** A scan from [c0] to the end [R] of the range in pages of [P]: it
    asks for the pages at [c0], [c0 + P], [c0 + 2 P], ..., as many as
    [(R - c0) / P] rounded up, and ends with its cursor behind the last
    of them: for [c0 = 0], at the least multiple of [P] not below [R]. *)
Definition scanned (P c0 R : Z) (queried : list Z) (final : Z) : Prop :=
  Z.of_nat (length queried) = ceil_div (R - c0) P
  /\ (forall i : nat, (i < length queried)%nat -> queried !! i = Some (c0 + P * Z.of_nat i))
  /\ final = c0 + P * ceil_div (R - c0) P
  /\ (c0 = 0 -> (P | final) /\ R <= final /\ forall m, (P | m) -> R <= m -> final <= m).

(** ** Example data *)

Module Examples.

Definition upload_at (id : Z) (cid : string) (year month : Z) : Db.Upload :=
  Db.mkUpload id 1 cid cid (Db.mkDate year month).

(** Two uploads, more than a page apart. *)
Definition uploads : list Db.Upload :=
  [upload_at 15000 "b" 2023 4; upload_at 1 "a" 2022 11].

Definition dags : list (string * Z) := [("a"%string, 10); ("b"%string, 20)].

Definition db : Db.t := Db.of_tables uploads dags.

(** The same uploads, and no row in [cargo.dags] for the second. *)
Definition db_missing : Db.t := Db.of_tables uploads [("a"%string, 10)].

Definition no_keys : string -> Result (list string) := fun _ => Ok [].

(** A denylist with the second upload on it. *)
Definition denylist : gset string := Denylist.readDenyList [Denylist.anchor "b"].

(** A stand-in for the indexer of linkdex: it keeps the blocks and
    reports a graph of two blocks or more as complete. *)
Definition decodeAndIndex (indexer : list ExportCars.Block) (b : ExportCars.Block)
    : Result (list ExportCars.Block) :=
  Ok (indexer ++ [b]).

Definition report (indexer : list ExportCars.Block) : Result ExportCars.Structure :=
  Ok (if bool_decide (2 <= length indexer)%nat then ExportCars.Complete
      else ExportCars.Partial).

Definition block1 : ExportCars.Block := ExportCars.mkBlock "bafyroot" [].
Definition block2 : ExportCars.Block := ExportCars.mkBlock "bafyleaf" [].

(** Three peers: the first one goes silent after a block, the second
    one ends the graph after its root, the third one serves it all. *)
Definition network (peer : string) (root : ExportCars.CID) : ExportCars.Transfer :=
  if bool_decide (peer = default ""%string (ExportCars.PEERS !! 0%nat)) then
    ExportCars.mkTransfer 100 (Ok ()) [(200%nat, ExportCars.Value block1)]
  else if bool_decide (peer = default ""%string (ExportCars.PEERS !! 1%nat)) then
    ExportCars.mkTransfer 100 (Ok ())
      [(200%nat, ExportCars.Value block1); (10%nat, ExportCars.Done)]
  else
    ExportCars.mkTransfer 100 (Ok ())
      [(200%nat, ExportCars.Value block1); (4000%nat, ExportCars.Value block2);
       (10%nat, ExportCars.Done)].

Definition Link_parse (cid : string) : Result ExportCars.CID := Ok cid.

(** The same database, which loses its connection after the first page. *)
Definition db_down : Db.t :=
  {| Db.upload_id_range := Db.upload_id_range db;
     Db.uploads_after := fun after limit =>
       if bool_decide (after < 10000) then Db.uploads_after db after limit
       else Throw (SysError "ECONNRESET");
     Db.sum_size_actual := Db.sum_size_actual db |}.

(** The state files after the first page. *)
Definition checkpoint1 : Fs.t :=
  match Scanner.turn (CountDagSize.batch 10000 db denylist) CountDagSize.saveState
          CountDagSize.loadState Scanner.Survives ∅ with
  | Ok d => d
  | Throw _ => ∅
  end.

Definition monthly1 : option CountDagSizeMonthly.State :=
  match Scanner.turn (CountDagSizeMonthly.batch 10000 db denylist)
          CountDagSizeMonthly.store CountDagSizeMonthly.load_or_init Scanner.Survives None with
  | Ok d => d
  | Throw _ => None
  end.

End Examples.

(** * More of the scripts

    - [sync-denylist.mjs]                  ([SyncDenylist])
    - [export-cars.mjs], from cargo        ([ExportCargo])
    - the reader and the markers of [export-cars.mjs]  ([ExportUploads])
    - [count-filecoin-size-monthly.mjs]    ([FilecoinMonthly])

    and what the properties of the scripts above are stated with.  A
    stream is read by a number of calls of its [pull], which the reader
    of the stream decides. *)

(** ** Cells of the monthly totals *)

(** The month an upload was inserted in. *)
Definition in_month (year month : Z) (u : Db.Upload) : Prop :=
  Db.getFullYear (Db.inserted_at u) = year /\ Db.getMonth (Db.inserted_at u) = month.

Global Instance in_month_dec year month u : Decision (in_month year month u).
Proof. unfold in_month. apply _. Defined.

(** [items[year][month]], where there is one. *)
Definition monthly_lookup {T : Type} (items : CountDagSizeMonthly.MonthlyItems T)
    (year month : Z) : option T :=
  default ∅ (items !! year) !! month.

(** [totals[year][month] ?? { real: { bytes: 0, count: 0 }, adjusted: { bytes: 0, count: 0 } }] *)
Definition monthly_cell (totals : CountDagSizeMonthly.MonthlyItems CountDagSizeMonthly.Totals)
    (year month : Z) : CountDagSizeMonthly.Totals :=
  default (CountDagSizeMonthly.mkTotals (CountDagSizeMonthly.mkTotal 0 0)
                                        (CountDagSizeMonthly.mkTotal 0 0))
          (monthly_lookup totals year month).

(** What the body of the inner loop of [count-dag-size-monthly.mjs]
    adds to the totals [c] of a month for the uploads [us] of that
    month, [c'] being the totals afterwards. *)
Definition month_added (db : Db.t) (denylist : gset string)
    (c c' : CountDagSizeMonthly.Totals) (us : list Db.Upload) : Prop :=
  let kept := filter (fun u => Denylist.isDenyListed denylist (Db.source_cid u) = false) us in
  CountDagSizeMonthly.count (CountDagSizeMonthly.real c')
  = Number_add (CountDagSizeMonthly.count (CountDagSizeMonthly.real c)) (Z.of_nat (length us))
  /\ (exists real_bytes,
        CountDagSizeMonthly.fetchTotalDagSize db (Db.content_cid <$> us) = Ok real_bytes
        /\ CountDagSizeMonthly.bytes (CountDagSizeMonthly.real c')
           = Number_add (CountDagSizeMonthly.bytes (CountDagSizeMonthly.real c)) real_bytes)
  /\ (kept = [] -> CountDagSizeMonthly.adjusted c' = CountDagSizeMonthly.adjusted c)
  /\ (kept <> [] ->
      CountDagSizeMonthly.count (CountDagSizeMonthly.adjusted c')
      = Number_add (CountDagSizeMonthly.count (CountDagSizeMonthly.adjusted c))
                   (Z.of_nat (length kept))
      /\ exists adjusted_bytes,
           CountDagSizeMonthly.fetchTotalDagSize db (Db.content_cid <$> kept)
           = Ok adjusted_bytes
           /\ CountDagSizeMonthly.bytes (CountDagSizeMonthly.adjusted c')
              = Number_add (CountDagSizeMonthly.bytes (CountDagSizeMonthly.adjusted c))
                           adjusted_bytes).

(** ** The pages behind the items of denylist-cars.mjs *)

(** [pages] are the pages whose items a call of [pull], or the stream
    piped on, has enqueued between the worlds [w] and [w'], each with its
    cursor: the ones at the cursors from the cursor of [w] on, one after
    the other. *)
Definition pages_enqueued (P : Z) (db : Db.t) (fetchBucketKeys : string -> Result (list string))
    (denylist : gset string) (max : Z) (w w' : DenylistCars.World) (r : DenylistCars.Pulled)
    (pages : list (Z * list DenylistCars.Item)) : Prop :=
  let cur w := CurrentIDState.currentID (DenylistCars.state w) in
  Forall (fun p => p.1 < max
                   /\ DenylistCars.listed_items P db fetchBucketKeys denylist p.1 = Ok p.2) pages
  /\ fst <$> pages = cursors P (cur w) (length pages)
  /\ DenylistCars.enqueued w' = DenylistCars.enqueued w ++ concat (snd <$> pages)
  /\ (exists rest,
        DenylistCars.queried w' = DenylistCars.queried w ++ (fst <$> pages) ++ rest
        /\ (r = DenylistCars.Closed \/ r = DenylistCars.Yielded -> rest = []))
  /\ (r = DenylistCars.Closed \/ r = DenylistCars.Yielded ->
      cur w' = cur w + P * Z.of_nat (length pages))
  /\ (r = DenylistCars.Closed -> max <= cur w').

(** ** The bytes of an export *)

(** The sum of [value.bytes.length] over blocks. *)
Definition size_of (out : list ExportCars.Block) : Z :=
  foldr Z.add 0 ((fun b => Z.of_nat (length (ExportCars.bytes b))) <$> out).

(** What a session has enqueued between [s] with [out] and [s'] with
    [out']: the first of the [arrivals], all of them blocks. *)
Definition handed_on (arrivals : list (nat * ExportCars.Arrival)) (s s' : ExportCars.Session)
    (out out' : list ExportCars.Block) (exit : ExportCars.Exit) : Prop :=
  exists new,
    out' = out ++ new
    /\ ExportCars.Value <$> new = snd <$> take (length new) arrivals
    /\ ExportCars.totalBytes s' = ExportCars.totalBytes s + size_of new
    /\ (exit = ExportCars.ExitClosed ->
        exists delay, arrivals !! length new = Some (delay, ExportCars.Done)).

(** ** sync-denylist.mjs *)

Module SyncDenylist.

(** [{ cursor: string }] *)
Record State : Type := mkState { cursor : string }.

Definition statePath : string := "./out/sync-denylist.state.json".

(** [data.cursor]: a string in every file the script wrote.  (On a
    file with another [cursor], or none, the script would go on with
    that value; the model stops there.) *)
Definition string_ (v : option Json.value) : Result string :=
  match v with
  | Some (Json.JStr s) => Ok s
  | _ => Throw (JsError "cursor is not a string")
  end.

Definition loadState (d : Fs.t) : Result State :=
  match (text ← Fs.readFile statePath d;
         data ← Json.parse (Fs.of_utf8 text);
         cursor ← string_ (Json.get "cursor" data);
         Ok {| cursor := cursor |}) with
  | Ok state => Ok state
  | Throw err =>
      if bool_decide (Fs.code err ≠ Some "ENOENT"%string) then Throw err
      else Ok {| cursor := "" |}
  end.

Definition saveState (state : State) (d : Fs.t) : Result Fs.t :=
  let data := [ ("cursor"%string, Json.JStr (cursor state)) ] in
  Fs.writeFile statePath (Fs.utf8 (Json.stringify data)) d.

(** A page of the listing of keys: the names of [page.result] and
    [page.result_info.cursor], the empty string where there is none. *)
Record Page : Type := mkPage { result : list string; result_info_cursor : string }.

(** How a call of [pull] ends: the stream is closed, it returns with
    the stream open, or it throws. *)
Inductive Pulled : Type :=
| Closed
| Returned
| Errored (err : Error).

(** The script's variables and what it has done so far: the state,
    the files, the cursors asked for and the names enqueued, oldest
    first. *)
Record World : Type := mkWorld {
  state : State;
  disk : Fs.t;
  requested : list string;
  enqueued : list string
}.

(** [flags: state.cursor ? 'a' : 'w'] *)
Inductive Flags : Type := Append | Truncate.

Definition open_flags (state : State) : Flags :=
  if bool_decide (cursor state ≠ ""%string) then Append else Truncate.

Section Source.
(** The page of keys behind a cursor as [retry] hands it on: the answer
    of the attempt that went through, or the error of the last one. *)
Variable fetchPage : string -> Result Page.

(** [pull(controller)] *)
Definition pull (w : World) : World * Pulled :=
  let w := mkWorld (state w) (disk w) (requested w ++ [cursor (state w)]) (enqueued w) in
  match fetchPage (cursor (state w)) with
  | Throw err => (w, Errored err)
  | Ok page =>
      let w := mkWorld (state w) (disk w) (requested w) (enqueued w ++ result page) in
      if bool_decide (result_info_cursor page = ""%string) then (w, Closed)
      else
        let state' := mkState (result_info_cursor page) in
        match saveState state' (disk w) with
        | Throw err => (mkWorld state' (disk w) (requested w) (enqueued w), Errored err)
        | Ok d' => (mkWorld state' d' (requested w) (enqueued w), Returned)
        end
  end.

(** [pull] called [n] times, or until the stream is closed or fails. *)
Fixpoint pulls (n : nat) (w : World) : World * Pulled :=
  match n with
  | O => (w, Returned)
  | S n' =>
      match pull w with
      | (w', Returned) => pulls n' w'
      | done => done
      end
  end.

(** The script from its first line to the end of the [n]-th pull. *)
Definition main (n : nat) (d : Fs.t) : World * Pulled :=
  match loadState d with
  | Throw err => (mkWorld (mkState "") d [] [], Errored err)
  | Ok state => pulls n (mkWorld state d [] [])
  end.
End Source.

(** The pages of the listing from the cursor [c] on, each with the
    cursor it is asked for with: the first one with [c], every other
    one with the cursor the page before it gave, which is not empty. *)
Fixpoint linked (fetchPage : string -> Result Page) (c : string)
    (pages : list (string * Page)) : Prop :=
  match pages with
  | [] => True
  | (c', p) :: rest =>
      c' = c /\ fetchPage c = Ok p
      /\ (rest <> [] -> result_info_cursor p <> ""%string)
      /\ linked fetchPage (result_info_cursor p) rest
  end.

(** The cursor the last of the pages gave, [c] when there is no page. *)
Fixpoint after (c : string) (pages : list (string * Page)) : string :=
  match pages with
  | [] => c
  | (_, p) :: rest => after (result_info_cursor p) rest
  end.

(** [pages] are the pages a number of pulls has gone through between
    the worlds [w] and [w']. *)
Definition pages_listed (fetchPage : string -> Result Page) (w w' : World) (r : Pulled)
    (pages : list (string * Page)) : Prop :=
  linked fetchPage (cursor (state w)) pages
  /\ enqueued w' = enqueued w ++ concat ((fun p => result p.2) <$> pages)
  /\ (exists rest,
        requested w' = requested w ++ (fst <$> pages) ++ rest
        /\ (r = Closed \/ r = Returned -> rest = []))
  /\ (r = Returned -> cursor (state w') = after (cursor (state w)) pages)
  /\ (r = Closed ->
      after (cursor (state w)) pages = ""%string
      /\ last (fst <$> pages) = Some (cursor (state w'))).

End SyncDenylist.

(** ** export-cars.mjs, from cargo *)

Module ExportCargo.

(** [{ piece: string, contents: string[], filename: string }] *)
Record Item : Type := mkItem {
  piece : string;
  contents : list string;
  filename : string
}.

(** An entry of [json.value] in [data_2.json]: its [cid] and the
    [pieceCid] of each of its [deals]. *)
Record Entry : Type := mkEntry { cid : string; deals : list string }.

(** *** getSourceReader

    A [Map] keeps its keys in the order they were first set. *)
Abbreviation Map V := (list (string * V)).

Fixpoint Map_get {V : Type} (k : string) (m : Map V) : option V :=
  match m with
  | [] => None
  | (k', v) :: rest => if String.eqb k' k then Some v else Map_get k rest
  end.

Fixpoint Map_set {V : Type} (k : string) (v : V) (m : Map V) : Map V :=
  match m with
  | [] => [(k, v)]
  | (k', v') :: rest =>
      if String.eqb k' k then (k', v) :: rest else (k', v') :: Map_set k v rest
  end.

(** [item.deals[0].pieceCid] *)
Definition first_piece (item : Entry) : Result string :=
  match deals item with
  | pieceCid :: _ => Ok pieceCid
  | [] => Throw (JsError "TypeError: Cannot read properties of undefined (reading 'pieceCid')")
  end.

(** The first loop of [start]. *)
Fixpoint collect (value : list Entry) (pieces : Map (list string))
    : Result (Map (list string)) :=
  match value with
  | [] => Ok pieces
  | item :: rest =>
      pieceCid ← first_piece item;
      let cids := default [] (Map_get pieceCid pieces) in
      collect rest (Map_set pieceCid (cids ++ [cid item]) pieces)
  end.

(** [start]: the items of [data], in the order the stream hands them on. *)
Definition getSourceReader (value : list Entry) : Result (list Item) :=
  pieces ← collect value [];
  Ok (fmap (M := list)
        (fun kv => {| piece := kv.1; contents := kv.2; filename := "" |}) pieces).

(** *** getCargoDownloader

    The file at [destPath] is [None] when it does not exist.  The bucket
    holds the object [remote] under the key of the item. *)
Inductive Flags : Type := Append | Truncate.

(** How an attempt goes on the side of the bucket: whether
    [HeadObject] answers, and whether [GetObject] does, how many bytes
    of the body get to the file and whether the body then ends or
    fails. *)
Record Attempt : Type := mkAttempt {
  head_answers : bool;
  get_answers : bool;
  written : nat;
  body_fails : bool
}.

(** [GetObject] with [Range: bytes=<from>-]: the bytes from [from] on;
    a range that begins at or behind the end of the object cannot be
    satisfied. *)
Definition GetObject (remote : list Byte.byte) (from : nat) : Result (list Byte.byte) :=
  if bool_decide (from < length remote)%nat then Ok (drop from remote)
  else Throw (JsError "InvalidRange").

(** The function [retry] calls: the file afterwards, and whether the
    attempt went through. *)
Definition attempt (remote : list Byte.byte) (a : Attempt) (local : option (list Byte.byte))
    : option (list Byte.byte) * Result unit :=
  let already :=
    match local with
    | Some data => head_answers a && bool_decide (length remote = length data)
    | None => false
    end in
  if already then (local, Ok ())
  else
    let localSize :=
      match local with
      | Some data => if head_answers a then length data else O
      | None => O
      end in
    if negb (get_answers a) then (local, Throw (JsError "GetObject failed"))
    else
      match GetObject remote localSize with
      | Throw err => (local, Throw err)
      | Ok body =>
          let flags := if bool_decide (0 < localSize)%nat then Append else Truncate in
          let before :=
            match flags with
            | Append => default [] local
            | Truncate => []
            end in
          if body_fails a
          then (Some (before ++ take (written a) body), Throw (JsError "body failed"))
          else (Some (before ++ body), Ok ())
      end.

(** [retry(attempt)]: the attempts one after the other until one goes
    through; the error of the last one when none does. *)
Fixpoint download (remote : list Byte.byte) (attempts : list Attempt)
    (local : option (list Byte.byte)) : option (list Byte.byte) * Result unit :=
  match attempts with
  | [] => (local, Throw (JsError "no attempt"))
  | a :: rest =>
      match attempt remote a local with
      | (local', Ok _) => (local', Ok ())
      | (local', Throw err) =>
          match rest with
          | [] => (local', Throw err)
          | _ => download remote rest local'
          end
      end
  end.

(** The CIDs of the entries whose first deal is with a piece, in
    their order. *)
Definition of_piece (pieceCid : string) (value : list Entry) : list string :=
  cid <$> filter (fun item => head (deals item) = Some pieceCid) value.

(** A file that can be resumed: there is none, or it holds the first
    bytes of the object. *)
Definition resumable (remote : list Byte.byte) (local : option (list Byte.byte)) : Prop :=
  match local with
  | None => True
  | Some data => data `prefix_of` remote
  end.

End ExportCargo.

(** ** export-cars.mjs: the uploads and the markers *)

Module ExportUploads.

(** A row of [upload] as far as the reader looks at it:
    [backup_urls] is [None] for [null]. *)
Record Row : Type := mkRow { upload : Db.Upload; backup_urls : option (list string) }.

(** [(r.backup_urls ?? []).length === 0] *)
Definition no_backup (r : Row) : bool :=
  match default [] (backup_urls r) with
  | [] => true
  | _ => false
  end.

Definition limit : nat := 1000.

(** What the reader has done so far: its offset, the offsets it has
    asked for and the rows it has enqueued, oldest first. *)
Record Reader : Type := mkReader {
  offset : nat;
  asked : list nat;
  enqueued : list Row
}.

(** What a call of [pull] ends with: it has closed the stream, it
    returns, having enqueued rows or none, or it throws. *)
Inductive Pulled : Type :=
| Closes
| Returns (enqueued_rows : bool)
| Throws (err : Error).

(** Where the stream is after a number of calls: open, to be pulled
    again when the one who reads it is ready for more; open but never
    pulled again; closed; or failed. *)
Inductive Outcome : Type :=
| Open
| Stalled
| Closed
| Errored (err : Error).

Section Reader.
(** [db.query(LIST_NFTS, [offset, limit])] on a connection of the pool,
    [SELECT * FROM upload WHERE type = 'Nft' OFFSET $1 LIMIT $2]: the
    rows of the answer, or the error of [pg.connect] or of the query.
    The query has no [ORDER BY]: what one offset is answered with says
    nothing about the next. *)
Variable LIST_NFTS : nat -> nat -> Result (list Row).
(** A stream calls [pull] again after a call that has enqueued
    something.  After a call that has enqueued nothing it does so only
    if data was asked for while the call was running: [again k] says
    whether it was, for the call after [k] others. *)
Variable again : nat -> bool.

(** [pull(controller)] of [getUploadReader]. *)
Definition pull (r : Reader) : Reader * Pulled :=
  let r := mkReader (offset r) (asked r ++ [offset r]) (enqueued r) in
  match LIST_NFTS (offset r) limit with
  | Throw err => (r, Throws err)
  | Ok [] => (r, Closes)
  | Ok results =>
      let rows := filter (fun row => no_backup row = true) results in
      (mkReader (offset r + limit) (asked r) (enqueued r ++ rows),
       Returns (bool_decide (rows ≠ [])))
  end.

(** The stream read by at most [n] calls of [pull]. *)
Fixpoint pulls (n : nat) (r : Reader) : Reader * Outcome :=
  match n with
  | O => (r, Open)
  | S n' =>
      match pull r with
      | (r', Closes) => (r', Closed)
      | (r', Throws err) => (r', Errored err)
      | (r', Returns enqueued_rows) =>
          if enqueued_rows || again (length (asked r)) then pulls n' r'
          else (r', Stalled)
      end
  end.

(** [getUploadReader(pg)] read by at most [n] calls of [pull]. *)
Definition getUploadReader (n : nat) : Reader * Outcome :=
  pulls n (mkReader 0 [] []).
End Reader.



(** *** The markers of completed work *)

Definition out : string := "./out".




(** Whether a path has a [/]. *)
Fixpoint has_slash (path : string) : bool :=
  match path with
  | EmptyString => false
  | String c rest => Ascii.eqb c "/" || has_slash rest
  end.

(** The directory a path is in: the path up to its last [/]. *)
Fixpoint dirname (path : string) : string :=
  match path with
  | EmptyString => EmptyString
  | String c rest => if has_slash rest then String c (dirname rest) else EmptyString
  end.

(** [writeFile(path, data)] of a file in a directory that may be
    missing: ENOENT where nothing is in its place, ENOTDIR where a
    file is. *)
Definition writeFile (path : string) (data : list Byte.byte) (d : Fs.t) : Result Fs.t :=
  match d !! dirname path with
  | Some Fs.Directory => Fs.writeFile path data d
  | Some (Fs.File _) => Throw (SysError "ENOTDIR")
  | None => Throw (SysError "ENOENT")
  end.




End ExportUploads.

(** ** count-filecoin-size-monthly.mjs *)

Module FilecoinMonthly.

(** [{ value: string, collected_at: string }]: [Number(m.value)] and
    [new Date(m.collected_at)].  (Numbers are kept exact; the rounding
    above 2^53 is not modelled.) *)
Record Metric : Type := mkMetric { value : Z; collected_at : Db.Date }.

(** The variables of the loop.  [currYear] and [currMonth] are set
    together; [prevYear] and [prevMonth] are never read. *)
Record Loop : Type := mkLoop {
  totals : CountDagSizeMonthly.MonthlyItems Z;
  curr : option (Z * Z);
  prevMonthTotal : option Z
}.

(** The body of [for (const m of metrics)]. *)
Definition step (l : Loop) (m : Metric) : Loop :=
  let year := Db.getFullYear (collected_at m) in
  let month := Db.getMonth (collected_at m) in
  let of_year := default ∅ (totals l !! year) in
  let totals' :=
    <[year := <[month := value m - default 0 (prevMonthTotal l)]> of_year]> (totals l) in
  let curr' := default (year, month) (curr l) in
  if bool_decide (month ≠ curr'.2)
  then mkLoop totals' (Some (year, month)) (Some (value m))
  else mkLoop totals' (Some curr') (prevMonthTotal l).

(** The totals [main] sums up and prints. *)
Definition monthly_totals (metrics : list Metric) : CountDagSizeMonthly.MonthlyItems Z :=
  totals (foldl step (mkLoop ∅ None None) metrics).

(** A metric collected in a month of a year. *)
Definition collected_in (year month : Z) (m : Metric) : Prop :=
  Db.getFullYear (collected_at m) = year /\ Db.getMonth (collected_at m) = month.

End FilecoinMonthly.

(** * Properties *)

(** ** JSON: what is written is read back *)

Section JsonFacts.
Import Json.

Lemma read_chars_emit s k : read_chars (emit_chars s k) = Some (s, k).
Proof.
  induction s as [|c r IH]; cbn [emit_chars read_chars].
  - by rewrite Ascii.eqb_refl.
  - destruct (needs_escape c) eqn:Hesc; cbn [read_chars].
    + change (Ascii.eqb backslash dquote) with false.
      rewrite Ascii.eqb_refl, Hesc, IH. done.
    + unfold needs_escape in Hesc. apply orb_false_iff in Hesc as [-> ->].
      by rewrite IH.
Qed.

Lemma read_string_emit s k : read_string (emit_string s k) = Some (s, k).
Proof.
  unfold read_string, emit_string. rewrite Ascii.eqb_refl. apply read_chars_emit.
Qed.

Lemma span_num_app s k :
  num_string s = true -> ends_number k -> span_num (s ++ k) = (s, k).
Proof.
  intros Hs Hk. induction s as [|c r IH].
  - change (EmptyString ++ k)%string with k.
    destruct k as [|c k']; [done|]. cbn [ends_number span_num] in *. by rewrite Hk.
  - change (String c r ++ k)%string with (String c (r ++ k)).
    cbn [span_num num_string] in *.
    apply andb_true_iff in Hs as [-> Hr]. by rewrite (IH Hr).
Qed.

Lemma num_string_of_uint d : num_string (NilEmpty.string_of_uint d) = true.
Proof. induction d; simpl; auto. Qed.

Lemma num_string_String_ n : num_string (String_ n) = true.
Proof.
  unfold String_. destruct n as [|p|p]; try reflexivity.
  - simpl. destruct (Pos.to_uint p); try reflexivity; apply num_string_of_uint.
  - simpl. destruct (Pos.to_uint p); try reflexivity; apply num_string_of_uint.
Qed.

Lemma int_of_String_ n : NilZero.int_of_string (String_ n) = Some (Z.to_int n).
Proof.
  unfold String_. apply NilZero.isi.
  - destruct n; simpl; try discriminate.
    intros [= H]. by apply Unsigned.to_uint_nonnil in H.
  - destruct n; simpl; try discriminate.
    intros [= H]. by apply Unsigned.to_uint_nonnil in H.
Qed.

Lemma String_nonempty n : String_ n <> EmptyString.
Proof.
  intros H. pose proof (int_of_String_ n) as Hn. rewrite H in Hn. discriminate.
Qed.

Lemma read_number_String_ n k :
  ends_number k -> read_number (String_ n ++ k) = Some (n, k).
Proof.
  intros Hk. unfold read_number.
  rewrite (span_num_app _ _ (num_string_String_ n) Hk).
  by rewrite int_of_String_, DecimalZ.of_to.
Qed.

Lemma BigInt_String_ n : BigInt (Some (JStr (String_ n))) = Ok n.
Proof.
  unfold BigInt. pose proof (String_nonempty n) as Hne.
  destruct (String_ n) eqn:Hs; [done|].
  by rewrite <- Hs, int_of_String_, DecimalZ.of_to.
Qed.

Lemma read_value_emit v k :
  ends_number k -> read_value (emit_value v k) = Some (v, k).
Proof.
  intros Hk. destruct v as [s|n].
  - unfold read_value, emit_value.
    pose proof (read_string_emit s k) as Hr. unfold emit_string in *.
    by rewrite Ascii.eqb_refl, Hr.
  - unfold read_value, emit_value.
    pose proof (num_string_String_ n) as Hnum.
    pose proof (String_nonempty n) as Hne.
    pose proof (read_number_String_ n k Hk) as Hr.
    destruct (String_ n) as [|c r] eqn:Hs; [done|].
    simpl in Hnum. apply andb_true_iff in Hnum as [Hc _].
    change (String c r ++ k)%string with (String c (r ++ k)) in *.
    cbv beta iota.
    destruct (Ascii.eqb c dquote) eqn:Hq.
    + apply Ascii.eqb_eq in Hq. subst c. discriminate.
    + by rewrite Hr.
Qed.

Lemma read_entries_emit es k fuel :
  es <> [] -> (length es <= fuel)%nat ->
  read_entries fuel (emit_entries es (String "}" k)) = Some (es, k).
Proof.
  revert fuel. induction es as [|[key v] rest IH]; intros fuel Hne Hfuel; [done|].
  destruct fuel as [|fuel]; [simpl in Hfuel; lia|].
  cbn [read_entries emit_entries]. rewrite read_string_emit.
  change (Ascii.eqb ":" ":") with true. cbn match.
  destruct rest as [|e rest'].
  - rewrite read_value_emit by reflexivity.
    by change (Ascii.eqb "}" "}") with true.
  - rewrite read_value_emit by reflexivity.
    change (Ascii.eqb "," "}") with false. change (Ascii.eqb "," ",") with true.
    cbn match. rewrite IH; [done|done|simpl in *; lia].
Qed.

Lemma length_emit_chars s k : (String.length k < String.length (emit_chars s k))%nat.
Proof.
  induction s as [|c r IH]; cbn [emit_chars]; [simpl; lia|].
  destruct (needs_escape c); simpl; lia.
Qed.

Lemma length_append s k : String.length (s ++ k) = (String.length s + String.length k)%nat.
Proof. induction s; simpl; auto. Qed.

Lemma length_emit_entries es k :
  (length es + String.length k <= String.length (emit_entries es k))%nat.
Proof.
  induction es as [|[key v] rest IH]; cbn [emit_entries]; [simpl; lia|].
  unfold emit_string.
  set (tl := match rest with [] => k | _ => String "," (emit_entries rest k) end).
  assert (length rest + String.length k <= String.length tl)%nat as Htl.
  { subst tl. destruct rest; [simpl; lia|]. simpl String.length. simpl in IH. simpl. lia. }
  assert (String.length tl <= String.length (emit_value v tl))%nat as Hv.
  { destruct v; unfold emit_value, emit_string.
    - pose proof (length_emit_chars s tl). simpl. lia.
    - rewrite length_append. lia. }
  pose proof (length_emit_chars key (String ":" (emit_value v tl))) as Hk.
  simpl in *. lia.
Qed.

(** [JSON.parse(JSON.stringify(o))] is [o], for every flat object. *)
Lemma parse_stringify o : parse (stringify o) = Ok o.
Proof.
  unfold parse, stringify. change (Ascii.eqb "{" "{") with true. cbn match.
  destruct o as [|e o'] eqn:Ho; [reflexivity|]. rewrite <- Ho.
  assert (o <> []) as Hne by (by subst).
  pose proof (length_emit_entries o (String "}" EmptyString)) as Hlen.
  rewrite read_entries_emit by (done || (simpl in Hlen; lia)).
  destruct (emit_entries o (String "}" EmptyString)) as [|d r] eqn:Hr.
  - simpl in Hlen. lia.
  - destruct r; [|done]. subst o. simpl in Hlen. lia.
Qed.

Lemma of_utf8_utf8 s : Fs.of_utf8 (Fs.utf8 s) = s.
Proof. apply string_of_list_byte_of_string. Qed.
End JsonFacts.

(** ** The arithmetic of the scan *)

Section Arithmetic.
Variable P : Z.
Hypothesis P_pos : 0 < P.

(** [ceil_div a P] is the least [q] with [a <= P * q]. *)
Lemma ceil_div_spec a : P * (ceil_div a P - 1) < a <= P * ceil_div a P.
Proof.
  unfold ceil_div.
  pose proof (Z.div_mod (a + P - 1) P ltac:(lia)) as Hdm.
  pose proof (Z.mod_pos_bound (a + P - 1) P P_pos) as Hm.
  lia.
Qed.

Lemma ceil_div_least a q : a <= P * q -> ceil_div a P <= q.
Proof. pose proof (ceil_div_spec a). nia. Qed.

Lemma ceil_div_nonpos a : a <= 0 -> ceil_div a P <= 0.
Proof. intros. apply ceil_div_least. lia. Qed.

Lemma ceil_div_pos a : 0 < a -> 1 <= ceil_div a P.
Proof. pose proof (ceil_div_spec a). nia. Qed.

Lemma ceil_div_step a : ceil_div a P = 1 + ceil_div (a - P) P.
Proof.
  unfold ceil_div. replace (a + P - 1) with ((a - P + P - 1) + 1 * P) by lia.
  rewrite Z.div_add by lia. lia.
Qed.

Lemma pages_left_done max c : max <= c -> pages_left P max c = O.
Proof.
  intros. unfold pages_left. pose proof (ceil_div_nonpos (max - c)). lia.
Qed.

Lemma pages_left_step max c :
  c < max -> pages_left P max c = S (pages_left P max (c + P)).
Proof.
  intros Hc. unfold pages_left. rewrite (ceil_div_step (max - c)).
  replace (max - c - P) with (max - (c + P)) by lia.
  assert (0 <= ceil_div (max - (c + P)) P).
  { pose proof (ceil_div_pos (max - c) ltac:(lia)) as H1.
    rewrite ceil_div_step in H1.
    replace (max - c - P) with (max - (c + P)) in H1 by lia. lia. }
  lia.
Qed.

Lemma pages_left_pos max c : (0 < pages_left P max c)%nat -> c < max.
Proof.
  intros Hn. destruct (decide (c < max)) as [|Hge]; [done|].
  rewrite pages_left_done in Hn by lia. lia.
Qed.

Lemma pages_left_Z max c :
  c < max -> Z.of_nat (pages_left P max c) = ceil_div (max - c) P.
Proof.
  intros. unfold pages_left. pose proof (ceil_div_pos (max - c)). lia.
Qed.

(** The multiple of [P] the scan ends at is the least one that is
    not below the end of the range. *)
Lemma ceil_div_smallest_multiple R :
  let final := P * ceil_div R P in
  (P | final) /\ R <= final /\ forall m, (P | m) -> R <= m -> final <= m.
Proof.
  pose proof (ceil_div_spec R) as Hs. cbv zeta. split; [|split].
  - exists (ceil_div R P). lia.
  - lia.
  - intros m [k ->] Hm. pose proof (ceil_div_least R k ltac:(lia)). nia.
Qed.

Lemma length_cursors c n : length (cursors P c n) = n.
Proof. revert c. induction n as [|n IH]; intros c; simpl; auto. Qed.

Lemma cursors_snoc c n : cursors P c (S n) = cursors P c n ++ [c + P * Z.of_nat n].
Proof.
  revert c. induction n as [|n IH]; intros c.
  - simpl. f_equal. lia.
  - change (cursors P c (S (S n))) with (c :: cursors P (c + P) (S n)).
    rewrite IH. simpl. do 3 f_equal. lia.
Qed.

Lemma cursors_app c n m :
  cursors P c n ++ cursors P (c + P * Z.of_nat n) m = cursors P c (n + m).
Proof.
  revert c. induction n as [|n IH]; intros c; simpl.
  - f_equal. lia.
  - f_equal. rewrite <- IH. do 2 f_equal. lia.
Qed.

Lemma pages_left_add max k : forall c,
  (k <= pages_left P max c)%nat ->
  pages_left P max (c + P * Z.of_nat k) = (pages_left P max c - k)%nat.
Proof.
  induction k as [|k IH]; intros c Hk.
  - replace (c + P * Z.of_nat 0) with c by lia. lia.
  - assert (c < max) as Hlt by (apply pages_left_pos; lia).
    rewrite (pages_left_step max c Hlt) in Hk |- *.
    replace (c + P * Z.of_nat (S k)) with ((c + P) + P * Z.of_nat k) by lia.
    rewrite IH by lia. lia.
Qed.

(** Consecutive cursors are exactly [P] apart. *)
Lemma cursors_lookup c n (i : nat) :
  (i < n)%nat -> cursors P c n !! i = Some (c + P * Z.of_nat i).
Proof.
  revert c i. induction n as [|n IH]; intros c i Hi; [lia|].
  destruct i as [|i]; simpl.
  - f_equal. lia.
  - rewrite IH by lia. f_equal. lia.
Qed.
End Arithmetic.

(** ** The scan loop *)

Section ScanFacts.
Context {S D : Type}.
Variable currentID : S -> Z.
Variable batch : S -> Result S.
Variable save : S -> D -> Result D.
Variable load : D -> Result S.
Variable P : Z.

Local Abbreviation scan := (Scanner.scan currentID batch save).
Local Abbreviation page := (Scanner.page batch save).

(** The loop only ever adds to the cursors it has queried. *)
Lemma scan_queried_app fuel max state d qs :
  Scanner.queried (scan fuel max state d qs)
  = qs ++ Scanner.queried (scan fuel max state d []).
Proof.
  revert state d qs. induction fuel as [|fuel IH]; intros state d qs; simpl.
  - by rewrite app_nil_r.
  - case_bool_decide; simpl; [|by rewrite app_nil_r].
    destruct (page state d) as [[state' d']|err]; simpl; [|done].
    rewrite (IH _ _ (qs ++ _)), (IH _ _ [_]). by rewrite app_assoc.
Qed.

Lemma scan_disk_outcome fuel max state d qs :
  Scanner.disk (scan fuel max state d qs) = Scanner.disk (scan fuel max state d [])
  /\ Scanner.outcome (scan fuel max state d qs)
     = Scanner.outcome (scan fuel max state d []).
Proof.
  revert state d qs. induction fuel as [|fuel IH]; intros state d qs; simpl; [done|].
  case_bool_decide; simpl; [|done].
  destruct (page state d) as [[state' d']|err]; simpl; [|done].
  destruct (IH state' d' (qs ++ [currentID state])) as [-> ->].
  destruct (IH state' d' [currentID state]) as [-> ->]. done.
Qed.

(** The first page a process asks for is the one at its cursor. *)
Lemma scan_first_query fuel max state d :
  currentID state < max ->
  head (Scanner.queried (scan (Datatypes.S fuel) max state d [])) = Some (currentID state).
Proof.
  intros Hlt. simpl. rewrite bool_decide_eq_true_2 by done.
  destruct (page state d) as [[state' d']|err]; simpl; [|done].
  by rewrite scan_queried_app.
Qed.

(** A failing page leaves the disk as it was. *)
Lemma scan_failing_page fuel max state d qs err :
  currentID state < max -> page state d = Throw err ->
  scan (Datatypes.S fuel) max state d qs
  = Scanner.mkRun d (qs ++ [currentID state]) (Scanner.Failed err).
Proof.
  intros Hlt Hpage. simpl. by rewrite bool_decide_eq_true_2, Hpage.
Qed.

Section Completes.
Variable good : D -> Prop.
Hypothesis P_pos : 0 < P.
Hypothesis batch_advances :
  forall st st', batch st = Ok st' -> currentID st' = currentID st + P.
Hypothesis batch_ok : forall st, is_ok (batch st) = true.
Hypothesis save_ok : forall st d, good d -> exists d', save st d = Ok d' /\ good d'.

(** With no failing page the loop ends after [pages_left] pages,
    whatever the pages hold. *)
Lemma scan_finishes n : forall fuel max state d qs,
  good d -> n = pages_left P max (currentID state) -> (n < fuel)%nat ->
  exists state' d',
    scan fuel max state d qs
    = Scanner.mkRun d' (qs ++ cursors P (currentID state) n) (Scanner.Finished state')
    /\ currentID state' = currentID state + P * Z.of_nat n
    /\ good d'.
Proof.
  induction n as [|n IH]; intros fuel max state d qs Hd Hn Hfuel;
    (destruct fuel as [|fuel]; [lia|]); simpl.
  - destruct (decide (currentID state < max)) as [Hlt|Hge].
    { rewrite (pages_left_step P P_pos) in Hn by done. done. }
    rewrite bool_decide_eq_false_2 by done.
    exists state, d. rewrite app_nil_r. split; [done|]. split; [lia|done].
  - assert (currentID state < max) as Hlt.
    { apply (pages_left_pos P P_pos). lia. }
    rewrite bool_decide_eq_true_2 by done.
    unfold Scanner.page.
    pose proof (batch_ok state) as Hb.
    destruct (batch state) as [state1|] eqn:Hbatch; [|done].
    destruct (save_ok state1 d Hd) as (d1 & Hsave & Hd1).
    cbn. rewrite Hsave. cbn.
    pose proof (batch_advances _ _ Hbatch) as Hadv.
    rewrite (pages_left_step P P_pos) in Hn by done.
    destruct (IH fuel max state1 d1 (qs ++ [currentID state]) Hd1) as (st' & d' & Hrun & Hcur & Hd');
      [rewrite Hadv; lia | lia |].
    exists st', d'. rewrite Hrun, Hadv, <- app_assoc. split; [done|]. split; [lia|done].
Qed.
End Completes.

Section Persisted.
Hypothesis save_load : forall st d d', save st d = Ok d' -> load d' = Ok st.

(** At every turn of the loop the disk holds the state in memory.
    So when a page fails, the disk holds the state that page was
    started from: the one saved after the page before, or the one
    the process loaded. *)
Lemma scan_failed fuel : forall max state d qs err,
  load d = Ok state ->
  Scanner.outcome (scan fuel max state d qs) = Scanner.Failed err ->
  exists st,
    load (Scanner.disk (scan fuel max state d qs)) = Ok st
    /\ last (Scanner.queried (scan fuel max state d qs)) = Some (currentID st)
    /\ currentID st < max
    /\ page st (Scanner.disk (scan fuel max state d qs)) = Throw err.
Proof.
  induction fuel as [|fuel IH]; intros max state d qs err Hload; simpl; [done|].
  case_bool_decide as Hlt; simpl; [|done].
  destruct (page state d) as [[state' d']|err'] eqn:Hpage; simpl.
  - intros Hout. apply IH; [|done].
    unfold Scanner.page in Hpage.
    destruct (batch state) as [st1|]; [|done]. cbn in Hpage.
    destruct (save st1 d) as [d1|] eqn:Hsave; [|done]. cbn in Hpage.
    injection Hpage as <- <-. eauto.
  - intros [= ->]. exists state. by rewrite last_snoc.
Qed.

(** A process killed between the page and the save leaves the disk
    as it was, and the process started next does the same page
    from the same state. *)
Lemma turn_replay d :
  Scanner.turn batch save load Scanner.DiesBeforeSave d
    ≫= Scanner.turn batch save load Scanner.Survives
  = Scanner.turn batch save load Scanner.Survives d.
Proof.
  unfold Scanner.turn.
  destruct (load d) as [state|] eqn:Hload; cbn; [|done].
  destruct (batch state) as [state'|] eqn:Hbatch; cbn; [|done].
  by rewrite Hload; cbn; rewrite Hbatch.
Qed.

Lemma turn_persists d d' state :
  load d = Ok state ->
  Scanner.turn batch save load Scanner.Survives d = Ok d' ->
  exists state', batch state = Ok state' /\ load d' = Ok state'.
Proof.
  unfold Scanner.turn. intros ->. cbn.
  destruct (batch state) as [state'|]; cbn; [|done].
  intros Hsave. eauto.
Qed.
End Persisted.
End ScanFacts.

(** ** The checkpoint files *)

Section FsFacts.
Lemma writeFile_ok path data d :
  Fs.writable path d ->
  Fs.writeFile path data d = Ok (<[path := Fs.File data]> d).
Proof.
  unfold Fs.writable, Fs.writeFile. intros Hw.
  destruct (d !! path) as [[]|]; done.
Qed.

Lemma writeFile_inv path data d d' :
  Fs.writeFile path data d = Ok d' -> d' = <[path := Fs.File data]> d.
Proof.
  unfold Fs.writeFile. destruct (d !! path) as [[]|]; congruence.
Qed.

Lemma writeFile_readFile path data d d' :
  Fs.writeFile path data d = Ok d' -> Fs.readFile path d' = Ok data.
Proof.
  intros ->%writeFile_inv. unfold Fs.readFile. by rewrite lookup_insert_eq.
Qed.

Lemma writeFile_writable path data d d' :
  Fs.writeFile path data d = Ok d' -> Fs.writable path d'.
Proof.
  intros ->%writeFile_inv. unfold Fs.writable. by rewrite lookup_insert_eq.
Qed.

Lemma readFile_writable path data d :
  Fs.readFile path d = Ok data -> Fs.writable path d.
Proof.
  unfold Fs.readFile, Fs.writable. destruct (d !! path) as [[]|]; done.
Qed.

Lemma readFile_absent path d :
  d !! path = None -> Fs.readFile path d = Throw (SysError "ENOENT").
Proof. unfold Fs.readFile. by intros ->. Qed.

Lemma absent_writable path d : d !! path = None -> Fs.writable path d.
Proof. unfold Fs.writable. by intros ->. Qed.
End FsFacts.

Section CurrentIDStateFacts.
Import CurrentIDState.

Lemma decode_encode state : decode (encode state) = Ok state.
Proof.
  unfold decode, encode. rewrite of_utf8_utf8, parse_stringify.
  cbn -[Json.BigInt Json.String_].
  rewrite BigInt_String_. cbn. by destruct state.
Qed.

Lemma store_load path state d d' :
  State.store encode path state d = Ok d' ->
  State.load decode path d' = Ok (Some state).
Proof.
  unfold State.store, State.load. intros Hw.
  rewrite (writeFile_readFile _ _ _ _ Hw). cbn -[decode encode].
  by rewrite decode_encode.
Qed.

Lemma load_absent path d :
  d !! path = None -> State.load decode path d = Ok None.
Proof.
  intros Hd. unfold State.load. by rewrite readFile_absent.
Qed.

Lemma store_load_or_init path state d d' :
  State.store encode path state d = Ok d' -> load_or_init path d' = Ok state.
Proof.
  intros Hs. unfold load_or_init. by rewrite (store_load _ _ _ _ Hs).
Qed.

Lemma load_or_init_writable path state d :
  load_or_init path d = Ok state -> Fs.writable path d.
Proof.
  unfold load_or_init, State.load, Fs.writable, Fs.readFile.
  destruct (d !! path) as [[]|]; done.
Qed.
End CurrentIDStateFacts.

Section CountDagSizeFacts.
Import CountDagSize.
Variable P : Z.
Variable db : Db.t.
Variable denylist : gset string.

Lemma batch_advances st st' :
  batch P db denylist st = Ok st' -> currentID st' = currentID st + P.
Proof.
  unfold batch.
  destruct (Db.fetchUploadsAfter db (currentID st) P) as [uploads|]; cbn; [|done].
  case_bool_decide; cbn.
  - destruct (fetchTotalDagSize db _); cbn; [|done]. by intros [= <-].
  - by intros [= <-].
Qed.

Lemma saveState_loadState st d d' : saveState st d = Ok d' -> loadState d' = Ok st.
Proof.
  unfold saveState, loadState. intros Hw.
  rewrite (writeFile_readFile _ _ _ _ Hw).
  cbn -[Fs.of_utf8 Fs.utf8 Json.parse Json.stringify].
  rewrite of_utf8_utf8, parse_stringify. cbn -[Json.BigInt Json.String_].
  rewrite !BigInt_String_. cbn. by destruct st.
Qed.

Lemma saveState_ok st d :
  Fs.writable statePath d ->
  exists d', saveState st d = Ok d' /\ Fs.writable statePath d'.
Proof.
  intros Hw. unfold saveState. rewrite writeFile_ok by done.
  eexists. split; [done|]. unfold Fs.writable. by rewrite lookup_insert_eq.
Qed.

Lemma loadState_writable st d : loadState d = Ok st -> Fs.writable statePath d.
Proof.
  unfold loadState, Fs.writable, Fs.readFile.
  destruct (d !! statePath) as [[]|]; done.
Qed.

Lemma loadState_absent d :
  d !! statePath = None -> loadState d = Ok (mkState 0 0 0).
Proof. intros Hd. unfold loadState. by rewrite readFile_absent. Qed.
End CountDagSizeFacts.

Section DenylistCarsFacts.
Import DenylistCars.
Variable P : Z.
Variable db : Db.t.
Variable fetchBucketKeys : string -> Result (list string).
Variable denylist : gset string.
Hypothesis P_pos : 0 < P.
Hypothesis items_ok :
  forall c, is_ok (listed_items P db fetchBucketKeys denylist c) = true.

Local Abbreviation cur w := (CurrentIDState.currentID (state w)).
Local Abbreviation pull := (DenylistCars.pull P db fetchBucketKeys denylist).
Local Abbreviation pipe := (DenylistCars.pipe P db fetchBucketKeys denylist).

(** A call of [pull] goes through the pages one after the other until
    one of them has data, or to the end of the range. *)
Lemma pull_pages n : forall fuel max w,
  Fs.writable statePath (disk w) ->
  n = pages_left P max (cur w) -> (n < fuel)%nat ->
  exists (k : nat) w' r,
    pull fuel max w = (w', r)
    /\ (k <= n)%nat
    /\ queried w' = queried w ++ cursors P (cur w) k
    /\ cur w' = cur w + P * Z.of_nat k
    /\ Fs.writable statePath (disk w')
    /\ ((r = Closed /\ k = n) \/ (r = Yielded /\ (0 < k)%nat)).
Proof.
  induction n as [|n IH]; intros fuel max w Hw Hn Hfuel;
    (destruct fuel as [|fuel]; [lia|]); cbn [DenylistCars.pull].
  - destruct (decide (cur w < max)) as [Hlt|Hge].
    { rewrite (pages_left_step P P_pos) in Hn by done. done. }
    rewrite bool_decide_eq_true_2 by lia.
    exists O, w, Closed. rewrite app_nil_r.
    repeat split; auto; lia.
  - assert (cur w < max) as Hlt by (apply (pages_left_pos P P_pos); lia).
    rewrite bool_decide_eq_false_2 by lia.
    pose proof (items_ok (cur w)) as Hok.
    destruct (listed_items P db fetchBucketKeys denylist (cur w)) as [items|]; [|done].
    unfold State.store. cbn [disk]. rewrite writeFile_ok by done.
    set (w1 := mkWorld _ _ _ _).
    assert (Fs.writable statePath (disk w1)) as Hw1.
    { subst w1. cbn. unfold Fs.writable. by rewrite lookup_insert_eq. }
    case_bool_decide as Hitems; cbn [bool_decide].
    + exists 1%nat, w1, Yielded. subst w1. cbn.
      repeat split; auto; lia.
    + rewrite (pages_left_step P P_pos) in Hn by done.
      destruct (IH fuel max w1 Hw1) as (k & w' & r & Hpull & Hk & Hq & Hc & Hw' & Hr);
        [subst w1; cbn; lia | lia |].
      exists (S k), w', r. rewrite Hpull, Hq, Hc. subst w1. cbn.
      rewrite <- !app_assoc.
      repeat split; auto; try lia.
      destruct Hr as [[-> ->]|[-> _]]; [left; split; [done|lia] | right; split; [done|lia]].
Qed.

(** Piped to its end, the stream closes after [pages_left] pages. *)
Lemma pipe_closes pulls : forall fuel max w,
  Fs.writable statePath (disk w) ->
  (pages_left P max (cur w) < pulls)%nat ->
  (pages_left P max (cur w) < fuel)%nat ->
  exists w',
    pipe pulls fuel max w = (w', Closed)
    /\ queried w' = queried w ++ cursors P (cur w) (pages_left P max (cur w))
    /\ cur w' = cur w + P * Z.of_nat (pages_left P max (cur w)).
Proof.
  induction pulls as [|pulls IH]; intros fuel max w Hw Hpulls Hfuel; [lia|].
  cbn [DenylistCars.pipe].
  destruct (pull_pages _ fuel max w Hw eq_refl Hfuel)
    as (k & w1 & r & Hpull & Hk & Hq & Hc & Hw1 & Hr).
  rewrite Hpull. destruct Hr as [[-> ->]|[-> Hpos]].
  - by exists w1.
  - pose proof (pages_left_add P P_pos max k (cur w) Hk) as Hleft.
    rewrite <- Hc in Hleft.
    destruct (IH fuel max w1 Hw1) as (w' & Hpipe & Hq' & Hc'); [lia..|].
    exists w'. rewrite Hpipe, Hq', Hc', Hleft, Hq, Hc, <- app_assoc.
    rewrite (cursors_app P). split; [done|]. split; [do 2 f_equal; lia|].
    rewrite Nat2Z.inj_sub by done. ring.
Qed.
End DenylistCarsFacts.

(** ** The claims on the scans *)

Lemma scanned_cursors P c0 R :
  0 < P -> c0 < R ->
  scanned P c0 R (cursors P c0 (pages_left P R c0))
          (c0 + P * Z.of_nat (pages_left P R c0)).
Proof.
  intros HP Hlt. unfold scanned.
  rewrite (length_cursors P), (pages_left_Z P HP) by done.
  split; [done|]. split; [|split; [done|]].
  - intros i Hi. by apply cursors_lookup.
  - intros ->. rewrite Z.sub_0_r, Z.add_0_l. apply (ceil_div_smallest_multiple P HP).
Qed.

Lemma examples_db_batch_ok st :
  is_ok (CountDagSize.batch 10000 Examples.db Examples.denylist st) = true.
Proof.
  unfold CountDagSize.batch, Db.fetchUploadsAfter, Examples.db, Db.of_tables,
    Db.uploads_after, Db.select_uploads_after, Examples.uploads.
  rewrite !filter_cons, filter_nil. cbn [Db.id Examples.upload_at].
  repeat case_decide; vm_compute; reflexivity.
Qed.

Lemma examples_db_items_ok c :
  is_ok (DenylistCars.listed_items 10000 Examples.db Examples.no_keys
           Examples.denylist c) = true.
Proof.
  unfold DenylistCars.listed_items, Db.fetchUploadsAfter, Examples.db, Db.of_tables,
    Db.uploads_after, Db.select_uploads_after, Examples.uploads.
  rewrite !filter_cons, filter_nil. cbn [Db.id Examples.upload_at].
  repeat case_decide; vm_compute; reflexivity.
Qed.

Lemma count_dag_size_scan
    (P R : Z) (db : Db.t) (denylist : gset string)
    (state : CountDagSize.State) (d : Fs.t) (fuel : nat) :
  0 < P -> CountDagSize.currentID state < R ->
  Fs.writable CountDagSize.statePath d ->
  (forall st, is_ok (CountDagSize.batch P db denylist st) = true) ->
  (Z.to_nat (ceil_div (R - CountDagSize.currentID state) P) < fuel)%nat ->
  exists state',
    let run := Scanner.scan CountDagSize.currentID (CountDagSize.batch P db denylist)
                 CountDagSize.saveState fuel R state d [] in
    Scanner.outcome run = Scanner.Finished state'
    /\ scanned P (CountDagSize.currentID state) R (Scanner.queried run)
               (CountDagSize.currentID state').
Proof.
  intros HP Hlt Hd Hbatch Hfuel.
  fold (pages_left P R (CountDagSize.currentID state)) in Hfuel.
  destruct (scan_finishes CountDagSize.currentID (CountDagSize.batch P db denylist)
              CountDagSize.saveState P (Fs.writable CountDagSize.statePath) HP
              (batch_advances P db denylist) Hbatch
              (fun st d Hw => saveState_ok st d Hw)
              (pages_left P R (CountDagSize.currentID state)) fuel R state d [] Hd)
    as (state' & d' & Hrun & Hcur & _); [done..|].
  exists state'. cbv zeta. rewrite Hrun. cbn. split; [done|].
  rewrite Hcur. by apply scanned_cursors.
Qed.

Lemma denylist_cars_pipe
    (P R : Z) (db : Db.t) (denylist : gset string)
    (fetchBucketKeys : string -> Result (list string))
    (w : DenylistCars.World) (pulls fuel : nat) :
  let c0 := CurrentIDState.currentID (DenylistCars.state w) in
  0 < P -> c0 < R ->
  DenylistCars.queried w = [] ->
  Fs.writable DenylistCars.statePath (DenylistCars.disk w) ->
  (forall c, is_ok (DenylistCars.listed_items P db fetchBucketKeys denylist c) = true) ->
  (Z.to_nat (ceil_div (R - c0) P) < pulls)%nat ->
  (Z.to_nat (ceil_div (R - c0) P) < fuel)%nat ->
  exists w',
    DenylistCars.pipe P db fetchBucketKeys denylist pulls fuel R w
    = (w', DenylistCars.Closed)
    /\ scanned P c0 R (DenylistCars.queried w')
               (CurrentIDState.currentID (DenylistCars.state w')).
Proof.
  intros c0 HP Hlt Hqw Hdw Hitems Hpulls Hfuel.
  fold (pages_left P R c0) in Hfuel, Hpulls.
  destruct (pipe_closes P db fetchBucketKeys denylist HP Hitems pulls fuel R w Hdw)
    as (w' & Hpipe & Hq & Hcur); [done..|].
  exists w'. split; [done|].
  rewrite Hq, Hcur, Hqw. by apply scanned_cursors.
Qed.

(** C1. When no page fails, the loop of [count-dag-size.mjs] and the
    stream of [denylist-cars.mjs], started at a cursor [c0] below the
    end [R] of the range with page size [P > 0], fetch exactly
    [ceil ((R - c0) / P)] pages: the ones at [c0], [c0 + P], [c0 + 2 P],
    ..., whatever rows the pages hold.  They end with the cursor at
    [c0 + P * ceil ((R - c0) / P)]; for [c0 = 0] this is the least
    multiple of [P] that is not below [R]. *)
Theorem C1_scan_fetches_ceil_pages :
  (forall (P R : Z) (db : Db.t) (denylist : gset string)
          (state : CountDagSize.State) (d : Fs.t) (fuel : nat),
     0 < P -> CountDagSize.currentID state < R ->
     Fs.writable CountDagSize.statePath d ->
     (forall st, is_ok (CountDagSize.batch P db denylist st) = true) ->
     (Z.to_nat (ceil_div (R - CountDagSize.currentID state) P) < fuel)%nat ->
     exists state',
       let run := Scanner.scan CountDagSize.currentID (CountDagSize.batch P db denylist)
                    CountDagSize.saveState fuel R state d [] in
       Scanner.outcome run = Scanner.Finished state'
       /\ scanned P (CountDagSize.currentID state) R (Scanner.queried run)
                  (CountDagSize.currentID state'))
  /\ (forall (P R : Z) (db : Db.t) (denylist : gset string)
             (fetchBucketKeys : string -> Result (list string))
             (w : DenylistCars.World) (pulls fuel : nat),
        let c0 := CurrentIDState.currentID (DenylistCars.state w) in
        0 < P -> c0 < R ->
        DenylistCars.queried w = [] ->
        Fs.writable DenylistCars.statePath (DenylistCars.disk w) ->
        (forall c, is_ok (DenylistCars.listed_items P db fetchBucketKeys denylist c) = true) ->
        (Z.to_nat (ceil_div (R - c0) P) < pulls)%nat ->
        (Z.to_nat (ceil_div (R - c0) P) < fuel)%nat ->
        exists w',
          DenylistCars.pipe P db fetchBucketKeys denylist pulls fuel R w
          = (w', DenylistCars.Closed)
          /\ scanned P c0 R (DenylistCars.queried w')
                     (CurrentIDState.currentID (DenylistCars.state w'))).
Proof.
  split.
  - exact count_dag_size_scan.
  - exact denylist_cars_pipe.
Qed.

Lemma C1_scan_fetches_ceil_pages_witness :
  (exists state',
     let run := Scanner.scan CountDagSize.currentID
                  (CountDagSize.batch 10000 Examples.db Examples.denylist)
                  CountDagSize.saveState 4 25000 (CountDagSize.mkState 0 0 0) ∅ [] in
     Scanner.outcome run = Scanner.Finished state'
     /\ scanned 10000 0 25000 (Scanner.queried run) (CountDagSize.currentID state'))
  /\ (exists w',
       DenylistCars.pipe 10000 Examples.db Examples.no_keys Examples.denylist 4 4 25000
         (DenylistCars.mkWorld (CurrentIDState.mkState 0) ∅ [] [])
       = (w', DenylistCars.Closed)
       /\ scanned 10000 0 25000 (DenylistCars.queried w')
                  (CurrentIDState.currentID (DenylistCars.state w'))).
Proof.
  split.
  - refine (proj1 C1_scan_fetches_ceil_pages 10000 25000 Examples.db Examples.denylist
              (CountDagSize.mkState 0 0 0) ∅ 4%nat _ _ _ _ _).
    + lia.
    + cbn. lia.
    + apply absent_writable. reflexivity.
    + apply examples_db_batch_ok.
    + vm_compute. lia.
  - refine (proj2 C1_scan_fetches_ceil_pages 10000 25000 Examples.db Examples.denylist
              Examples.no_keys (DenylistCars.mkWorld (CurrentIDState.mkState 0) ∅ [] [])
              4%nat 4%nat _ _ _ _ _ _ _).
    + lia.
    + cbn. lia.
    + reflexivity.
    + apply absent_writable. reflexivity.
    + apply examples_db_items_ok.
    + vm_compute. lia.
    + vm_compute. lia.
Defined.

(** C3. A checkpoint whose cursor is any non-negative integer, however
    large, is read back with the same cursor after it was stored:
    [decode] undoes [encode], and [State.load] returns the state that
    [State.store] wrote.  Where the file does not exist [State.load]
    returns [undefined] and the script goes on from [init ()], whose
    cursor is zero. *)
Theorem C3_checkpoint_round_trip (n : Z) (path : string) (d d' : Fs.t) :
  0 <= n ->
  State.store CurrentIDState.encode path (CurrentIDState.mkState n) d = Ok d' ->
  CurrentIDState.decode (CurrentIDState.encode (CurrentIDState.mkState n))
  = Ok (CurrentIDState.mkState n)
  /\ State.load CurrentIDState.decode path d' = Ok (Some (CurrentIDState.mkState n))
  /\ CurrentIDState.load_or_init path d' = Ok (CurrentIDState.mkState n)
  /\ State.load CurrentIDState.decode path (delete path d) = Ok None
  /\ CurrentIDState.load_or_init path (delete path d) = Ok CurrentIDState.init
  /\ CurrentIDState.currentID CurrentIDState.init = 0.
Proof.
  intros _ Hstore. split; [apply decode_encode|].
  split; [by apply (store_load _ _ d)|].
  split; [by apply (store_load_or_init _ _ d)|].
  assert (State.load CurrentIDState.decode path (delete path d) = Ok None) as Habsent.
  { apply load_absent, lookup_delete_eq. }
  split; [done|]. split; [|done].
  unfold CurrentIDState.load_or_init. by rewrite Habsent.
Qed.

Lemma C3_checkpoint_round_trip_witness :
  CurrentIDState.decode (CurrentIDState.encode (CurrentIDState.mkState 9007199254740993))
  = Ok (CurrentIDState.mkState 9007199254740993)
  /\ State.load CurrentIDState.decode "state.json"
       (<["state.json"%string :=
            Fs.File (CurrentIDState.encode (CurrentIDState.mkState 9007199254740993))]> ∅)
     = Ok (Some (CurrentIDState.mkState 9007199254740993))
  /\ CurrentIDState.load_or_init "state.json"
       (<["state.json"%string :=
            Fs.File (CurrentIDState.encode (CurrentIDState.mkState 9007199254740993))]> ∅)
     = Ok (CurrentIDState.mkState 9007199254740993)
  /\ State.load CurrentIDState.decode "state.json" (delete "state.json"%string ∅) = Ok None
  /\ CurrentIDState.load_or_init "state.json" (delete "state.json"%string ∅)
     = Ok CurrentIDState.init
  /\ CurrentIDState.currentID CurrentIDState.init = 0.
Proof.
  refine (C3_checkpoint_round_trip 9007199254740993 "state.json" ∅ _ _ _).
  - lia.
  - reflexivity.
Defined.

Section CountDagSizeReplay.
Import CountDagSize.
Variable P : Z.
Variable db : Db.t.
Variable denylist : gset string.

(** What a page adds depends on the page alone. *)
Lemma batch_page_delta st :
  batch P db denylist st
  = delta ← page_delta P db denylist (currentID st);
    Ok (mkState (currentID st + P) (size st + delta.1) (count st + delta.2)).
Proof.
  unfold batch, page_delta.
  destruct (Db.fetchUploadsAfter db (currentID st) P) as [uploads|]; cbn; [|done].
  case_bool_decide; cbn.
  - by destruct (fetchTotalDagSize db _).
  - rewrite Z.add_0_r. by destruct st.
Qed.
End CountDagSizeReplay.

Section MonthlyFacts.
Import CountDagSizeMonthly.

Lemma monthly_store_load st d d' : store st d = Ok d' -> load_or_init d' = Ok st.
Proof. by intros [= <-]. Qed.
End MonthlyFacts.

Lemma count_dag_size_replay
    (P : Z) (db : Db.t) (denylist : gset string) (d d' : Fs.t) (st : CountDagSize.State) :
  let turn := Scanner.turn (CountDagSize.batch P db denylist)
                CountDagSize.saveState CountDagSize.loadState in
  CountDagSize.loadState d = Ok st ->
  turn Scanner.Survives d = Ok d' ->
  turn Scanner.DiesBeforeSave d = Ok d
  /\ turn Scanner.DiesBeforeSave d ≫= turn Scanner.Survives = Ok d'
  /\ exists size' count',
       CountDagSize.page_delta P db denylist (CountDagSize.currentID st) = Ok (size', count')
       /\ CountDagSize.loadState d'
          = Ok (CountDagSize.mkState (CountDagSize.currentID st + P)
                  (CountDagSize.size st + size') (CountDagSize.count st + count')).
Proof.
  intros turn Hload Hturn.
  pose proof (turn_replay (CountDagSize.batch P db denylist) CountDagSize.saveState
                CountDagSize.loadState d) as Hreplay.
  fold turn in Hreplay.
  destruct (turn_persists (CountDagSize.batch P db denylist) CountDagSize.saveState
              CountDagSize.loadState (saveState_loadState) d d' st Hload Hturn)
    as (st' & Hbatch & Hload').
  split; [|split].
  - subst turn. unfold Scanner.turn. rewrite Hload. cbn. by rewrite Hbatch.
  - by rewrite Hreplay.
  - rewrite batch_page_delta in Hbatch.
    destruct (CountDagSize.page_delta P db denylist (CountDagSize.currentID st))
      as [[size' count']|]; [|done].
    cbn in Hbatch. injection Hbatch as <-. by exists size', count'.
Qed.

Lemma count_dag_size_monthly_replay
    (P : Z) (db : Db.t) (denylist : gset string)
    (m m' : option CountDagSizeMonthly.State) (st : CountDagSizeMonthly.State) :
  let turn := Scanner.turn (CountDagSizeMonthly.batch P db denylist)
                CountDagSizeMonthly.store CountDagSizeMonthly.load_or_init in
  CountDagSizeMonthly.load_or_init m = Ok st ->
  turn Scanner.Survives m = Ok m' ->
  turn Scanner.DiesBeforeSave m = Ok m
  /\ turn Scanner.DiesBeforeSave m ≫= turn Scanner.Survives = Ok m'
  /\ exists uploads totals',
       Db.fetchUploadsAfter db (CountDagSizeMonthly.currentID st) P = Ok uploads
       /\ CountDagSizeMonthly.add_months db denylist
            (CountDagSizeMonthly.months (CountDagSizeMonthly.group uploads))
            (CountDagSizeMonthly.totals st) = Ok totals'
       /\ CountDagSizeMonthly.load_or_init m'
          = Ok (CountDagSizeMonthly.mkState (CountDagSizeMonthly.currentID st + P) totals').
Proof.
  intros turn Hload Hturn.
  pose proof (turn_replay (CountDagSizeMonthly.batch P db denylist)
                CountDagSizeMonthly.store CountDagSizeMonthly.load_or_init m) as Hreplay.
  fold turn in Hreplay.
  destruct (turn_persists (CountDagSizeMonthly.batch P db denylist)
              CountDagSizeMonthly.store CountDagSizeMonthly.load_or_init
              monthly_store_load m m' st Hload Hturn)
    as (st' & Hbatch & Hload').
  split; [|split].
  - subst turn. unfold Scanner.turn. rewrite Hload. cbn. by rewrite Hbatch.
  - by rewrite Hreplay.
  - unfold CountDagSizeMonthly.batch in Hbatch.
    destruct (Db.fetchUploadsAfter db (CountDagSizeMonthly.currentID st) P)
      as [uploads|]; [|done].
    cbn in Hbatch.
    destruct (CountDagSizeMonthly.add_months db denylist _ _) as [totals'|] eqn:Hadd;
      [|done].
    cbn in Hbatch. injection Hbatch as <-. by exists uploads, totals'.
Qed.

(** C4. A process that is killed after it has worked through a page and
    before it has saved leaves the checkpoint as it was, and the
    process started next, which does the same page again from the
    checkpoint, leaves what one uninterrupted turn leaves: in
    [count-dag-size.mjs] and in [count-dag-size-monthly.mjs].  The
    checkpoint saved after the page is the checkpoint before it with
    the cursor advanced and the sums of that page, computed from the
    rows fetched at the cursor, added once. *)
Theorem C4_replayed_page_is_counted_once :
  (forall (P : Z) (db : Db.t) (denylist : gset string) (d d' : Fs.t)
          (st : CountDagSize.State),
     let turn := Scanner.turn (CountDagSize.batch P db denylist)
                   CountDagSize.saveState CountDagSize.loadState in
     CountDagSize.loadState d = Ok st ->
     turn Scanner.Survives d = Ok d' ->
     turn Scanner.DiesBeforeSave d = Ok d
     /\ turn Scanner.DiesBeforeSave d ≫= turn Scanner.Survives = Ok d'
     /\ exists size' count',
          CountDagSize.page_delta P db denylist (CountDagSize.currentID st)
          = Ok (size', count')
          /\ CountDagSize.loadState d'
             = Ok (CountDagSize.mkState (CountDagSize.currentID st + P)
                     (CountDagSize.size st + size') (CountDagSize.count st + count')))
  /\ (forall (P : Z) (db : Db.t) (denylist : gset string)
             (m m' : option CountDagSizeMonthly.State) (st : CountDagSizeMonthly.State),
        let turn := Scanner.turn (CountDagSizeMonthly.batch P db denylist)
                      CountDagSizeMonthly.store CountDagSizeMonthly.load_or_init in
        CountDagSizeMonthly.load_or_init m = Ok st ->
        turn Scanner.Survives m = Ok m' ->
        turn Scanner.DiesBeforeSave m = Ok m
        /\ turn Scanner.DiesBeforeSave m ≫= turn Scanner.Survives = Ok m'
        /\ exists uploads totals',
             Db.fetchUploadsAfter db (CountDagSizeMonthly.currentID st) P = Ok uploads
             /\ CountDagSizeMonthly.add_months db denylist
                  (CountDagSizeMonthly.months (CountDagSizeMonthly.group uploads))
                  (CountDagSizeMonthly.totals st) = Ok totals'
             /\ CountDagSizeMonthly.load_or_init m'
                = Ok (CountDagSizeMonthly.mkState
                        (CountDagSizeMonthly.currentID st + P) totals')).
Proof.
  split.
  - exact count_dag_size_replay.
  - exact count_dag_size_monthly_replay.
Qed.

Lemma C4_replayed_page_is_counted_once_witness :
  (let turn := Scanner.turn (CountDagSize.batch 10000 Examples.db Examples.denylist)
                 CountDagSize.saveState CountDagSize.loadState in
   turn Scanner.DiesBeforeSave ∅ = Ok ∅
   /\ turn Scanner.DiesBeforeSave ∅ ≫= turn Scanner.Survives = Ok Examples.checkpoint1
   /\ exists size' count',
        CountDagSize.page_delta 10000 Examples.db Examples.denylist 0 = Ok (size', count')
        /\ CountDagSize.loadState Examples.checkpoint1
           = Ok (CountDagSize.mkState (0 + 10000) (0 + size') (0 + count')))
  /\ (let turn := Scanner.turn (CountDagSizeMonthly.batch 10000 Examples.db Examples.denylist)
                    CountDagSizeMonthly.store CountDagSizeMonthly.load_or_init in
      turn Scanner.DiesBeforeSave None = Ok None
      /\ turn Scanner.DiesBeforeSave None ≫= turn Scanner.Survives = Ok Examples.monthly1
      /\ exists uploads totals',
           Db.fetchUploadsAfter Examples.db 0 10000 = Ok uploads
           /\ CountDagSizeMonthly.add_months Examples.db Examples.denylist
                (CountDagSizeMonthly.months (CountDagSizeMonthly.group uploads)) ∅
              = Ok totals'
           /\ CountDagSizeMonthly.load_or_init Examples.monthly1
              = Ok (CountDagSizeMonthly.mkState (0 + 10000) totals')).
Proof.
  split.
  - refine (proj1 C4_replayed_page_is_counted_once 10000 Examples.db Examples.denylist
              ∅ Examples.checkpoint1 (CountDagSize.mkState 0 0 0) _ _).
    + reflexivity.
    + vm_compute. reflexivity.
  - refine (proj2 C4_replayed_page_is_counted_once 10000 Examples.db Examples.denylist
              None Examples.monthly1 (CountDagSizeMonthly.mkState 0 ∅) _ _).
    + reflexivity.
    + vm_compute. reflexivity.
Defined.

Lemma count_dag_size_failed_page
    (P : Z) (db : Db.t) (denylist : gset string) (fuel : nat) (d : Fs.t) (err : Error) :
  let run := CountDagSize.main P db denylist fuel d in
  Scanner.outcome run = Scanner.Failed err ->
  Scanner.queried run <> [] ->
  exists st,
    CountDagSize.loadState (Scanner.disk run) = Ok st
    /\ last (Scanner.queried run) = Some (CountDagSize.currentID st)
    /\ Scanner.page (CountDagSize.batch P db denylist) CountDagSize.saveState
         st (Scanner.disk run) = Throw err
    /\ forall fuel',
         head (Scanner.queried
                 (CountDagSize.main P db denylist (S fuel') (Scanner.disk run)))
         = Some (CountDagSize.currentID st).
Proof.
  unfold CountDagSize.main.
  destruct (CountDagSize.loadState d) as [state|] eqn:Hload; [|done].
  destruct (Db.fetchUploadIdRange db) as [range|] eqn:Hrange; [|done].
  intros Hout _.
  destruct (scan_failed CountDagSize.currentID (CountDagSize.batch P db denylist)
              CountDagSize.saveState CountDagSize.loadState saveState_loadState
              fuel range.2 state d [] err Hload Hout)
    as (st & Hst & Hlast & Hlt & Hpage).
  exists st. repeat split; try done.
  intros fuel'. rewrite Hst. by apply scan_first_query.
Qed.

Lemma count_dag_size_monthly_failed_page
    (P : Z) (db : Db.t) (denylist : gset string) (fuel : nat)
    (m : option CountDagSizeMonthly.State) (err : Error) :
  let run := CountDagSizeMonthly.main P db denylist fuel m in
  Scanner.outcome run = Scanner.Failed err ->
  Scanner.queried run <> [] ->
  exists st,
    CountDagSizeMonthly.load_or_init (Scanner.disk run) = Ok st
    /\ last (Scanner.queried run) = Some (CountDagSizeMonthly.currentID st)
    /\ Scanner.page (CountDagSizeMonthly.batch P db denylist) CountDagSizeMonthly.store
         st (Scanner.disk run) = Throw err
    /\ forall fuel',
         head (Scanner.queried
                 (CountDagSizeMonthly.main P db denylist (S fuel') (Scanner.disk run)))
         = Some (CountDagSizeMonthly.currentID st).
Proof.
  unfold CountDagSizeMonthly.main.
  destruct (CountDagSizeMonthly.load_or_init m) as [state|] eqn:Hload; [|done].
  destruct (Db.fetchUploadIdRange db) as [range|] eqn:Hrange; [|done].
  intros Hout _.
  destruct (scan_failed CountDagSizeMonthly.currentID
              (CountDagSizeMonthly.batch P db denylist)
              CountDagSizeMonthly.store CountDagSizeMonthly.load_or_init
              monthly_store_load fuel range.2 state m [] err Hload Hout)
    as (st & Hst & Hlast & Hlt & Hpage).
  exists st. repeat split; try done.
  intros fuel'. rewrite Hst. by apply scan_first_query.
Qed.

(** C7. A page whose batch handler throws ends the loop with the state
    file as it was before that page.  So after a run of
    [count-dag-size.mjs] or of [count-dag-size-monthly.mjs] that failed
    in a page, the state file holds the state that page was started
    from, which is the one saved after the page before (or the one the
    run began with): its cursor is the cursor of the failed page, the
    page fails from it again, and a run started afterwards begins by
    fetching that very page. *)
Theorem C7_failed_page_keeps_checkpoint :
  (forall {S D : Type} (currentID : S -> Z) (batch : S -> Result S)
          (save : S -> D -> Result D) (fuel : nat) (max : Z) (state : S) (d : D)
          (queried : list Z) (err : Error),
     currentID state < max ->
     batch state = Throw err ->
     Scanner.scan currentID batch save (Datatypes.S fuel) max state d queried
     = Scanner.mkRun d (queried ++ [currentID state]) (Scanner.Failed err))
  /\ (forall (P : Z) (db : Db.t) (denylist : gset string) (fuel : nat) (d : Fs.t)
             (err : Error),
        let run := CountDagSize.main P db denylist fuel d in
        Scanner.outcome run = Scanner.Failed err ->
        Scanner.queried run <> [] ->
        exists st,
          CountDagSize.loadState (Scanner.disk run) = Ok st
          /\ last (Scanner.queried run) = Some (CountDagSize.currentID st)
          /\ Scanner.page (CountDagSize.batch P db denylist) CountDagSize.saveState
               st (Scanner.disk run) = Throw err
          /\ forall fuel',
               head (Scanner.queried
                       (CountDagSize.main P db denylist (Datatypes.S fuel') (Scanner.disk run)))
               = Some (CountDagSize.currentID st))
  /\ (forall (P : Z) (db : Db.t) (denylist : gset string) (fuel : nat)
             (m : option CountDagSizeMonthly.State) (err : Error),
        let run := CountDagSizeMonthly.main P db denylist fuel m in
        Scanner.outcome run = Scanner.Failed err ->
        Scanner.queried run <> [] ->
        exists st,
          CountDagSizeMonthly.load_or_init (Scanner.disk run) = Ok st
          /\ last (Scanner.queried run) = Some (CountDagSizeMonthly.currentID st)
          /\ Scanner.page (CountDagSizeMonthly.batch P db denylist)
               CountDagSizeMonthly.store st (Scanner.disk run) = Throw err
          /\ forall fuel',
               head (Scanner.queried
                       (CountDagSizeMonthly.main P db denylist (Datatypes.S fuel')
                          (Scanner.disk run)))
               = Some (CountDagSizeMonthly.currentID st)).
Proof.
  split; [|split].
  - intros S D currentID batch save fuel max state d queried err Hlt Hbatch.
    apply scan_failing_page; [done|]. unfold Scanner.page. by rewrite Hbatch.
  - exact count_dag_size_failed_page.
  - exact count_dag_size_monthly_failed_page.
Qed.

Lemma C7_failed_page_keeps_checkpoint_witness :
  (let run := CountDagSize.main 10000 Examples.db_missing ∅ 5 ∅ in
   Scanner.queried run = [0; 10000]
   /\ exists st,
        CountDagSize.loadState (Scanner.disk run) = Ok st
        /\ last (Scanner.queried run) = Some (CountDagSize.currentID st)
        /\ Scanner.page (CountDagSize.batch 10000 Examples.db_missing ∅)
             CountDagSize.saveState st (Scanner.disk run)
           = Throw (JsError "TypeError: Cannot convert null to a BigInt")
        /\ forall fuel',
             head (Scanner.queried
                     (CountDagSize.main 10000 Examples.db_missing ∅ (S fuel')
                        (Scanner.disk run)))
             = Some (CountDagSize.currentID st))
  /\ (let run := CountDagSizeMonthly.main 10000 Examples.db_down ∅ 5 None in
      Scanner.queried run = [0; 10000]
      /\ exists st,
           CountDagSizeMonthly.load_or_init (Scanner.disk run) = Ok st
           /\ last (Scanner.queried run) = Some (CountDagSizeMonthly.currentID st)
           /\ Scanner.page (CountDagSizeMonthly.batch 10000 Examples.db_down ∅)
                CountDagSizeMonthly.store st (Scanner.disk run)
              = Throw (SysError "ECONNRESET")
           /\ forall fuel',
                head (Scanner.queried
                        (CountDagSizeMonthly.main 10000 Examples.db_down ∅ (S fuel')
                           (Scanner.disk run)))
                = Some (CountDagSizeMonthly.currentID st)).
Proof.
  split.
  - split; [vm_compute; reflexivity|].
    refine (proj1 (proj2 C7_failed_page_keeps_checkpoint) 10000 Examples.db_missing ∅
              5%nat ∅ (JsError "TypeError: Cannot convert null to a BigInt") _ _).
    + vm_compute. reflexivity.
    + vm_compute. discriminate.
  - split; [vm_compute; reflexivity|].
    refine (proj2 (proj2 C7_failed_page_keeps_checkpoint) 10000 Examples.db_down ∅
              5%nat None (SysError "ECONNRESET") _ _).
    + vm_compute. reflexivity.
    + vm_compute. discriminate.
Defined.

(** ** Pages overlap *)

Global Instance id_le_total : Total Db.id_le.
Proof. intros a b. unfold Db.id_le. lia. Qed.

Global Instance id_le_trans : Transitive Db.id_le.
Proof. intros a b c. unfold Db.id_le. lia. Qed.

Lemma StronglySorted_filter {A} (R : relation A) (q : A -> Prop)
    `{!forall x, Decision (q x)} (l : list A) :
  StronglySorted R l -> StronglySorted R (filter q l).
Proof.
  induction 1 as [|x l Hl IH Hx]; [constructor|].
  rewrite filter_cons. case_decide; [|done].
  constructor; [done|]. apply Forall_forall. intros y [_ Hy]%list_elem_of_filter.
  rewrite Forall_forall in Hx. by apply Hx.
Qed.

Lemma elem_of_take_S {A} (l : list A) (n : nat) (x : A) :
  x ∈ take n l -> x ∈ take (S n) l.
Proof.
  revert n. induction l as [|a l IH]; intros n Hx; [by destruct n|].
  destruct n as [|n]; [by apply elem_of_nil in Hx|].
  cbn [take] in *. apply elem_of_cons in Hx as [->|Hx]; [left|].
  right. by apply IH.
Qed.

Lemma elem_of_take_filter {A} (q : A -> Prop) `{!forall x, Decision (q x)}
    (l : list A) (n : nat) (x : A) :
  x ∈ take n l -> q x -> x ∈ take n (filter q l).
Proof.
  revert n. induction l as [|a l IH]; intros n Hx Hq; [by destruct n|].
  destruct n as [|n]; [by apply elem_of_nil in Hx|].
  cbn [take] in Hx. rewrite filter_cons.
  apply elem_of_cons in Hx as [->|Hx].
  - rewrite decide_True by done. left.
  - case_decide.
    + cbn [take]. right. by apply IH.
    + by apply elem_of_take_S, IH.
Qed.

Section Overlap.
Variable upload : list Db.Upload.
Hypothesis unique_ids :
  forall x y, x ∈ upload -> y ∈ upload -> Db.id x = Db.id y -> x = y.

Lemma sorted_from_later c c' :
  c <= c' ->
  merge_sort Db.id_le (filter (fun r => c' <= Db.id r) upload)
  = filter (fun r => c' <= Db.id r)
      (merge_sort Db.id_le (filter (fun r => c <= Db.id r) upload)).
Proof.
  intros Hc. apply (StronglySorted_unique_strong Db.id_le).
  - intros x y Hx Hy Hxy Hyx. apply unique_ids.
    + rewrite merge_sort_Permutation in Hx. by apply list_elem_of_filter in Hx as [_ ?].
    + apply list_elem_of_filter in Hy as [_ Hy].
      rewrite merge_sort_Permutation in Hy. by apply list_elem_of_filter in Hy as [_ ?].
    + unfold Db.id_le in *. lia.
  - apply StronglySorted_merge_sort; apply _.
  - apply StronglySorted_filter, StronglySorted_merge_sort; apply _.
  - rewrite !merge_sort_Permutation, list_filter_filter.
    apply Permutation_refl'. apply list_filter_iff. intros r. lia.
Qed.

(** An upload a page holds although its id is a page size or more
    behind the cursor is in the next page again. *)
Lemma page_overlap c P r :
  0 < P ->
  r ∈ Db.select_uploads_after upload c P ->
  c + P <= Db.id r ->
  r ∈ Db.select_uploads_after upload (c + P) P.
Proof.
  intros HP Hr Hid. unfold Db.select_uploads_after in *.
  rewrite (sorted_from_later c (c + P)) by lia.
  by apply (elem_of_take_filter (fun r => c + P <= Db.id r)).
Qed.
End Overlap.

(** C10. A page is the first [P] rows from the cursor on, wherever
    their ids lie, and the cursor moves on by [P]: so a row a page
    holds with an id of [cursor + P] or more is in the next page again
    (ids being unique).  With two uploads more than a page apart the
    second one is fetched at cursor [0] and at cursor [10000]: the
    count [count-dag-size.mjs] saves is 3 for 2 uploads, and
    [denylist-cars.mjs] emits the upload twice. *)
Theorem C10_record_in_two_pages :
  (forall (upload : list Db.Upload) (cursor P : Z) (r : Db.Upload),
     (forall x y, x ∈ upload -> y ∈ upload -> Db.id x = Db.id y -> x = y) ->
     0 < P ->
     r ∈ Db.select_uploads_after upload cursor P ->
     cursor + P <= Db.id r ->
     r ∈ Db.select_uploads_after upload (cursor + P) P)
  /\ (exists (upload : list Db.Upload) (dags : list (string * Z)) (r : Db.Upload),
        let db := Db.of_tables upload dags in
        let run := CountDagSize.main CountDagSize.PAGE_SIZE db ∅ 5 ∅ in
        let emitted := DenylistCars.main DenylistCars.PAGE_SIZE db Examples.no_keys
                         (Denylist.readDenyList [Denylist.anchor (Db.source_cid r)]) 5 5 ∅ in
        NoDup (Db.id <$> upload)
        /\ r ∈ upload
        /\ (length (filter (fun u => (0 <= Db.id u < 0 + CountDagSize.PAGE_SIZE)%Z) upload)
             < Z.to_nat CountDagSize.PAGE_SIZE)%nat
        /\ Scanner.queried run = [0; 0 + CountDagSize.PAGE_SIZE]
        /\ r ∈ Db.select_uploads_after upload 0 CountDagSize.PAGE_SIZE
        /\ r ∈ Db.select_uploads_after upload (0 + CountDagSize.PAGE_SIZE)
                 CountDagSize.PAGE_SIZE
        /\ (exists st,
              Scanner.outcome run = Scanner.Finished st
              /\ CountDagSize.loadState (Scanner.disk run) = Ok st
              /\ CountDagSize.count st = Z.of_nat (length upload) + 1)
        /\ DenylistCars.upload <$> DenylistCars.enqueued emitted.1 = [Db.id r; Db.id r]).
Proof.
  split.
  - intros upload cursor P r Hids HP Hr Hid. by apply page_overlap.
  - exists Examples.uploads, Examples.dags, (Examples.upload_at 15000 "b" 2023 4).
    cbv zeta. split; [|split; [|split; [|split; [|split; [|split; [|split]]]]]].
    + cbn. apply NoDup_cons. split; [|apply NoDup_singleton].
      rewrite list_elem_of_singleton. done.
    + left.
    + vm_compute. lia.
    + vm_compute. reflexivity.
    + vm_compute. right. left.
    + vm_compute. left.
    + exists (CountDagSize.mkState 20000 50 3). vm_compute. auto.
    + vm_compute. reflexivity.
Qed.

Lemma C10_record_in_two_pages_witness :
  Examples.upload_at 15000 "b" 2023 4 ∈ Db.select_uploads_after Examples.uploads (0 + 10000) 10000.
Proof.
  refine (proj1 C10_record_in_two_pages Examples.uploads 0 10000
            (Examples.upload_at 15000 "b" 2023 4) _ _ _ _).
  - intros x y Hx Hy. unfold Examples.uploads in *.
    rewrite !elem_of_cons, !elem_of_nil in Hx, Hy.
    destruct Hx as [->|[->|[]]], Hy as [->|[->|[]]]; cbn; intros; done || lia.
  - lia.
  - vm_compute. right. left.
  - cbn. lia.
Defined.

(** ** The denylist *)

Lemma isDenyListed_spec (denylist : gset string) (cid : string) :
  Denylist.isDenyListed denylist cid = true <-> Denylist.anchor cid ∈ denylist.
Proof.
  unfold Denylist.isDenyListed, Denylist.anchor. cbv zeta.
  by rewrite bool_decide_eq_true.
Qed.

(** ** export-cars.mjs: verification *)

Section VerifyFacts.
Import ExportCars.
Context {Indexer : Type}.
Variable new_indexer : Indexer.
Variable decodeAndIndex : Indexer -> Block -> Result Indexer.
Variable report : Indexer -> Result Structure.

Local Abbreviation index_blocks := (ExportCars.index_blocks decodeAndIndex).
Local Abbreviation indexing := (ExportCars.indexing new_indexer decodeAndIndex).
Local Abbreviation verifyDAG := (ExportCars.verifyDAG new_indexer decodeAndIndex report).

(** When the sink has taken every block, every block was indexed. *)
Lemma index_blocks_ok bs : forall indexer events events' indexer',
  index_blocks indexer bs events = (events', Ok indexer') ->
  events' = events ++ (Indexed <$> bs).
Proof.
  induction bs as [|b bs IH]; intros indexer events events' indexer'; cbn.
  - intros [= <- <-]. by rewrite app_nil_r.
  - destruct (decodeAndIndex indexer b) as [indexer1|]; [|done].
    intros ->%IH. by rewrite <- app_assoc.
Qed.

Lemma index_blocks_no_report bs : forall indexer events,
  Reported ∉ events -> Reported ∉ (index_blocks indexer bs events).1.
Proof.
  induction bs as [|b bs IH]; intros indexer events Hev; cbn; [done|].
  destruct (decodeAndIndex indexer b) as [indexer1|]; cbn.
  - apply IH. rewrite elem_of_app, list_elem_of_singleton. by intros [|].
  - rewrite elem_of_app, list_elem_of_singleton. by intros [|].
Qed.

Lemma verifyDAG_accepts root path files :
  (verifyDAG root path files).2 = Ok () ->
  exists car indexer,
    files !! path = Some car
    /\ index_blocks new_indexer (blocks car) [] = (Indexed <$> blocks car, Ok indexer)
    /\ head (roots car) = Some root
    /\ report indexer = Ok Complete
    /\ (verifyDAG root path files).1 = (Indexed <$> blocks car) ++ [GotHeader; Reported].
Proof.
  unfold ExportCars.verifyDAG, ExportCars.indexing.
  destruct (files !! path) as [car|]; [|done].
  destruct (index_blocks new_indexer (blocks car) []) as [events [indexer|]] eqn:Hix;
    [|done].
  pose proof (index_blocks_ok _ _ _ _ _ Hix) as ->. cbn [app].
  case_bool_decide as Hroot; [done|].
  destruct (report indexer) as [structure|] eqn:Hreport; cbn; [|done].
  case_bool_decide as Hs; cbn; [done|]. subst structure.
  intros _. exists car, indexer. rewrite <- app_assoc. done.
Qed.

Lemma verifyDAG_root_mismatch root path files car indexer :
  files !! path = Some car ->
  index_blocks new_indexer (blocks car) [] = (Indexed <$> blocks car, Ok indexer) ->
  head (roots car) <> Some root ->
  let msg := ("root CID mismatch " +:+ show_root (head (roots car)) +:+ " != " +:+ root)%string in
  verifyDAG root path files
  = ((Indexed <$> blocks car) ++ [GotHeader],
     Throw (Caused ("failed indexing: " +:+ msg) (JsError msg)))
  /\ Reported ∉ (verifyDAG root path files).1.
Proof.
  intros Hcar Hix Hroot msg.
  assert (verifyDAG root path files
          = ((Indexed <$> blocks car) ++ [GotHeader],
             Throw (Caused ("failed indexing: " +:+ msg) (JsError msg)))) as Heq.
  { unfold ExportCars.verifyDAG, ExportCars.indexing. rewrite Hcar, Hix.
    by rewrite bool_decide_eq_true_2. }
  split; [done|]. rewrite Heq. cbn.
  rewrite elem_of_app, list_elem_of_singleton, list_elem_of_fmap.
  intros [(b & ? & _)|?]; done.
Qed.

Lemma verifyDAG_not_complete root path files car indexer structure :
  files !! path = Some car ->
  index_blocks new_indexer (blocks car) [] = (Indexed <$> blocks car, Ok indexer) ->
  head (roots car) = Some root ->
  report indexer = Ok structure ->
  structure <> Complete ->
  let msg := ("non-complete DAG: " +:+ Structure_name structure)%string in
  (verifyDAG root path files).2
  = Throw (Caused ("failed verification: " +:+ msg) (JsError msg)).
Proof.
  intros Hcar Hix Hroot Hreport Hs msg.
  unfold ExportCars.verifyDAG, ExportCars.indexing. rewrite Hcar, Hix.
  rewrite bool_decide_eq_false_2 by (by intros []).
  rewrite Hreport. cbn. by rewrite bool_decide_eq_true_2.
Qed.
End VerifyFacts.

(** C2. [verifyDAG] returns normally only for a file whose blocks were
    all indexed, whose first declared root prints as the expected root
    and whose report is [Complete].  When the blocks are indexed and
    the declared root is another one (or there is none), it throws
    [failed indexing: root CID mismatch ...] without having asked for
    the report; when the root is right and the report is [Partial] or
    [Unknown], it throws [failed verification: non-complete DAG: ...]. *)
Theorem C2_verifyDAG_accepts_only_complete_root :
  forall {Indexer : Type} (new_indexer : Indexer)
         (decodeAndIndex : Indexer -> ExportCars.Block -> Result Indexer)
         (report : Indexer -> Result ExportCars.Structure)
         (root : ExportCars.CID) (path : string) (files : gmap string ExportCars.Car),
    let verified := ExportCars.verifyDAG new_indexer decodeAndIndex report root path files in
    let indexed_all car indexer :=
      ExportCars.index_blocks decodeAndIndex new_indexer (ExportCars.blocks car) []
      = (ExportCars.Indexed <$> ExportCars.blocks car, Ok indexer) in
    (verified.2 = Ok () ->
     exists car indexer,
       files !! path = Some car
       /\ indexed_all car indexer
       /\ head (ExportCars.roots car) = Some root
       /\ report indexer = Ok ExportCars.Complete
       /\ verified.1 = (ExportCars.Indexed <$> ExportCars.blocks car)
                        ++ [ExportCars.GotHeader; ExportCars.Reported])
    /\ (forall car indexer,
          files !! path = Some car ->
          indexed_all car indexer ->
          head (ExportCars.roots car) <> Some root ->
          let msg := ("root CID mismatch " +:+ ExportCars.show_root (head (ExportCars.roots car))
                      +:+ " != " +:+ root)%string in
          verified = ((ExportCars.Indexed <$> ExportCars.blocks car) ++ [ExportCars.GotHeader],
                      Throw (Caused ("failed indexing: " +:+ msg) (JsError msg)))
          /\ ExportCars.Reported ∉ verified.1)
    /\ (forall car indexer structure,
          files !! path = Some car ->
          indexed_all car indexer ->
          head (ExportCars.roots car) = Some root ->
          report indexer = Ok structure ->
          structure <> ExportCars.Complete ->
          let msg := ("non-complete DAG: " +:+ ExportCars.Structure_name structure)%string in
          verified.2 = Throw (Caused ("failed verification: " +:+ msg) (JsError msg))).
Proof.
  intros Indexer new_indexer decodeAndIndex report root path files verified indexed_all.
  split; [|split].
  - apply verifyDAG_accepts.
  - intros car indexer. apply verifyDAG_root_mismatch.
  - intros car indexer structure. apply verifyDAG_not_complete.
Qed.

Lemma C2_verifyDAG_accepts_only_complete_root_witness :
  (let files : gmap string ExportCars.Car :=
     {[ "a.car"%string := ExportCars.mkCar ["bafyother"%string]
                            [Examples.block1; Examples.block2] ]} in
   ExportCars.verifyDAG [] Examples.decodeAndIndex Examples.report "bafyroot" "a.car" files
   = ([ExportCars.Indexed Examples.block1; ExportCars.Indexed Examples.block2;
       ExportCars.GotHeader],
      Throw (Caused "failed indexing: root CID mismatch bafyother != bafyroot"
               (JsError "root CID mismatch bafyother != bafyroot"))))
  /\ (let files : gmap string ExportCars.Car :=
        {[ "a.car"%string := ExportCars.mkCar ["bafyroot"%string] [Examples.block1] ]} in
      (ExportCars.verifyDAG [] Examples.decodeAndIndex Examples.report "bafyroot" "a.car" files).2
      = Throw (Caused "failed verification: non-complete DAG: Partial"
                 (JsError "non-complete DAG: Partial"))).
Proof.
  split.
  - refine (proj1 (proj1 (proj2 (C2_verifyDAG_accepts_only_complete_root
              [] Examples.decodeAndIndex Examples.report "bafyroot" "a.car"
              {[ "a.car"%string := ExportCars.mkCar ["bafyother"%string]
                                     [Examples.block1; Examples.block2] ]}))
              (ExportCars.mkCar ["bafyother"%string] [Examples.block1; Examples.block2])
              [Examples.block1; Examples.block2] _ _ _)).
    + reflexivity.
    + reflexivity.
    + discriminate.
  - refine (proj2 (proj2 (C2_verifyDAG_accepts_only_complete_root
              [] Examples.decodeAndIndex Examples.report "bafyroot" "a.car"
              {[ "a.car"%string := ExportCars.mkCar ["bafyroot"%string] [Examples.block1] ]}))
              (ExportCars.mkCar ["bafyroot"%string] [Examples.block1])
              [Examples.block1] ExportCars.Partial _ _ _ _ _).
    + reflexivity.
    + reflexivity.
    + reflexivity.
    + reflexivity.
    + discriminate.
Defined.

(** ** export-cars.mjs: the export session *)

Section ExportFacts.
Import ExportCars.

Lemma open_session_watched : watched open_session.
Proof. right. exists TIMEOUT. cbn. unfold TIMEOUT. split; [done|lia]. Qed.

Lemma elapse_spec dt s :
  watched s ->
  watched (elapse dt s)
  /\ waits (elapse dt s) = waits s
  /\ interval (elapse dt s) = interval s
  /\ libp2p (elapse dt s) = libp2p s.
Proof.
  intros Hw. unfold elapse.
  destruct (timer s) as [deadline|] eqn:Htimer.
  - case_bool_decide as Hfired; cbn; (split; [|done]).
    + by left.
    + destruct Hw as [Hab|(D & HD & Hbound)]; [by left|].
      right. exists deadline. cbn. rewrite Htimer in HD. injection HD as ->.
      split; [done|lia].
  - cbn. split; [|done]. destruct Hw as [Hab|(D & HD & _)]; [by left|].
    by rewrite Htimer in HD.
Qed.

(** Under the timer every [iterator.next()] settles, within the window;
    when the signal is aborted it settles with the abort. *)
Lemma await_next_spec next s :
  watched s ->
  exists s' a wait,
    await_next next s = Some (s', a)
    /\ waits s' = waits s ++ [wait] /\ 0 <= wait <= TIMEOUT
    /\ interval s' = interval s /\ libp2p s' = libp2p s
    /\ (aborted s' = true -> a = Reject AbortError)
    /\ (a = Reject AbortError \/ exists delay, next = Some (delay, a)).
Proof.
  intros Hw. unfold await_next.
  destruct (aborted s) eqn:Hab.
  { eexists _, _, _. split; [done|]. cbn. split; [done|].
    rewrite Z.sub_diag. unfold TIMEOUT. repeat split; auto; lia. }
  destruct Hw as [Hw|(D & HD & Hbound)]; [congruence|]. rewrite HD.
  destruct next as [[delay a]|].
  - case_bool_decide as Hfired.
    + eexists _, _, _. split; [done|]. cbn. split; [done|].
      repeat split; auto; lia.
    + eexists _, _, _. split; [done|]. cbn. split; [done|].
      repeat split; eauto; lia.
  - eexists _, _, _. split; [done|]. cbn. split; [done|].
    repeat split; auto; lia.
Qed.

(** However many blocks there are, the reads end: no read hangs, each
    is awaited for the window at most, and the session is left with
    the timer and the reporter cleared. *)
Lemma pulls_spec arrivals : forall demands s out,
  watched s -> Forall in_window (waits s) ->
  exists s' out' exit,
    pulls arrivals demands s out = (s', out', exit)
    /\ exit <> ExitHung
    /\ Forall in_window (waits s')
    /\ timer s' = None /\ interval s' = false /\ libp2p s' = libp2p s
    /\ (aborted s' = true -> exit = ExitErrored AbortError \/ exit = ExitCancelled).
Proof.
  induction arrivals as [|[delay0 a0] arrivals IH]; intros demands s out Hw Hwaits.
  - destruct demands as [|[busy|] demands]; cbn [pulls head tail].
    + destruct (elapse_spec O s Hw) as (Hw1 & Hwaits1 & Hint1 & Hp2p1).
      destruct (await_next_spec None _ Hw1)
        as (s2 & a & wait & -> & Hwaits2 & Hwait & Hint2 & Hp2p2 & Hab & Ha).
      destruct Ha as [->|(? & ?)]; [|done].
      eexists _, _, _. split; [done|]. cbn. rewrite Hwaits2, Hwaits1, Hp2p2, Hp2p1.
      repeat split; auto. apply Forall_app. split; [done|]. by constructor.
    + destruct (elapse_spec busy s Hw) as (Hw1 & Hwaits1 & Hint1 & Hp2p1).
      destruct (await_next_spec None _ Hw1)
        as (s2 & a & wait & -> & Hwaits2 & Hwait & Hint2 & Hp2p2 & Hab & Ha).
      destruct Ha as [->|(? & ?)]; [|done].
      eexists _, _, _. split; [done|]. cbn. rewrite Hwaits2, Hwaits1, Hp2p2, Hp2p1.
      repeat split; auto. apply Forall_app. split; [done|]. by constructor.
    + eexists _, _, _. split; [done|]. cbn. repeat split; auto.
  - assert (forall busy demands',
              exists s' out' exit,
                match await_next (Some (delay0, a0)) (elapse busy s) with
                | None => (elapse busy s, out, ExitHung)
                | Some (s0, Reject err) => (clearInterval (timeout_clear s0), out, ExitErrored err)
                | Some (s0, Done) =>
                    (clearInterval (timeout_clear (timeout_reset s0)), out, ExitClosed)
                | Some (s0, Value value) =>
                    pulls arrivals demands'
                      {| now := now (timeout_reset s0); timer := timer (timeout_reset s0);
                         aborted := aborted (timeout_reset s0);
                         interval := interval (timeout_reset s0);
                         libp2p := libp2p (timeout_reset s0);
                         totalBytes := totalBytes (timeout_reset s0)
                                       + Z.of_nat (length (bytes value));
                         waits := waits (timeout_reset s0) |}
                      (out ++ [value])
                end = (s', out', exit)
                /\ exit <> ExitHung
                /\ Forall in_window (waits s')
                /\ timer s' = None /\ interval s' = false /\ libp2p s' = libp2p s
                /\ (aborted s' = true -> exit = ExitErrored AbortError \/ exit = ExitCancelled))
      as Hstep.
    { intros busy demands'.
      destruct (elapse_spec busy s Hw) as (Hw1 & Hwaits1 & Hint1 & Hp2p1).
      destruct (await_next_spec (Some (delay0, a0)) _ Hw1)
        as (s2 & a & wait & -> & Hwaits2 & Hwait & Hint2 & Hp2p2 & Hab & Ha).
      assert (Forall in_window (waits s2)) as Hwaits'.
      { rewrite Hwaits2, Hwaits1. apply Forall_app. split; [done|]. by constructor. }
      destruct a as [value| |err].
      - destruct (IH demands'
                    {| now := now (timeout_reset s2); timer := timer (timeout_reset s2);
                       aborted := aborted (timeout_reset s2);
                       interval := interval (timeout_reset s2);
                       libp2p := libp2p (timeout_reset s2);
                       totalBytes := totalBytes (timeout_reset s2)
                                     + Z.of_nat (length (bytes value));
                       waits := waits (timeout_reset s2) |}
                    (out ++ [value]))
          as (s' & out' & exit & Hrun & Hexit & Hw' & Ht & Hi & Hp & Hab').
        + right. eexists. cbn. split; [done|]. unfold TIMEOUT. lia.
        + done.
        + exists s', out', exit. cbn in Hp. rewrite Hp, Hp2p2, Hp2p1. done.
      - eexists _, _, _. split; [done|]. cbn. rewrite Hp2p2, Hp2p1.
        repeat split; auto. intros Hab'. by specialize (Hab Hab').
      - eexists _, _, _. split; [done|]. cbn. rewrite Hp2p2, Hp2p1.
        repeat split; auto. intros Hab'. left. f_equal.
        specialize (Hab Hab'). by injection Hab. }
    destruct demands as [|[busy|] demands]; cbn [pulls head tail].
    + apply (Hstep O []).
    + apply (Hstep busy demands).
    + eexists _, _, _. split; [done|]. cbn. repeat split; auto.
Qed.
End ExportFacts.

Section ExportSessions.
Import ExportCars.

Lemma exportDAG_spec t demands :
  exists s out exit,
    exportDAG t demands = (s, out, exit)
    /\ exit <> ExitHung
    /\ Forall in_window (waits s)
    /\ libp2p s = true
    /\ (dial t = Ok () ->
        timer s = None /\ interval s = false
        /\ (aborted s = true -> exit = ExitErrored AbortError \/ exit = ExitCancelled)).
Proof.
  unfold exportDAG.
  set (s0 := {| now := now open_session; timer := timer open_session;
                aborted := aborted open_session; interval := interval open_session;
                libp2p := true; totalBytes := totalBytes open_session;
                waits := waits open_session |}).
  assert (watched s0) as Hw0.
  { right. exists TIMEOUT. cbn. unfold TIMEOUT. split; [done|lia]. }
  destruct (elapse_spec (dial_delay t) s0 Hw0) as (Hw1 & Hwaits1 & Hint1 & Hp2p1).
  destruct (dial t) as [[]|err] eqn:Hdial.
  - destruct (pulls_spec (arrivals t) demands (elapse (dial_delay t) s0) [] Hw1)
      as (s & out & exit & Hrun & Hexit & Hwaits & Htimer & Hint & Hp2p & Hab).
    { rewrite Hwaits1. constructor. }
    exists s, out, exit. rewrite Hp2p, Hp2p1. done.
  - eexists _, _, _. split; [done|]. rewrite Hwaits1, Hp2p1.
    repeat split; done.
Qed.

(** A reader that only pulls never sees the stream cancelled. *)
Lemma pulls_not_cancelled arrivals : forall s out,
  (pulls arrivals [] s out).2 <> ExitCancelled.
Proof.
  induction arrivals as [|[delay a] arrivals IH]; intros s out; cbn [pulls head tail].
  - destruct (await_next None (elapse 0 s)) as [[s' []]|]; done.
  - destruct (await_next (Some (delay, a)) (elapse 0 s)) as [[s' []]|];
      first [apply IH | done].
Qed.

(** So an export piped into the file ends closed or with an error. *)
Lemma export_to_file_ends t :
  exists s out,
    exportDAG t [] = (s, out, ExitClosed)
    \/ exists err, exportDAG t [] = (s, out, ExitErrored err).
Proof.
  destruct (exportDAG_spec t []) as (s & out & exit & Hrun & Hexit & _).
  exists s, out. rewrite Hrun. destruct exit; eauto; [|done].
  exfalso. unfold exportDAG in Hrun. destruct (dial t); [|done].
  pose proof (pulls_not_cancelled (arrivals t)
                (elapse (dial_delay t)
                   {| now := now open_session; timer := timer open_session;
                      aborted := aborted open_session; interval := interval open_session;
                      libp2p := true; totalBytes := totalBytes open_session;
                      waits := waits open_session |}) []) as Hnc.
  by rewrite Hrun in Hnc.
Qed.

(** A block that arrives before the timer fires is enqueued, and the
    timer is set again for its full time from that moment. *)
Lemma pull_block s delay b rest out deadline :
  aborted s = false -> timer s = Some deadline ->
  now s + Z.of_nat delay <= deadline ->
  pulls ((delay, Value b) :: rest) [] s out
  = pulls rest []
      {| now := now s + Z.of_nat delay;
         timer := Some (now s + Z.of_nat delay + TIMEOUT);
         aborted := false; interval := interval s; libp2p := libp2p s;
         totalBytes := totalBytes s + Z.of_nat (length (bytes b));
         waits := waits s ++ [Z.of_nat delay] |}
      (out ++ [b]).
Proof.
  intros Hab Htimer Hle. destruct s as [now0 timer0 ab0 int0 p2p0 total0 waits0].
  cbn in Hab, Htimer, Hle. subst ab0 timer0.
  cbn [pulls head tail]. unfold elapse. cbn [timer now].
  rewrite bool_decide_eq_false_2 by lia.
  unfold await_next. cbn [aborted timer now].
  rewrite bool_decide_eq_false_2 by lia. cbn.
  by rewrite Z.add_0_r, Z.add_simpl_l.
Qed.

(** When the timer fires before [iterator.next()] settles, or the peer
    stays silent, the signal is aborted at the deadline and the read
    fails with the abort; the timer and the reporter are cleared. *)
Lemma pull_stalled s arrivals out deadline :
  aborted s = false -> timer s = Some deadline -> now s <= deadline ->
  match arrivals with
  | (delay, _) :: _ => deadline < now s + Z.of_nat delay
  | [] => True
  end ->
  pulls arrivals [] s out
  = ({| now := deadline; timer := None; aborted := true; interval := false;
        libp2p := libp2p s; totalBytes := totalBytes s;
        waits := waits s ++ [deadline - now s] |},
     out, ExitErrored AbortError).
Proof.
  intros Hab Htimer Hle Hlate. destruct s as [now0 timer0 ab0 int0 p2p0 total0 waits0].
  cbn in Hab, Htimer, Hle, Hlate. subst ab0 timer0.
  destruct arrivals as [|[delay a] rest]; cbn [pulls head tail]; unfold elapse;
    cbn [timer now]; rewrite bool_decide_eq_false_2 by lia;
    unfold await_next; cbn [aborted timer now].
  - cbn. by rewrite Z.add_0_r.
  - rewrite bool_decide_eq_true_2 by lia. cbn. by rewrite Z.add_0_r.
Qed.
End ExportSessions.

(** C6. The timer is set for 5000 ms when [exportDAG] is called and,
    after every block, for 5000 ms again.  A read that the timer
    overtakes, or that would never settle, ends at the deadline: the
    signal is aborted and the stream fails with the abort error.  So
    for every transfer, however many blocks it has, and every reader,
    no read hangs and none is awaited for longer than the window. *)
Theorem C6_stall_timer_bounds_every_wait :
  forall (t : ExportCars.Transfer) (demands : list ExportCars.Demand),
    (ExportCars.TIMEOUT = 5000
     /\ ExportCars.now ExportCars.open_session = 0
     /\ ExportCars.timer ExportCars.open_session = Some ExportCars.TIMEOUT)
    /\ (exists s out exit,
          ExportCars.exportDAG t demands = (s, out, exit)
          /\ exit <> ExportCars.ExitHung
          /\ Forall (fun wait => 0 <= wait <= ExportCars.TIMEOUT) (ExportCars.waits s)
          /\ (ExportCars.dial t = Ok () ->
              ExportCars.aborted s = true ->
              exit = ExportCars.ExitErrored ExportCars.AbortError
              \/ exit = ExportCars.ExitCancelled))
    /\ (forall s delay b rest out deadline,
          ExportCars.aborted s = false ->
          ExportCars.timer s = Some deadline ->
          ExportCars.now s + Z.of_nat delay <= deadline ->
          ExportCars.pulls ((delay, ExportCars.Value b) :: rest) [] s out
          = ExportCars.pulls rest []
              {| ExportCars.now := ExportCars.now s + Z.of_nat delay;
                 ExportCars.timer :=
                   Some (ExportCars.now s + Z.of_nat delay + ExportCars.TIMEOUT);
                 ExportCars.aborted := false;
                 ExportCars.interval := ExportCars.interval s;
                 ExportCars.libp2p := ExportCars.libp2p s;
                 ExportCars.totalBytes :=
                   ExportCars.totalBytes s + Z.of_nat (length (ExportCars.bytes b));
                 ExportCars.waits := ExportCars.waits s ++ [Z.of_nat delay] |}
              (out ++ [b]))
    /\ (forall s arrivals out deadline,
          ExportCars.aborted s = false ->
          ExportCars.timer s = Some deadline ->
          ExportCars.now s <= deadline ->
          match arrivals with
          | (delay, _) :: _ => deadline < ExportCars.now s + Z.of_nat delay
          | [] => True
          end ->
          ExportCars.pulls arrivals [] s out
          = ({| ExportCars.now := deadline; ExportCars.timer := None;
                ExportCars.aborted := true; ExportCars.interval := false;
                ExportCars.libp2p := ExportCars.libp2p s;
                ExportCars.totalBytes := ExportCars.totalBytes s;
                ExportCars.waits := ExportCars.waits s ++ [deadline - ExportCars.now s] |},
             out, ExportCars.ExitErrored ExportCars.AbortError)).
Proof.
  intros t demands. split; [done|]. split; [|split].
  - destruct (exportDAG_spec t demands)
      as (s & out & exit & Hrun & Hexit & Hwaits & _ & Hdial).
    exists s, out, exit. repeat split; try done.
    intros Hd Hab. by apply Hdial.
  - apply pull_block.
  - apply pull_stalled.
Qed.

Lemma C6_stall_timer_bounds_every_wait_witness :
  ExportCars.exportDAG
    (ExportCars.mkTransfer 100 (Ok ())
       [(200%nat, ExportCars.Value Examples.block1);
        (6000%nat, ExportCars.Value Examples.block2)]) []
  = ({| ExportCars.now := 5300; ExportCars.timer := None; ExportCars.aborted := true;
        ExportCars.interval := false; ExportCars.libp2p := true;
        ExportCars.totalBytes := 0; ExportCars.waits := [200; 5000] |},
     [Examples.block1], ExportCars.ExitErrored ExportCars.AbortError).
Proof.
  pose proof (C6_stall_timer_bounds_every_wait
                (ExportCars.mkTransfer 100 (Ok ()) []) []) as (_ & _ & Hblock & Hstall).
  unfold ExportCars.exportDAG. cbn [ExportCars.dial ExportCars.arrivals ExportCars.dial_delay].
  rewrite (Hblock _ 200%nat Examples.block1 _ [] 5000); [|reflexivity|reflexivity|vm_compute; discriminate].
  rewrite (Hstall _ _ _ 5300); [reflexivity|reflexivity|reflexivity|vm_compute; discriminate|vm_compute; reflexivity].
Defined.

(** C9, as stated, fails: after an export that ran to its end the
    libp2p node that [start] created is still held. *)
Lemma C9_connection_counterexample :
  ~ (forall (t : ExportCars.Transfer) (demands : list ExportCars.Demand) s out exit,
       ExportCars.exportDAG t demands = (s, out, exit) ->
       ExportCars.timer s = None /\ ExportCars.interval s = false
       /\ ExportCars.libp2p s = false).
Proof.
  intros H.
  destruct (H (ExportCars.mkTransfer 100 (Ok ())
                 [(200%nat, ExportCars.Value Examples.block1); (10%nat, ExportCars.Done)])
              [] _ _ _ eq_refl) as (_ & _ & Hheld).
  vm_compute in Hheld. discriminate.
Qed.

(** C9, amended. Once the peer is dialled, every way a session ends
    (the graph is exported, a read fails or is cut off by the timer,
    the reader cancels the stream) leaves the stall timer and the
    progress reporter cleared.  The libp2p node is still held: nothing
    in [exportDAG] stops it. *)
Theorem C9_session_clears_timer_and_reporter
    (t : ExportCars.Transfer) (demands : list ExportCars.Demand)
    (s : ExportCars.Session) (out : list ExportCars.Block) (exit : ExportCars.Exit) :
  ExportCars.dial t = Ok () ->
  ExportCars.exportDAG t demands = (s, out, exit) ->
  (exit = ExportCars.ExitClosed \/ (exists err, exit = ExportCars.ExitErrored err)
   \/ exit = ExportCars.ExitCancelled)
  /\ ExportCars.timer s = None
  /\ ExportCars.interval s = false
  /\ ExportCars.libp2p s = true.
Proof.
  intros Hdial Hrun.
  destruct (exportDAG_spec t demands)
    as (s' & out' & exit' & Hrun' & Hexit & _ & Hp2p & Hclear).
  rewrite Hrun in Hrun'. injection Hrun' as <- <- <-.
  destruct (Hclear Hdial) as (Htimer & Hint & _).
  repeat split; try done.
  destruct exit; eauto. done.
Qed.

Lemma C9_session_clears_timer_and_reporter_witness :
  (ExportCars.ExitCancelled = ExportCars.ExitClosed
   \/ (exists err, ExportCars.ExitCancelled = ExportCars.ExitErrored err)
   \/ ExportCars.ExitCancelled = ExportCars.ExitCancelled)
  /\ ExportCars.timer
       {| ExportCars.now := 300; ExportCars.timer := None; ExportCars.aborted := false;
          ExportCars.interval := false; ExportCars.libp2p := true;
          ExportCars.totalBytes := 0; ExportCars.waits := [200] |} = None
  /\ ExportCars.interval
       {| ExportCars.now := 300; ExportCars.timer := None; ExportCars.aborted := false;
          ExportCars.interval := false; ExportCars.libp2p := true;
          ExportCars.totalBytes := 0; ExportCars.waits := [200] |} = false
  /\ ExportCars.libp2p
       {| ExportCars.now := 300; ExportCars.timer := None; ExportCars.aborted := false;
          ExportCars.interval := false; ExportCars.libp2p := true;
          ExportCars.totalBytes := 0; ExportCars.waits := [200] |} = true.
Proof.
  refine (C9_session_clears_timer_and_reporter
            (ExportCars.mkTransfer 100 (Ok ())
               [(200%nat, ExportCars.Value Examples.block1); (10%nat, ExportCars.Done)])
            [ExportCars.Pull 0; ExportCars.Cancel] _ [Examples.block1] _ _ _).
  - reflexivity.
  - vm_compute. reflexivity.
Defined.

(** ** export-cars.mjs: the peers *)

Section ShuffleFacts.
Import ExportCars.
Context {T : Type}.
Variable random : nat -> nat.

(** The shuffle swaps elements: the result has the elements of the
    array, each as often. *)
Lemma shuffle_from_Permutation n : forall call (array : list T),
  (n <= length array)%nat -> shuffle_from random n call array ≡ₚ array.
Proof.
  induction n as [|n IH]; intros call array Hn; cbn [shuffle_from]; [done|].
  assert (random call mod S n < length array)%nat as Hr.
  { pose proof (Nat.mod_upper_bound (random call) (S n)). lia. }
  destruct (lookup_lt_is_Some_2 array _ Hr) as [r Hlr].
  destruct (lookup_lt_is_Some_2 array n ltac:(lia)) as [c Hlc].
  rewrite Hlr, Hlc. rewrite IH by (rewrite !length_insert; lia).
  by apply Permutation_insert_swap.
Qed.

Lemma shuffle_Permutation (array : list T) : shuffle random array ≡ₚ array.
Proof. by apply shuffle_from_Permutation. Qed.
End ShuffleFacts.

Lemma PEERS_NoDup : NoDup ExportCars.PEERS.
Proof.
  unfold ExportCars.PEERS. repeat (apply NoDup_cons; split); try apply NoDup_nil_2;
    rewrite ?elem_of_cons, ?elem_of_nil; intros H; repeat destruct H as [H|H]; done.
Qed.

Section ExtractorFacts.
Import ExportCars.
Context {Indexer : Type}.
Variable new_indexer : Indexer.
Variable decodeAndIndex : Indexer -> Block -> Result Indexer.
Variable report : Indexer -> Result Structure.
Variable Link_parse : string -> Result CID.
Variable network : string -> CID -> Transfer.
Variable random : nat -> nat.

Local Abbreviation attempt := (ExportCars.attempt new_indexer decodeAndIndex report network).
Local Abbreviation succeeds := (ExportCars.succeeds new_indexer decodeAndIndex report network).
Local Abbreviation try_peers :=
  (ExportCars.try_peers new_indexer decodeAndIndex report Link_parse network).

Lemma verifyDAG_insert root path car (fs : gmap string Car) :
  (verifyDAG new_indexer decodeAndIndex report root path (<[path := car]> fs)).2
  = (verifyDAG new_indexer decodeAndIndex report root root (<[root := car]> ∅)).2.
Proof.
  unfold verifyDAG, indexing. by rewrite !lookup_insert_eq.
Qed.

(** Whether an attempt goes through depends on the peer and the root
    alone: the file it reads is the one it has just written. *)
Lemma attempt_succeeds peer root destPath fs :
  is_ok (attempt peer root destPath fs).2 = succeeds peer root.
Proof.
  unfold ExportCars.succeeds, ExportCars.attempt.
  destruct (exportDAG (network peer root) []) as [[s out] exit].
  destruct exit; cbn [snd]; try done.
  by rewrite !verifyDAG_insert.
Qed.

Lemma try_peers_spec peers : forall upload t root,
  Link_parse (Db.content_cid upload) = Ok root ->
  exists t',
    try_peers peers upload t = Ok t'
    /\ ((exists before peer after,
           peers = before ++ peer :: after
           /\ Forall (fun p => succeeds p root = false) before
           /\ succeeds peer root = true
           /\ attempted t' = attempted t ++ before ++ [peer]
           /\ emitted t'
              = Some (mkLocalUpload upload
                        ("./out/contents/" +:+ Db.content_cid upload +:+ ".car")))
        \/ (Forall (fun p => succeeds p root = false) peers
            /\ attempted t' = attempted t ++ peers
            /\ emitted t' = emitted t)).
Proof.
  induction peers as [|peer rest IH]; intros upload t root Hroot.
  - exists t. split; [done|]. right. by rewrite app_nil_r.
  - cbn [ExportCars.try_peers]. rewrite Hroot. cbn.
    pose proof (attempt_succeeds peer root
                  ("./out/contents/" +:+ Db.content_cid upload +:+ ".car") (files t)) as Hok.
    destruct (attempt peer root _ (files t)) as [fs [[]|err]]; cbn in Hok.
    + eexists. split; [done|]. left. exists [], peer, rest. cbn. by repeat split.
    + destruct (IH upload
                  {| attempted := attempted t ++ [peer];
                     logged := logged t ++
                       [("failed to bitswap " +:+ root +:+ " from " +:+ peer +:+ ": "
                         +:+ message_of err)%string];
                     emitted := emitted t; files := fs |} root Hroot)
        as (t' & Hrun & Hcases).
      exists t'. split; [done|]. cbn in Hcases.
      destruct Hcases as [(before & p & after & -> & Hbefore & Hp & Hatt & Hem)
                         |(Hall & Hatt & Hem)].
      * left. exists (peer :: before), p, after. rewrite Hatt, <- app_assoc.
        repeat split; try done. by constructor.
      * right. rewrite Hatt, <- app_assoc. repeat split; try done. by constructor.
Qed.
End ExtractorFacts.

(** C5. [transform] goes through the shuffled peers in their order.  The
    shuffle only permutes the three peers, so none is tried twice.  The
    first peer whose export and verification go through ends the loop
    and the upload is enqueued; a peer that fails, for whatever reason,
    is followed by the next one; when all fail nothing is enqueued and
    [transform] still returns normally. *)
Theorem C5_peers_tried_in_turn_once :
  forall {Indexer : Type} (new_indexer : Indexer)
         (decodeAndIndex : Indexer -> ExportCars.Block -> Result Indexer)
         (report : Indexer -> Result ExportCars.Structure)
         (Link_parse : string -> Result ExportCars.CID)
         (network : string -> ExportCars.CID -> ExportCars.Transfer)
         (random : nat -> nat)
         (upload : Db.Upload) (fs : gmap string ExportCars.Car) (root : ExportCars.CID),
    Link_parse (Db.content_cid upload) = Ok root ->
    let peers := ExportCars.shuffle random ExportCars.PEERS in
    let fails p := ExportCars.succeeds new_indexer decodeAndIndex report network p root = false in
    peers ≡ₚ ExportCars.PEERS
    /\ exists t,
         ExportCars.transform new_indexer decodeAndIndex report Link_parse network random
           upload fs = Ok t
         /\ NoDup (ExportCars.attempted t)
         /\ ((exists before peer after,
                peers = before ++ peer :: after
                /\ Forall fails before
                /\ ExportCars.succeeds new_indexer decodeAndIndex report network peer root = true
                /\ ExportCars.attempted t = before ++ [peer]
                /\ ExportCars.emitted t
                   = Some (ExportCars.mkLocalUpload upload
                             ("./out/contents/" +:+ Db.content_cid upload +:+ ".car")))
             \/ (Forall fails peers
                 /\ ExportCars.attempted t = peers
                 /\ ExportCars.emitted t = None)).
Proof.
  intros Indexer new_indexer decodeAndIndex report Link_parse network random
    upload fs root Hroot.
  unfold ExportCars.transform. cbv zeta.
  pose proof (shuffle_Permutation random ExportCars.PEERS) as Hperm.
  remember (ExportCars.shuffle random ExportCars.PEERS) as peers eqn:Hshuffle.
  assert (NoDup peers) as Hnodup by (rewrite Hperm; apply PEERS_NoDup).
  split; [done|].
  destruct (try_peers_spec new_indexer decodeAndIndex report Link_parse network peers upload
              {| ExportCars.attempted := []; ExportCars.logged := [];
                 ExportCars.emitted := None; ExportCars.files := fs |} root Hroot)
    as (t & Hrun & Hcases).
  exists t. split; [done|]. cbn in Hcases.
  destruct Hcases as [(before & p & after & Hpeers & Hbefore & Hp & Hatt & Hem)
                     |(Hall & Hatt & Hem)].
  - split.
    + rewrite Hatt. rewrite Hpeers in Hnodup.
      apply NoDup_app in Hnodup as (Hb & Hdisj & Hpa).
      apply NoDup_app. split; [done|]. split; [|apply NoDup_singleton].
      intros x Hx Hx'. apply list_elem_of_singleton in Hx' as ->.
      apply (Hdisj p Hx). left.
    + left. by exists before, p, after.
  - split; [by rewrite Hatt|]. by right.
Qed.

Lemma C5_peers_tried_in_turn_once_witness :
  let peers := ExportCars.shuffle (fun _ => O) ExportCars.PEERS in
  let upload := Examples.upload_at 1 "bafyroot" 2023 4 in
  peers ≡ₚ ExportCars.PEERS
  /\ exists t,
       ExportCars.transform [] Examples.decodeAndIndex Examples.report Examples.Link_parse
         Examples.network (fun _ => O) upload ∅ = Ok t
       /\ NoDup (ExportCars.attempted t)
       /\ ((exists before peer after,
              peers = before ++ peer :: after
              /\ Forall (fun p => ExportCars.succeeds [] Examples.decodeAndIndex
                                    Examples.report Examples.network p "bafyroot" = false)
                        before
              /\ ExportCars.succeeds [] Examples.decodeAndIndex Examples.report
                   Examples.network peer "bafyroot" = true
              /\ ExportCars.attempted t = before ++ [peer]
              /\ ExportCars.emitted t
                 = Some (ExportCars.mkLocalUpload upload
                           ("./out/contents/" +:+ Db.content_cid upload +:+ ".car")))
           \/ (Forall (fun p => ExportCars.succeeds [] Examples.decodeAndIndex
                                   Examples.report Examples.network p "bafyroot" = false)
                      peers
               /\ ExportCars.attempted t = peers
               /\ ExportCars.emitted t = None)).
Proof.
  refine (C5_peers_tried_in_turn_once [] Examples.decodeAndIndex Examples.report
            Examples.Link_parse Examples.network (fun _ => O)
            (Examples.upload_at 1 "bafyroot" 2023 4) ∅ "bafyroot" _).
  reflexivity.
Defined.

Example transform_second_attempt :
  let upload := Examples.upload_at 1 "bafyroot" 2023 4 in
  match ExportCars.transform [] Examples.decodeAndIndex Examples.report
          Examples.Link_parse Examples.network (fun _ => O) upload ∅ with
  | Ok t =>
      ExportCars.attempted t = take 2 (ExportCars.shuffle (fun _ => O) ExportCars.PEERS)
      /\ ExportCars.logged t
         = ["failed to bitswap bafyroot from /ip4/212.6.53.53/tcp/8888/p2p/12D3KooWJqxfjvbDkKByJQeT5urmeFBavNhNvidsAeqjWr6hf7jT: failed verification: non-complete DAG: Partial"%string]
      /\ ExportCars.emitted t
         = Some (ExportCars.mkLocalUpload upload "./out/contents/bafyroot.car")
  | Throw _ => False
  end.
Proof. vm_compute. auto. Qed.

Example sha256_abc :
  Denylist.toString_hex (Sha256.encode (Denylist.Buffer_from "abc"))
  = "ba7816bf8f01cfea414140de5dae2223b00361a396177a9cb410ff61f20015ad"%string.
Proof. vm_compute. reflexivity. Qed.

Example sha256_empty :
  Denylist.toString_hex (Sha256.encode [])
  = "e3b0c44298fc1c149afbf4c8996fb92427ae41e4649b934ca495991b7852b855"%string.
Proof. vm_compute. reflexivity. Qed.

Example anchor_a :
  Denylist.anchor "a"
  = "b3dda5b674f9ce730a37dee0a33bb31efeea2335f517774f6ea133d448df2178"%string.
Proof. vm_compute. reflexivity. Qed.

Example encode_big :
  let q := String Json.dquote EmptyString in
  Fs.of_utf8 (CurrentIDState.encode {| CurrentIDState.currentID := 9007199254740993 |})
  = ("{" ++ q ++ "currentID" ++ q ++ ":" ++ q ++ "9007199254740993" ++ q ++ "}")%string.
Proof. vm_compute. reflexivity. Qed.

Example decode_big :
  CurrentIDState.decode (CurrentIDState.encode {| CurrentIDState.currentID := 9007199254740993 |})
  = Ok {| CurrentIDState.currentID := 9007199254740993 |}.
Proof. vm_compute. reflexivity. Qed.

Example parse_three :
  let o := [("a"%string, Json.JStr (String "x" (String Json.backslash (String Json.dquote "y"))));
            ("b"%string, Json.JNum (-12)); ("c"%string, Json.JNum 0)] in
  Json.parse (Json.stringify o) = Ok o.
Proof. vm_compute. reflexivity. Qed.

Example count_two_rows :
  let r := CountDagSize.main CountDagSize.PAGE_SIZE Examples.db ∅ 5 ∅ in
  Scanner.queried r = [0; 10000] /\
  Scanner.outcome r = Scanner.Finished (CountDagSize.mkState 20000 50 3) /\
  CountDagSize.loadState (Scanner.disk r) = Ok (CountDagSize.mkState 20000 50 3).
Proof. vm_compute. auto. Qed.

Example denylist_cars_two_rows :
  let r := DenylistCars.main DenylistCars.PAGE_SIZE Examples.db Examples.no_keys Examples.denylist 5 5 ∅ in
  DenylistCars.queried r.1 = [0; 10000] /\
  DenylistCars.upload <$> DenylistCars.enqueued r.1 = [15000; 15000] /\
  r.2 = DenylistCars.Closed /\
  CurrentIDState.load_or_init DenylistCars.statePath (DenylistCars.disk r.1)
    = Ok (CurrentIDState.mkState 20000).
Proof. vm_compute. auto. Qed.

Example monthly_two_rows :
  let r := CountDagSizeMonthly.main CountDagSizeMonthly.PAGE_SIZE Examples.db {[ Denylist.anchor "a" ]} 5 None in
  Scanner.queried r = [0; 10000] /\
  (CountDagSizeMonthly.totals <$> Scanner.disk r) =
    Some {[ 2022 := {[ 11 := CountDagSizeMonthly.mkTotals (CountDagSizeMonthly.mkTotal 10 1)
                                                         (CountDagSizeMonthly.mkTotal 0 0) ]};
            2023 := {[ 4 := CountDagSizeMonthly.mkTotals (CountDagSizeMonthly.mkTotal 40 2)
                                                        (CountDagSizeMonthly.mkTotal 40 2) ]} ]}.
Proof. vm_compute. auto. Qed.

(** * Further properties of the scripts *)

(** ** The state files *)

Lemma parse_error_has_no_code text err :
  Json.parse text = Throw err -> Fs.code err = None.
Proof.
  unfold Json.parse. intros H.
  repeat match type of H with
         | context [match ?x with _ => _ end] => destruct x
         | context [if ?x then _ else _] => destruct x
         end; by inversion H.
Qed.

Lemma BigInt_error_has_no_code v err :
  Json.BigInt v = Throw err -> Fs.code err = None.
Proof.
  unfold Json.BigInt. intros H.
  repeat match type of H with
         | context [match ?x with _ => _ end] => destruct x
         end; by inversion H.
Qed.

Lemma decode_error_has_no_code data err :
  CurrentIDState.decode data = Throw err -> Fs.code err = None.
Proof.
  unfold CurrentIDState.decode.
  destruct (Json.parse (Fs.of_utf8 data)) as [raw|e] eqn:Hparse; cbn.
  - destruct (Json.BigInt (Json.get "currentID" raw)) as [n|e] eqn:Hbig; cbn; [done|].
    intros [= <-]. by apply (BigInt_error_has_no_code _ _ Hbig).
  - intros [= <-]. by apply (parse_error_has_no_code _ _ Hparse).
Qed.

Lemma code_ENOENT err :
  Fs.code err = Some "ENOENT"%string <-> err = SysError "ENOENT".
Proof.
  split; [|by intros ->].
  destruct err; cbn; [|done..]. by intros [= ->].
Qed.

(** X1. [State.load] with the codec of [currentid-state.mjs] answers
    [undefined] when reading the file fails with ENOENT and in no other
    case: no error of the decoder has that code.  Any other error of
    reading the file is thrown on as it is. *)
Theorem X1_load_is_undefined_only_for_ENOENT :
  forall (path : string) (d : Fs.t),
    (State.load CurrentIDState.decode path d = Ok None
     <-> Fs.readFile path d = Throw (SysError "ENOENT"))
    /\ (forall err,
          Fs.readFile path d = Throw err ->
          err <> SysError "ENOENT" ->
          State.load CurrentIDState.decode path d = Throw err).
Proof.
  intros path d. unfold State.load.
  destruct (Fs.readFile path d) as [data|err] eqn:Hread; cbn.
  - split; [|done].
    destruct (CurrentIDState.decode data) as [st|err] eqn:Hdec; [done|].
    by rewrite (decode_error_has_no_code _ _ Hdec).
  - split.
    + case_bool_decide as Hcode.
      * split; [done|]. intros [= ->]. by destruct Hcode.
      * apply code_ENOENT in Hcode. by subst err.
    + intros err' [= <-] Hne. case_bool_decide as Hcode; [done|].
      by apply code_ENOENT in Hcode.
Qed.

Lemma X1_load_is_undefined_only_for_ENOENT_witness :
  State.load CurrentIDState.decode "state.json"
    {[ "state.json"%string := Fs.Directory ]}
  = Throw (SysError "EISDIR").
Proof.
  refine (proj2 (X1_load_is_undefined_only_for_ENOENT "state.json"
            {[ "state.json"%string := Fs.Directory ]})
            (SysError "EISDIR") _ _).
  - reflexivity.
  - discriminate.
Defined.

(** X2. The state file of [count-dag-size.mjs]: what [saveState] wrote,
    [loadState] reads back, all three fields, whatever their size; a
    missing file is the state at zero; a directory at the path makes
    both throw. *)
Theorem X2_count_dag_size_state_round_trip
    (state : CountDagSize.State) (d d' : Fs.t) :
  CountDagSize.saveState state d = Ok d' ->
  CountDagSize.loadState d' = Ok state
  /\ CountDagSize.loadState (delete CountDagSize.statePath d')
     = Ok (CountDagSize.mkState 0 0 0)
  /\ CountDagSize.loadState (<[CountDagSize.statePath := Fs.Directory]> d')
     = Throw (SysError "EISDIR")
  /\ CountDagSize.saveState state (<[CountDagSize.statePath := Fs.Directory]> d')
     = Throw (SysError "EISDIR").
Proof.
  intros Hsave. split; [by apply (saveState_loadState state d)|].
  split; [apply loadState_absent, lookup_delete_eq|].
  unfold CountDagSize.loadState, CountDagSize.saveState, Fs.readFile, Fs.writeFile.
  by rewrite !lookup_insert_eq.
Qed.

Lemma X2_count_dag_size_state_round_trip_witness :
  CountDagSize.loadState
    (<[CountDagSize.statePath :=
         Fs.File (Fs.utf8 (Json.stringify
           [("currentID"%string, Json.JStr (Json.String_ 9007199254740993));
            ("size"%string, Json.JStr (Json.String_ 36893488147419103232));
            ("count"%string, Json.JNum 12)]))]> ∅)
  = Ok (CountDagSize.mkState 9007199254740993 36893488147419103232 12).
Proof.
  refine (proj1 (X2_count_dag_size_state_round_trip
            (CountDagSize.mkState 9007199254740993 36893488147419103232 12) ∅ _ _)).
  reflexivity.
Defined.

(** ** The queries and the loop of the counting scripts *)

(** [Number_] keeps an integer up to 2^53 and is off by at most one
    part in 2^53 of any other. *)
Lemma Number_exact (z : Z) : Z.abs z <= 2 ^ 53 -> Number_ z = z.
Proof.
  intros Hz. destruct (decide (Z.abs z = 2 ^ 53)) as [Heq|Hne].
  - destruct (Z.abs_eq_or_opp z) as [H|H]; rewrite H in Heq.
    + by subst z.
    + assert (z = - 2 ^ 53) as -> by lia. done.
  - unfold Number_. cbv zeta.
    assert (Z.log2 (Z.abs z) < 53) as Hlog.
    { destruct (decide (Z.abs z = 0)) as [->|H0]; [done|].
      apply Z.log2_lt_pow2; lia. }
    destruct (Z.leb_spec (Z.log2 (Z.abs z) - 52) 0); [done|lia].
Qed.

Lemma Number_close (z : Z) : Z.abs (Number_ z - z) * 2 ^ 53 <= Z.abs z.
Proof.
  unfold Number_. cbv zeta.
  destruct (Z.leb_spec (Z.log2 (Z.abs z) - 52) 0) as [|He]; [lia|].
  assert (0 < Z.abs z) as Ha.
  { destruct (decide (Z.abs z = 0)) as [H0|]; [|lia]. rewrite H0 in He. cbn in He. lia. }
  set (a := Z.abs z) in *. set (e := Z.log2 a - 52) in *.
  destruct (Z.log2_spec a Ha) as [Hlo _].
  replace (Z.log2 a) with ((e - 1) + 53) in Hlo by lia.
  rewrite Z.pow_add_r in Hlo by lia.
  rewrite Z.shiftr_div_pow2, Z.land_ones, !Z.shiftl_mul_pow2, Z.mul_1_l by lia.
  replace (2 ^ e) with (2 * 2 ^ (e - 1)) in *
    by (rewrite <- Z.pow_succ_r by lia; f_equal; lia).
  set (h := 2 ^ (e - 1)) in *.
  assert (0 < h) as Hh by (apply Z.pow_pos_nonneg; lia).
  pose proof (Z.div_mod a (2 * h) ltac:(lia)) as Hdm.
  pose proof (Z.mod_pos_bound a (2 * h) ltac:(lia)) as Hr.
  set (q := a / (2 * h)) in *. set (r := a mod (2 * h)) in *.
  assert (Z.abs (Z.sgn z * ((if (h <? r) || (r =? h) && Z.odd q then q + 1 else q) * (2 * h)) - z)
          <= h) as Hd.
  { replace z with (Z.sgn z * a) at 2 by (unfold a; lia).
    rewrite <- Z.mul_sub_distr_l, Z.abs_mul.
    replace (Z.abs (Z.sgn z)) with 1 by (unfold a in Ha; lia).
    destruct (Z.ltb_spec h r); cbn [orb]; [lia|].
    destruct (Z.eqb_spec r h); cbn [andb]; [destruct (Z.odd q)|]; lia. }
  nia.
Qed.

Example Number_rounds_to_even :
  Number_ 9007199254740993 = 9007199254740992
  /\ Number_ 9007199254740995 = 9007199254740996
  /\ Number_ (-9007199254740993) = -9007199254740992
  /\ Number_ 36893488147419103233 = 36893488147419103232.
Proof. done. Qed.

(** X3. Where no row of [cargo.dags] matches the CIDs of a page, the sum
    is [NULL]: [fetchTotalDagSize] of [count-dag-size.mjs] throws a
    [TypeError] ([BigInt(null)]), those of [count-dag-size-monthly.mjs]
    and [denylist-cars.mjs] return [0] ([Number(null)]).  Where rows
    match, the first returns the sum of their sizes, each row once, and
    the other two the double nearest to it: the sum itself up to 2^53,
    and a number off by at most one part in 2^53 beyond. *)
Theorem X3_total_dag_size_of_no_matching_row
    (upload : list Db.Upload) (dags : list (string * Z)) (cids : list string) :
  cids <> [] ->
  let db := Db.of_tables upload dags in
  let rows := filter (fun row => row.1 ∈ cids) dags in
  let sum := foldr Z.add 0 (snd <$> rows) in
  (rows = [] ->
   CountDagSize.fetchTotalDagSize db cids
   = Throw (JsError "TypeError: Cannot convert null to a BigInt")
   /\ CountDagSizeMonthly.fetchTotalDagSize db cids = Ok 0
   /\ DenylistCars.fetchTotalDagSize db cids = Ok 0)
  /\ (rows <> [] ->
      CountDagSize.fetchTotalDagSize db cids = Ok sum
      /\ CountDagSizeMonthly.fetchTotalDagSize db cids = Ok (Number_ sum)
      /\ DenylistCars.fetchTotalDagSize db cids = Ok (Number_ sum)
      /\ (Z.abs sum <= 2 ^ 53 -> Number_ sum = sum)
      /\ Z.abs (Number_ sum - sum) * 2 ^ 53 <= Z.abs sum).
Proof.
  intros _ db rows sum.
  unfold CountDagSize.fetchTotalDagSize, CountDagSizeMonthly.fetchTotalDagSize,
    DenylistCars.fetchTotalDagSize. cbn [mbind Result_bind Db.sum_size_actual db Db.of_tables].
  unfold Db.select_sum_size. fold rows.
  split; intros Hrows.
  - by rewrite Hrows.
  - destruct rows as [|row rows'] eqn:Heq; [done|]. cbn [default Db.BigInt].
    split; [done|]. split; [done|]. split; [done|].
    split; [apply Number_exact|apply Number_close].
Qed.

Lemma X3_total_dag_size_of_no_matching_row_witness :
  let db := Db.of_tables Examples.uploads
              [("a"%string, 9007199254740992); ("b"%string, 1)] in
  CountDagSize.fetchTotalDagSize db ["a"; "b"]%string = Ok 9007199254740993
  /\ CountDagSizeMonthly.fetchTotalDagSize db ["a"; "b"]%string = Ok 9007199254740992
  /\ DenylistCars.fetchTotalDagSize db ["a"; "b"]%string = Ok 9007199254740992.
Proof.
  intros db.
  destruct (proj2 (X3_total_dag_size_of_no_matching_row Examples.uploads
                     [("a"%string, 9007199254740992); ("b"%string, 1)]
                     ["a"; "b"]%string ltac:(discriminate)) ltac:(discriminate))
    as (H1 & H2 & H3 & _).
  split; [exact H1|]. split; [exact H2|exact H3].
Defined.

Section ScanProgress.
Context {S D : Type}.
Variable currentID : S -> Z.
Variable batch : S -> Result S.
Variable save : S -> D -> Result D.
Variable load : D -> Result S.
Variable P : Z.
Hypothesis batch_advances :
  forall st st', batch st = Ok st' -> currentID st' = currentID st + P.
Hypothesis save_load : forall st d d', save st d = Ok d' -> load d' = Ok st.

(** However a run ends, the disk holds the state after the last page
    that went through, and each page moved the cursor by [P]. *)
Lemma scan_progress fuel : forall max state d qs,
  load d = Ok state ->
  Forall (fun c => c < max) qs ->
  let r := Scanner.scan currentID batch save fuel max state d qs in
  Forall (fun c => c < max) (Scanner.queried r)
  /\ exists st' (k : nat),
       load (Scanner.disk r) = Ok st'
       /\ currentID st' = currentID state + P * Z.of_nat k
       /\ match Scanner.outcome r with
          | Scanner.Finished s =>
              s = st' /\ max <= currentID st'
              /\ Scanner.queried r = qs ++ cursors P (currentID state) k
          | Scanner.Failed _ =>
              currentID st' < max
              /\ Scanner.queried r = qs ++ cursors P (currentID state) (Datatypes.S k)
          | Scanner.OutOfFuel =>
              Scanner.queried r = qs ++ cursors P (currentID state) k
          end.
Proof.
  induction fuel as [|fuel IH]; intros max state d qs Hload Hqs; cbn.
  - split; [done|]. exists state, O. rewrite Z.mul_0_r, Z.add_0_r, app_nil_r. done.
  - case_bool_decide as Hlt; cbn.
    + assert (Forall (fun c => c < max) (qs ++ [currentID state])) as Hqs'.
      { apply Forall_app. split; [done|]. by constructor. }
      destruct (Scanner.page batch save state d) as [[state' d']|err] eqn:Hpage; cbn.
      * unfold Scanner.page in Hpage.
        destruct (batch state) as [st1|] eqn:Hbatch; [|done]. cbn in Hpage.
        destruct (save st1 d) as [d1|] eqn:Hsave; [|done]. cbn in Hpage.
        injection Hpage as <- <-.
        destruct (IH max st1 d1 (qs ++ [currentID state]) (save_load _ _ _ Hsave) Hqs')
          as (Hall & st' & k & Hst' & Hcur & Hout).
        split; [done|]. exists st', (Datatypes.S k).
        rewrite (batch_advances _ _ Hbatch) in Hcur, Hout.
        split; [done|]. split; [lia|].
        destruct (Scanner.outcome _); rewrite <- app_assoc in Hout; cbn in Hout |- *;
          naive_solver.
      * split; [done|]. exists state, O.
        rewrite Z.mul_0_r, Z.add_0_r. done.
    + split; [done|]. exists state, O.
      rewrite Z.mul_0_r, Z.add_0_r, app_nil_r. repeat split; try done. lia.
Qed.
End ScanProgress.

Lemma monthly_batch_advances P db denylist st st' :
  CountDagSizeMonthly.batch P db denylist st = Ok st' ->
  CountDagSizeMonthly.currentID st' = CountDagSizeMonthly.currentID st + P.
Proof.
  unfold CountDagSizeMonthly.batch.
  destruct (Db.fetchUploadsAfter db _ P) as [uploads|]; cbn; [|done].
  destruct (CountDagSizeMonthly.add_months db denylist _ _); cbn; [|done].
  by intros [= <-].
Qed.

(** X4. However a run of [count-dag-size.mjs] ends (at the end of the
    range, with a failing page, or cut short), the state file holds the
    state after the last page that went through: its cursor is the
    cursor the run began with plus the page size for each such page, so
    it never goes back.  The run asks for the pages at the cursors
    [c0], [c0 + P], ..., one after the other, and never for a page at
    or behind the end of the range. *)
Theorem X4_cursor_on_disk_only_advances
    (P : Z) (db : Db.t) (denylist : gset string) (fuel : nat) (d : Fs.t)
    (state : CountDagSize.State) (range : Z * Z) :
  0 <= P ->
  CountDagSize.loadState d = Ok state ->
  Db.fetchUploadIdRange db = Ok range ->
  let r := CountDagSize.main P db denylist fuel d in
  Forall (fun c => c < range.2) (Scanner.queried r)
  /\ Scanner.queried r
     = cursors P (CountDagSize.currentID state) (length (Scanner.queried r))
  /\ exists state' (pages : nat),
       CountDagSize.loadState (Scanner.disk r) = Ok state'
       /\ CountDagSize.currentID state' = CountDagSize.currentID state + P * Z.of_nat pages
       /\ CountDagSize.currentID state <= CountDagSize.currentID state'
       /\ (pages <= length (Scanner.queried r) <= Datatypes.S pages)%nat
       /\ (forall s, Scanner.outcome r = Scanner.Finished s ->
             s = state' /\ range.2 <= CountDagSize.currentID s).
Proof.
  intros HP Hload Hrange. unfold CountDagSize.main. rewrite Hload, Hrange. cbv zeta.
  destruct (scan_progress CountDagSize.currentID (CountDagSize.batch P db denylist)
              CountDagSize.saveState CountDagSize.loadState P
              (batch_advances P db denylist) saveState_loadState
              fuel range.2 state d [] Hload (Forall_nil_2 _))
    as (Hall & st' & k & Hst' & Hcur & Hout).
  split; [done|].
  destruct (Scanner.outcome _) eqn:Hoc; cbn [app] in Hout.
  - destruct Hout as (-> & Hmax & ->). rewrite !(length_cursors P). split; [done|].
    exists st', k.
    split; [done|]. split; [done|]. split; [lia|]. split; [lia|].
    by intros s [= <-].
  - destruct Hout as (Hlt & ->). rewrite !(length_cursors P). split; [done|].
    exists st', k. repeat split; try done; lia.
  - rewrite Hout, !(length_cursors P). split; [done|].
    exists st', k. repeat split; try done; lia.
Qed.

Lemma X4_cursor_on_disk_only_advances_witness :
  let r := CountDagSize.main 10000 Examples.db_missing ∅ 5 ∅ in
  Forall (fun c => c < 15000) (Scanner.queried r)
  /\ Scanner.queried r = cursors 10000 0 (length (Scanner.queried r))
  /\ exists state' (pages : nat),
       CountDagSize.loadState (Scanner.disk r) = Ok state'
       /\ CountDagSize.currentID state' = 0 + 10000 * Z.of_nat pages
       /\ 0 <= CountDagSize.currentID state'
       /\ (pages <= length (Scanner.queried r) <= Datatypes.S pages)%nat
       /\ (forall s, Scanner.outcome r = Scanner.Finished s ->
             s = state' /\ 15000 <= CountDagSize.currentID s).
Proof.
  refine (X4_cursor_on_disk_only_advances 10000 Examples.db_missing ∅ 5 ∅
            (CountDagSize.mkState 0 0 0) (1, 15000) _ _ _).
  - lia.
  - reflexivity.
  - reflexivity.
Defined.

(** ** The range of ids and the pages over a table *)

Lemma foldr_min_spec (i : Z) (ids : list Z) :
  foldr Z.min i ids ∈ i :: ids /\ Forall (fun x => foldr Z.min i ids <= x) (i :: ids).
Proof.
  induction ids as [|j ids [IHin IHle]]; cbn [foldr].
  - split; [left|]. by constructor.
  - apply Forall_cons in IHle as [Hi Hids]. split.
    + destruct (Z.min_spec j (foldr Z.min i ids)) as [[_ ->]|[_ ->]].
      * right. left.
      * apply elem_of_cons in IHin as [->|?]; [left|right; by right].
    + constructor; [lia|]. constructor; [lia|].
      eapply Forall_impl; [done|]. cbn. intros; lia.
Qed.

Lemma foldr_max_spec (i : Z) (ids : list Z) :
  foldr Z.max i ids ∈ i :: ids /\ Forall (fun x => x <= foldr Z.max i ids) (i :: ids).
Proof.
  induction ids as [|j ids [IHin IHle]]; cbn [foldr].
  - split; [left|]. by constructor.
  - apply Forall_cons in IHle as [Hi Hids]. split.
    + destruct (Z.max_spec j (foldr Z.max i ids)) as [[_ ->]|[_ ->]].
      * apply elem_of_cons in IHin as [->|?]; [left|right; by right].
      * right. left.
    + constructor; [lia|]. constructor; [lia|].
      eapply Forall_impl; [done|]. cbn. intros; lia.
Qed.

Lemma fetchUploadIdRange_of_tables upload dags :
  upload <> [] ->
  exists min max,
    Db.fetchUploadIdRange (Db.of_tables upload dags) = Ok (min, max)
    /\ (forall u, u ∈ upload -> min <= Db.id u <= max)
    /\ (exists u, u ∈ upload /\ Db.id u = min)
    /\ (exists u, u ∈ upload /\ Db.id u = max).
Proof.
  intros Hne. unfold Db.fetchUploadIdRange, Db.of_tables, Db.select_id_range. cbn.
  destruct upload as [|a upload]; [done|]. cbn.
  destruct (foldr_min_spec (Db.id a) (Db.id <$> upload)) as [Hmin_in Hmin].
  destruct (foldr_max_spec (Db.id a) (Db.id <$> upload)) as [Hmax_in Hmax].
  eexists _, _. split; [done|].
  change (Db.id a :: (Db.id <$> upload)) with (Db.id <$> a :: upload) in *.
  rewrite Forall_fmap, Forall_forall in Hmin, Hmax. split; [|split].
  - intros u Hu. specialize (Hmin u Hu). specialize (Hmax u Hu). cbn in *. lia.
  - apply list_elem_of_fmap in Hmin_in as (u & Hu & Hin). by exists u.
  - apply list_elem_of_fmap in Hmax_in as (u & Hu & Hin). by exists u.
Qed.

(** X5. [fetchUploadIdRange] over a table with rows returns the least
    and the greatest id of the table, both ids of rows.  Over an empty
    [upload] table the one row of the answer is [NULL, NULL] and
    [BigInt(null)] throws a [TypeError]: [count-dag-size.mjs] then ends
    before it asks for a page, with the disk as it was. *)
Theorem X5_upload_id_range (upload : list Db.Upload) (dags : list (string * Z)) :
  (upload = [] ->
   Db.fetchUploadIdRange (Db.of_tables upload dags)
   = Throw (JsError "TypeError: Cannot convert null to a BigInt")
   /\ forall P denylist fuel d,
        Scanner.queried (CountDagSize.main P (Db.of_tables upload dags) denylist fuel d) = []
        /\ Scanner.disk (CountDagSize.main P (Db.of_tables upload dags) denylist fuel d) = d
        /\ exists err,
             Scanner.outcome (CountDagSize.main P (Db.of_tables upload dags) denylist fuel d)
             = Scanner.Failed err)
  /\ (upload <> [] ->
      exists min max,
        Db.fetchUploadIdRange (Db.of_tables upload dags) = Ok (min, max)
        /\ (forall u, u ∈ upload -> min <= Db.id u <= max)
        /\ (exists u, u ∈ upload /\ Db.id u = min)
        /\ (exists u, u ∈ upload /\ Db.id u = max)).
Proof.
  split; [|apply fetchUploadIdRange_of_tables].
  intros ->. split; [done|]. intros P denylist fuel d.
  unfold CountDagSize.main. destruct (CountDagSize.loadState d); cbn; eauto.
Qed.

Lemma X5_upload_id_range_witness :
  exists min max,
    Db.fetchUploadIdRange (Db.of_tables Examples.uploads Examples.dags) = Ok (min, max)
    /\ (forall u, u ∈ Examples.uploads -> min <= Db.id u <= max)
    /\ (exists u, u ∈ Examples.uploads /\ Db.id u = min)
    /\ (exists u, u ∈ Examples.uploads /\ Db.id u = max).
Proof.
  refine (proj2 (X5_upload_id_range Examples.uploads Examples.dags) _).
  discriminate.
Defined.

Lemma sorted_lookup_from (l : list Db.Upload) : forall (c : Z) (i : nat) (r : Db.Upload),
  StronglySorted Db.id_le l ->
  NoDup (Db.id <$> l) ->
  Forall (fun u => c <= Db.id u) l ->
  l !! i = Some r ->
  c + Z.of_nat i <= Db.id r.
Proof.
  induction l as [|a l IH]; intros c i r Hsorted Hnodup Hall Hi; [done|].
  apply StronglySorted_inv in Hsorted as [Hsorted Ha].
  rewrite fmap_cons in Hnodup. apply NoDup_cons in Hnodup as [Hnotin Hnodup].
  apply Forall_cons in Hall as [Hca Hall].
  destruct i as [|i]; cbn in Hi.
  - injection Hi as <-. lia.
  - assert (c + 1 + Z.of_nat i <= Db.id r); [|lia].
    apply (IH (c + 1) i r); try done.
    rewrite Forall_forall in Ha |- *. intros u Hu. specialize (Ha u Hu).
    unfold Db.id_le in Ha.
    assert (Db.id u <> Db.id a); [|lia].
    intros Heq. apply Hnotin. rewrite <- Heq. by apply list_elem_of_fmap_2.
Qed.

Lemma NoDup_id_sorted_filter (q : Db.Upload -> Prop) `{!forall x, Decision (q x)}
    (upload : list Db.Upload) :
  NoDup (Db.id <$> upload) ->
  NoDup (Db.id <$> merge_sort Db.id_le (filter q upload)).
Proof.
  intros Hnodup. rewrite merge_sort_Permutation.
  eapply sublist_NoDup; [done|]. apply fmap_sublist, sublist_filter.
Qed.

(** With unique ids the page at a cursor holds every row of its
    window. *)
Lemma window_in_page (upload : list Db.Upload) (c P : Z) (r : Db.Upload) :
  NoDup (Db.id <$> upload) ->
  r ∈ upload ->
  c <= Db.id r < c + P ->
  r ∈ Db.select_uploads_after upload c P.
Proof.
  intros Hnodup Hr Hid. unfold Db.select_uploads_after.
  set (l := merge_sort Db.id_le (filter (fun r => c <= Db.id r) upload)).
  assert (r ∈ l) as Hin.
  { unfold l. rewrite merge_sort_Permutation. apply list_elem_of_filter. split; [lia|done]. }
  apply list_elem_of_lookup in Hin as [i Hi].
  apply elem_of_take. exists i. split; [done|].
  assert (c + Z.of_nat i <= Db.id r); [|lia].
  apply (sorted_lookup_from l c i r); try done.
  - apply StronglySorted_merge_sort; apply _.
  - by apply NoDup_id_sorted_filter.
  - apply Forall_forall. intros u Hu. unfold l in Hu.
    rewrite merge_sort_Permutation in Hu. by apply list_elem_of_filter in Hu as [? _].
Qed.

Lemma elem_of_cursors (P c : Z) (n : nat) (x : Z) :
  x ∈ cursors P c n <-> exists i : nat, (i < n)%nat /\ x = c + P * Z.of_nat i.
Proof.
  revert c. induction n as [|n IH]; intros c; cbn [cursors].
  - split; [by intros ?%elem_of_nil|]. intros (i & Hi & _). lia.
  - rewrite elem_of_cons, IH. split.
    + intros [->|(i & Hi & ->)].
      * exists O. split; lia.
      * exists (S i). split; lia.
    + intros ([|i] & Hi & ->).
      * left. lia.
      * right. exists i. split; lia.
Qed.

(** X6. With unique ids, a run of [count-dag-size.mjs] that gets to
    the end of the range has fetched every upload between the cursor
    it began with and the cursor it ends with, in the page of the
    window the id lies in; and no upload has an id behind the final
    cursor.  So the one upload a finished run can leave out is the one
    with the greatest id, when the final cursor is that id. *)
Theorem X6_finished_run_skips_no_upload_of_its_windows
    (upload : list Db.Upload) (dags : list (string * Z)) (P : Z)
    (denylist : gset string) (fuel : nat) (d : Fs.t)
    (state final : CountDagSize.State) :
  0 < P ->
  NoDup (Db.id <$> upload) ->
  CountDagSize.loadState d = Ok state ->
  let run := CountDagSize.main P (Db.of_tables upload dags) denylist fuel d in
  Scanner.outcome run = Scanner.Finished final ->
  forall u, u ∈ upload ->
    Db.id u <= CountDagSize.currentID final
    /\ (CountDagSize.currentID state <= Db.id u < CountDagSize.currentID final ->
        exists cursor,
          cursor ∈ Scanner.queried run
          /\ cursor <= Db.id u < cursor + P
          /\ u ∈ Db.select_uploads_after upload cursor P).
Proof.
  intros HP Hnodup Hload run Hout u Hu. subst run.
  unfold CountDagSize.main in *. rewrite Hload in *.
  destruct (fetchUploadIdRange_of_tables upload dags) as (min & max & Hrange & Hbounds & _).
  { intros ->. by apply elem_of_nil in Hu. }
  rewrite Hrange in *. cbn [snd] in *.
  destruct (scan_progress CountDagSize.currentID
              (CountDagSize.batch P (Db.of_tables upload dags) denylist)
              CountDagSize.saveState CountDagSize.loadState P
              (batch_advances P (Db.of_tables upload dags) denylist) saveState_loadState
              fuel max state d [] Hload (Forall_nil_2 _))
    as (_ & st' & k & _ & Hcur & Hfin).
  rewrite Hout in Hfin. destruct Hfin as (-> & Hmax & Hq). cbn [app] in Hq.
  split; [specialize (Hbounds u Hu); lia|].
  intros Hid.
  set (c0 := CountDagSize.currentID state) in *.
  set (j := (Db.id u - c0) / P).
  assert (0 <= j) by (apply Z.div_pos; lia).
  assert (P * j <= Db.id u - c0 < P * j + P) as Hj.
  { pose proof (Z.mul_div_le (Db.id u - c0) P HP) as Hlo.
    pose proof (Z.mul_succ_div_gt (Db.id u - c0) P HP) as Hhi. fold j in Hlo, Hhi. lia. }
  assert (j < Z.of_nat k) by nia.
  exists (c0 + P * j). split; [|split; [lia|]].
  - rewrite Hq. apply elem_of_cursors. exists (Z.to_nat j). split; [lia|].
    rewrite Z2Nat.id by done. done.
  - apply window_in_page; [done..|lia].
Qed.

Lemma X6_finished_run_skips_no_upload_of_its_windows_witness :
  Db.id (Examples.upload_at 15000 "b" 2023 4) <= 20000
  /\ (0 <= Db.id (Examples.upload_at 15000 "b" 2023 4) < 20000 ->
      exists cursor,
        cursor ∈ Scanner.queried (CountDagSize.main 10000 Examples.db Examples.denylist 5 ∅)
        /\ cursor <= Db.id (Examples.upload_at 15000 "b" 2023 4) < cursor + 10000
        /\ Examples.upload_at 15000 "b" 2023 4
           ∈ Db.select_uploads_after Examples.uploads cursor 10000).
Proof.
  refine (X6_finished_run_skips_no_upload_of_its_windows Examples.uploads Examples.dags
            10000 Examples.denylist 5 ∅ (CountDagSize.mkState 0 0 0)
            (CountDagSize.mkState 20000 _ _) _ _ _ _
            (Examples.upload_at 15000 "b" 2023 4) _).
  - lia.
  - vm_compute. apply NoDup_cons. split; [|apply NoDup_singleton].
    by intros [=]%list_elem_of_singleton.
  - reflexivity.
  - vm_compute. reflexivity.
  - left.
Defined.

Lemma filter_none {A} (q : A -> Prop) `{!forall x, Decision (q x)} (l : list A) :
  Forall (fun x => ~ q x) l -> filter q l = [].
Proof.
  induction 1 as [|x l Hx _ IH]; [done|]. by rewrite filter_cons, decide_False.
Qed.

(** In a sorted table with unique ids, a row that has [n] rows with
    smaller ids from the cursor on is not among the first [n]. *)
Lemma behind_full_window (upload : list Db.Upload) (c lo hi : Z) (u : Db.Upload) :
  NoDup (Db.id <$> upload) ->
  c <= lo -> hi <= Db.id u ->
  (forall i, lo <= i < hi -> exists v, v ∈ upload /\ Db.id v = i) ->
  u ∉ Db.select_uploads_after upload c (hi - lo).
Proof.
  intros Hnodup Hc Hu Hdense. unfold Db.select_uploads_after.
  set (l := merge_sort Db.id_le (filter (fun r => c <= Db.id r) upload)).
  intros (i & Hi & Hlt)%elem_of_take.
  assert (StronglySorted Db.id_le l) as Hsorted
    by (apply StronglySorted_merge_sort; apply _).
  set (q := fun v : Db.Upload => lo <= Db.id v < hi).
  assert (Z.to_nat (hi - lo) <= length (filter q l))%nat as Hmany.
  { rewrite <- (length_seqZ lo (hi - lo)), <- (length_fmap Db.id (filter q l)).
    apply submseteq_length, NoDup_submseteq; [apply NoDup_seqZ|].
    intros x Hx%elem_of_seqZ. destruct (Hdense x) as (v & Hv & <-); [lia|].
    apply list_elem_of_fmap_2, list_elem_of_filter. split; [unfold q; lia|].
    unfold l. rewrite merge_sort_Permutation. apply list_elem_of_filter. split; [lia|done]. }
  assert (filter q l = filter q (take i l)) as Hfilter.
  { rewrite <- (take_drop_middle l i u Hi) at 1.
    rewrite filter_app, filter_cons, decide_False by (unfold q; lia).
    rewrite <- (take_drop_middle l i u Hi) in Hsorted.
    apply StronglySorted_app_1_r, StronglySorted_inv in Hsorted as [_ Hafter].
    rewrite (filter_none q (drop (S i) l)), app_nil_r; [done|].
    apply Forall_forall. intros v Hv. rewrite Forall_forall in Hafter.
    specialize (Hafter v Hv). unfold Db.id_le, q in *. lia. }
  pose proof (length_filter q (take i l)) as Hle.
  rewrite <- Hfilter, length_take in Hle. lia.
Qed.

(** X7. The loop of [count-dag-size.mjs] runs while the cursor is below
    the greatest id.  When a finished run ends with its cursor at the
    greatest id and every id of the window before it is taken, the
    upload with the greatest id is in none of the pages the run
    fetched. *)
Theorem X7_greatest_id_behind_a_full_window_is_not_fetched
    (upload : list Db.Upload) (dags : list (string * Z)) (P : Z)
    (denylist : gset string) (fuel : nat) (d : Fs.t)
    (state final : CountDagSize.State) (u : Db.Upload) :
  0 < P ->
  NoDup (Db.id <$> upload) ->
  CountDagSize.loadState d = Ok state ->
  let run := CountDagSize.main P (Db.of_tables upload dags) denylist fuel d in
  Scanner.outcome run = Scanner.Finished final ->
  u ∈ upload ->
  Db.id u = CountDagSize.currentID final ->
  (forall i, CountDagSize.currentID final - P <= i < CountDagSize.currentID final ->
     exists v, v ∈ upload /\ Db.id v = i) ->
  forall cursor, cursor ∈ Scanner.queried run ->
    u ∉ Db.select_uploads_after upload cursor P.
Proof.
  intros HP Hnodup Hload run Hout Hu Hid Hdense cursor Hcursor. subst run.
  unfold CountDagSize.main in *. rewrite Hload in *.
  destruct (Db.fetchUploadIdRange (Db.of_tables upload dags)) as [range|] eqn:Hrange;
    [|done].
  destruct (scan_progress CountDagSize.currentID
              (CountDagSize.batch P (Db.of_tables upload dags) denylist)
              CountDagSize.saveState CountDagSize.loadState P
              (batch_advances P (Db.of_tables upload dags) denylist) saveState_loadState
              fuel range.2 state d [] Hload (Forall_nil_2 _))
    as (_ & st' & k & _ & Hcur & Hfin).
  rewrite Hout in Hfin. destruct Hfin as (-> & Hmax & Hq). cbn [app] in Hq.
  rewrite Hq in Hcursor. apply elem_of_cursors in Hcursor as (j & Hj & ->).
  replace P with (CountDagSize.currentID st' - (CountDagSize.currentID st' - P)) at 2
    by lia.
  apply behind_full_window; [done|nia|lia|done].
Qed.

Lemma X7_greatest_id_behind_a_full_window_is_not_fetched_witness :
  Scanner.queried
    (CountDagSize.main 2 (Db.of_tables
       [Examples.upload_at 1 "a" 2022 11; Examples.upload_at 2 "b" 2022 11;
        Examples.upload_at 3 "c" 2022 11; Examples.upload_at 4 "d" 2022 11]
       Examples.dags) ∅ 5 ∅) = [0; 2]
  /\ Examples.upload_at 4 "d" 2022 11
     ∉ Db.select_uploads_after
         [Examples.upload_at 1 "a" 2022 11; Examples.upload_at 2 "b" 2022 11;
          Examples.upload_at 3 "c" 2022 11; Examples.upload_at 4 "d" 2022 11] 2 2.
Proof.
  split; [vm_compute; reflexivity|].
  refine (X7_greatest_id_behind_a_full_window_is_not_fetched
            [Examples.upload_at 1 "a" 2022 11; Examples.upload_at 2 "b" 2022 11;
             Examples.upload_at 3 "c" 2022 11; Examples.upload_at 4 "d" 2022 11]
            Examples.dags 2 ∅ 5 ∅ (CountDagSize.mkState 0 0 0) (CountDagSize.mkState 4 _ _)
            (Examples.upload_at 4 "d" 2022 11) _ _ _ _ _ _ _ 2 _).
  - lia.
  - vm_compute. repeat (apply NoDup_cons; split; [rewrite ?elem_of_cons, elem_of_nil; lia|]).
    apply NoDup_nil_2.
  - reflexivity.
  - vm_compute. reflexivity.
  - rewrite !elem_of_cons. tauto.
  - reflexivity.
  - cbn. intros i Hi. assert (i = 2 \/ i = 3) as [->| ->] by lia.
    + exists (Examples.upload_at 2 "b" 2022 11). split; [|reflexivity].
      rewrite !elem_of_cons. tauto.
    + exists (Examples.upload_at 3 "c" 2022 11). split; [|reflexivity].
      rewrite !elem_of_cons. tauto.
  - vm_compute. right. left.
Defined.

(** ** The months of a page *)

Section MonthlyGrouping.
Import CountDagSizeMonthly.

Lemma elem_of_keys {T} (o : gmap Z T) (k : Z) : k ∈ keys o <-> is_Some (o !! k).
Proof.
  unfold keys. rewrite merge_sort_Permutation, elem_of_elements. apply elem_of_dom.
Qed.

Lemma NoDup_keys {T} (o : gmap Z T) : NoDup (keys o).
Proof. unfold keys. rewrite merge_sort_Permutation. apply NoDup_elements. Qed.

(** [monthlyUploads[year][month]] holds the uploads of the page that
    were inserted in that month, in the order of the page. *)
Lemma group_lookup (uploads : list Db.Upload) (year month : Z) :
  monthly_lookup (group uploads) year month
  = match filter (in_month year month) uploads with
    | [] => None
    | us => Some us
    end.
Proof.
  unfold group, monthly_lookup.
  induction uploads as [|u uploads IH] using rev_ind; [done|].
  rewrite foldl_snoc, filter_app, filter_cons, filter_nil. cbv zeta.
  set (g := foldl _ ∅ uploads) in *.
  destruct (decide (Db.getFullYear (Db.inserted_at u) = year)) as [Hy|Hy].
  - rewrite Hy, lookup_insert_eq. cbn [default]. unfold id in *.
    destruct (decide (Db.getMonth (Db.inserted_at u) = month)) as [Hm|Hm].
    + rewrite Hm, lookup_insert_eq, IH. rewrite decide_True by done.
      by destruct (filter (in_month year month) uploads).
    + rewrite lookup_insert_ne, IH by done.
      rewrite decide_False by (unfold in_month; tauto). by rewrite app_nil_r.
  - rewrite lookup_insert_ne, IH by done.
    rewrite decide_False by (unfold in_month; tauto). by rewrite app_nil_r.
Qed.

Lemma elem_of_months (g : MonthlyItems (list Db.Upload)) (year month : Z)
    (us : list Db.Upload) :
  (year, month, us) ∈ months g <-> monthly_lookup g year month = Some us.
Proof.
  unfold months, monthly_lookup. rewrite list_elem_of_bind. split.
  - intros (y & Hin & Hy). apply list_elem_of_bind in Hin as (m & Hin & Hm).
    apply list_elem_of_singleton in Hin. injection Hin as -> -> ->.
    apply elem_of_keys in Hm as [x Hx]. by rewrite Hx.
  - intros Hus. exists year. split.
    + apply list_elem_of_bind. exists month. split.
      * apply list_elem_of_singleton. by rewrite Hus.
      * apply elem_of_keys. by rewrite Hus.
    + apply elem_of_keys. destruct (g !! year); [done|].
      cbn in Hus. by rewrite lookup_empty in Hus.
Qed.

(** The nested loops come to every month once. *)
Lemma NoDup_months (g : MonthlyItems (list Db.Upload)) : NoDup (fst <$> months g).
Proof.
  apply NoDup_fmap_2_strong.
  - intros [[y m] us] [[y' m'] us'] Hx Hy [= <- <-].
    apply elem_of_months in Hx, Hy. congruence.
  - unfold months. apply NoDup_bind; [| |apply NoDup_keys].
    + intros y1 y2 [[y m] us] _ _ H1 H2.
      apply list_elem_of_bind in H1 as (m1 & H1 & _), H2 as (m2 & H2 & _).
      apply list_elem_of_singleton in H1, H2. congruence.
    + intros y _. apply NoDup_bind; [| |apply NoDup_keys].
      * intros m1 m2 e _ _ H1 H2.
        apply list_elem_of_singleton in H1, H2. congruence.
      * intros. apply NoDup_singleton.
Qed.
End MonthlyGrouping.

Section MonthlyCells.
Import CountDagSizeMonthly.
Variable P : Z.
Variable db : Db.t.
Variable denylist : gset string.

Local Abbreviation kept us :=
  (filter (fun u => Denylist.isDenyListed denylist (Db.source_cid u) = false) us).

Lemma monthly_lookup_insert {T} (items : MonthlyItems T) (year month : Z) (v : T) :
  monthly_lookup (<[year := <[month := v]> (default ∅ (items !! year))]> items) year month
  = Some v.
Proof. unfold monthly_lookup. rewrite lookup_insert_eq. cbn. by rewrite lookup_insert_eq. Qed.

Lemma monthly_lookup_insert_ne {T} (items : MonthlyItems T) (year month y m : Z) (v : T) :
  (y, m) <> (year, month) ->
  monthly_lookup (<[year := <[month := v]> (default ∅ (items !! year))]> items) y m
  = monthly_lookup items y m.
Proof.
  intros Hne. unfold monthly_lookup. destruct (decide (y = year)) as [->|Hy].
  - rewrite lookup_insert_eq. cbn. rewrite lookup_insert_ne by congruence. done.
  - by rewrite lookup_insert_ne.
Qed.

Local Abbreviation added := (month_added db denylist).

Lemma add_month_cell totals year month us totals' :
  add_month db denylist totals year month us = Ok totals' ->
  added (monthly_cell totals year month) (monthly_cell totals' year month) us
  /\ forall y m, (y, m) <> (year, month) ->
       monthly_lookup totals' y m = monthly_lookup totals y m.
Proof.
  unfold add_month. cbv zeta. fold (monthly_lookup totals year month).
  fold (monthly_cell totals year month).
  set (c := monthly_cell totals year month).
  destruct (fetchTotalDagSize db (Db.content_cid <$> us)) as [rb|] eqn:Hreal; [|done].
  cbn [mbind Result_bind].
  case_bool_decide as Hkept.
  - destruct (fetchTotalDagSize db (Db.content_cid <$> kept us)) as [ab|] eqn:Hadj; [|done].
    cbn. intros [= <-]. split; [|intros y m Hne; by apply monthly_lookup_insert_ne].
    unfold month_added, monthly_cell. rewrite monthly_lookup_insert. cbn.
    rewrite !length_fmap.
    split; [done|]. split; [by exists rb|]. split.
    + intros Hnil. by rewrite Hnil in Hkept.
    + intros _. split; [done|]. by exists ab.
  - cbn. intros [= <-]. split; [|intros y m Hne; by apply monthly_lookup_insert_ne].
    unfold month_added, monthly_cell. rewrite monthly_lookup_insert. cbn.
    apply fmap_nil_inv in Hkept. rewrite Hkept. cbn.
    split; [done|]. split; [by exists rb|]. done.
Qed.

Lemma add_months_other ms : forall totals totals' y m,
  add_months db denylist ms totals = Ok totals' ->
  (y, m) ∉ fst <$> ms ->
  monthly_lookup totals' y m = monthly_lookup totals y m.
Proof.
  induction ms as [|[[year month] us] ms IH]; intros totals totals' y m; cbn.
  - by intros [= <-].
  - destruct (add_month db denylist totals year month us) as [t1|] eqn:Hadd; [|done]. cbn.
    intros Hrest Hnotin. apply not_elem_of_cons in Hnotin as [Hne Hnotin].
    rewrite (IH _ _ _ _ Hrest Hnotin).
    by apply (add_month_cell _ _ _ _ _ Hadd).
Qed.

Lemma add_months_cell ms : forall totals totals' y m us,
  NoDup (fst <$> ms) ->
  add_months db denylist ms totals = Ok totals' ->
  (y, m, us) ∈ ms ->
  added (monthly_cell totals y m) (monthly_cell totals' y m) us.
Proof.
  induction ms as [|[[year month] us0] ms IH]; intros totals totals' y m us Hnodup; cbn.
  - by intros _ ?%elem_of_nil.
  - rewrite fmap_cons in Hnodup. apply NoDup_cons in Hnodup as [Hnotin Hnodup].
    destruct (add_month db denylist totals year month us0) as [t1|] eqn:Hadd; [|done]. cbn.
    intros Hrest [[= -> -> ->]|Hin]%elem_of_cons.
    + unfold monthly_cell at 2. rewrite (add_months_other _ _ _ _ _ Hrest Hnotin).
      by apply (add_month_cell _ _ _ _ _ Hadd).
    + assert ((y, m) <> (year, month)) as Hne.
      { intros [= -> ->]. apply Hnotin.
        by apply (list_elem_of_fmap_2 fst _ (year, month, us)). }
      unfold monthly_cell at 1.
      rewrite <- (proj2 (add_month_cell _ _ _ _ _ Hadd) y m Hne).
      by apply IH.
Qed.
End MonthlyCells.

(** [a + b] is exact while the sum is an integer up to 2^53. *)
Lemma Number_add_exact (a b : Z) : Z.abs (a + b) <= 2 ^ 53 -> Number_add a b = a + b.
Proof. apply Number_exact. Qed.

(** X8. A page of [count-dag-size-monthly.mjs] that goes through adds
    every upload it holds to the totals of the month the upload was
    inserted in, and to no other.  For a month with uploads on the
    page, [real.count] grows by their number and [real.bytes] by what
    [fetchTotalDagSize] answers for their content CIDs; where some of
    them are not deny-listed, [adjusted.count] grows by the number of
    these and [adjusted.bytes] by what [fetchTotalDagSize] answers for
    their content CIDs, and [adjusted] stays as it is otherwise.  The
    additions are those of numbers: the double nearest to the sum,
    which is the sum while it is at most 2^53.  The totals of a month
    with no upload on the page stay as they are. *)
Theorem X8_page_is_counted_month_by_month
    (P : Z) (db : Db.t) (denylist : gset string)
    (state state' : CountDagSizeMonthly.State) (uploads : list Db.Upload) :
  Db.fetchUploadsAfter db (CountDagSizeMonthly.currentID state) P = Ok uploads ->
  CountDagSizeMonthly.batch P db denylist state = Ok state' ->
  (forall a b, Z.abs (a + b) <= 2 ^ 53 -> Number_add a b = a + b)
  /\ forall year month,
    let us := filter (in_month year month) uploads in
    let kept :=
      filter (fun u => Denylist.isDenyListed denylist (Db.source_cid u) = false) us in
    let c := monthly_cell (CountDagSizeMonthly.totals state) year month in
    let c' := monthly_cell (CountDagSizeMonthly.totals state') year month in
    (us = [] ->
     monthly_lookup (CountDagSizeMonthly.totals state') year month
     = monthly_lookup (CountDagSizeMonthly.totals state) year month)
    /\ (us <> [] ->
        CountDagSizeMonthly.count (CountDagSizeMonthly.real c')
        = Number_add (CountDagSizeMonthly.count (CountDagSizeMonthly.real c))
                     (Z.of_nat (length us))
        /\ (exists real_bytes,
              CountDagSizeMonthly.fetchTotalDagSize db (Db.content_cid <$> us) = Ok real_bytes
              /\ CountDagSizeMonthly.bytes (CountDagSizeMonthly.real c')
                 = Number_add (CountDagSizeMonthly.bytes (CountDagSizeMonthly.real c))
                              real_bytes)
        /\ (kept = [] -> CountDagSizeMonthly.adjusted c' = CountDagSizeMonthly.adjusted c)
        /\ (kept <> [] ->
            CountDagSizeMonthly.count (CountDagSizeMonthly.adjusted c')
            = Number_add (CountDagSizeMonthly.count (CountDagSizeMonthly.adjusted c))
                         (Z.of_nat (length kept))
            /\ exists adjusted_bytes,
                 CountDagSizeMonthly.fetchTotalDagSize db (Db.content_cid <$> kept)
                 = Ok adjusted_bytes
                 /\ CountDagSizeMonthly.bytes (CountDagSizeMonthly.adjusted c')
                    = Number_add (CountDagSizeMonthly.bytes (CountDagSizeMonthly.adjusted c))
                                 adjusted_bytes)).
Proof.
  intros Hpage Hbatch. split; [apply Number_add_exact|].
  intros year month us kept c c'. unfold CountDagSizeMonthly.batch in Hbatch.
  rewrite Hpage in Hbatch. cbn in Hbatch.
  destruct (CountDagSizeMonthly.add_months db denylist _ _) as [totals'|] eqn:Hadd; [|done].
  injection Hbatch as <-.
  pose proof (group_lookup uploads year month) as Hlookup. fold us in Hlookup.
  split; intros Hus.
  - rewrite Hus in Hlookup.
    apply (add_months_other db denylist _ _ _ _ _ Hadd).
    intros ([[y m] us'] & [= <- <-] & Hin%elem_of_months)%list_elem_of_fmap. congruence.
  - apply (add_months_cell db denylist _ _ _ _ _ _ (NoDup_months _) Hadd).
    apply elem_of_months. by destruct us.
Qed.

Lemma X8_page_is_counted_month_by_month_witness :
  CountDagSizeMonthly.count (CountDagSizeMonthly.real
    (monthly_cell (<[2023 := {[4 := CountDagSizeMonthly.mkTotals
                                     (CountDagSizeMonthly.mkTotal 20 1)
                                     (CountDagSizeMonthly.mkTotal 0 0)]}]>
                   (<[2022 := {[11 := CountDagSizeMonthly.mkTotals
                                        (CountDagSizeMonthly.mkTotal 10 1)
                                        (CountDagSizeMonthly.mkTotal 10 1)]}]> ∅))
       2023 4)) = Number_add 0 (Z.of_nat 1).
Proof.
  refine (proj1 (proj2 (proj2 (X8_page_is_counted_month_by_month 10000 Examples.db
            Examples.denylist
            (CountDagSizeMonthly.mkState 0 ∅)
            (CountDagSizeMonthly.mkState 10000
               (<[2023 := {[4 := CountDagSizeMonthly.mkTotals
                                   (CountDagSizeMonthly.mkTotal 20 1)
                                   (CountDagSizeMonthly.mkTotal 0 0)]}]>
                  (<[2022 := {[11 := CountDagSizeMonthly.mkTotals
                                       (CountDagSizeMonthly.mkTotal 10 1)
                                       (CountDagSizeMonthly.mkTotal 10 1)]}]> ∅)))
            [Examples.upload_at 1 "a" 2022 11; Examples.upload_at 15000 "b" 2023 4]
            _ _) 2023 4) _)).
  - vm_compute. reflexivity.
  - vm_compute. reflexivity.
  - vm_compute. discriminate.
Defined.

(** ** What a run of count-dag-size.mjs has added up *)

Section CountDagSizeSums.
Import CountDagSize.
Variable P : Z.
Variable db : Db.t.
Variable denylist : gset string.

Lemma scan_deltas fuel : forall max st d qs,
  loadState d = Ok st ->
  let r := Scanner.scan currentID (batch P db denylist) saveState fuel max st d qs in
  exists st' (deltas : list (Z * Z)),
    loadState (Scanner.disk r) = Ok st'
    /\ Forall2 (fun c delta => page_delta P db denylist c = Ok delta)
         (cursors P (currentID st) (length deltas)) deltas
    /\ currentID st' = currentID st + P * Z.of_nat (length deltas)
    /\ size st' = size st + foldr Z.add 0 (fst <$> deltas)
    /\ count st' = count st + foldr Z.add 0 (snd <$> deltas)
    /\ (forall s, Scanner.outcome r = Scanner.Finished s ->
          s = st' /\ Scanner.queried r = qs ++ cursors P (currentID st) (length deltas)).
Proof.
  induction fuel as [|fuel IH]; intros max st d qs Hload; cbn.
  - exists st, []. cbn. rewrite Z.mul_0_r, !Z.add_0_r. by repeat split.
  - case_bool_decide as Hlt; cbn.
    + unfold Scanner.page. rewrite batch_page_delta.
      destruct (page_delta P db denylist (currentID st)) as [delta|] eqn:Hdelta; cbn.
      * set (st1 := mkState _ _ _).
        destruct (saveState st1 d) as [d1|] eqn:Hsave; cbn.
        -- destruct (IH max st1 d1 (qs ++ [currentID st]) (saveState_loadState _ _ _ Hsave))
             as (st' & deltas & Hst' & Hdeltas & Hcur & Hsize & Hcount & Hfin).
           exists st', (delta :: deltas). cbn [length cursors fmap list_fmap foldr].
           split; [done|]. split; [by constructor|].
           subst st1. cbn in *. split; [lia|]. split; [lia|]. split; [lia|].
           intros s Hs. destruct (Hfin s Hs) as [-> ->].
           by rewrite <- app_assoc.
        -- exists st, []. cbn. rewrite Z.mul_0_r, !Z.add_0_r. by repeat split.
      * exists st, []. cbn. rewrite Z.mul_0_r, !Z.add_0_r. by repeat split.
    + exists st, []. cbn. rewrite Z.mul_0_r, !Z.add_0_r, app_nil_r.
      split; [done|]. split; [constructor|]. do 3 (split; [done|]).
      by intros s [= <-].
Qed.
End CountDagSizeSums.

(** X9. What a run of [count-dag-size.mjs] leaves in the state file is
    the state it began with and, added to it, what each page that went
    through holds: the pages at the cursors [c0], [c0 + P], ..., each
    once, with [size] the sum of the sums [fetchTotalDagSize] gave for
    them and [count] the number of their uploads that are not
    deny-listed.  This holds however the run ends; a run that gets to
    the end of the range has asked for these pages and no other. *)
Theorem X9_state_file_is_the_sum_of_the_pages
    (P : Z) (db : Db.t) (denylist : gset string) (fuel : nat) (d : Fs.t)
    (state : CountDagSize.State) (range : Z * Z) :
  CountDagSize.loadState d = Ok state ->
  Db.fetchUploadIdRange db = Ok range ->
  let run := CountDagSize.main P db denylist fuel d in
  exists state' (deltas : list (Z * Z)),
    CountDagSize.loadState (Scanner.disk run) = Ok state'
    /\ Forall2 (fun cursor delta => CountDagSize.page_delta P db denylist cursor = Ok delta)
         (cursors P (CountDagSize.currentID state) (length deltas)) deltas
    /\ CountDagSize.currentID state'
       = CountDagSize.currentID state + P * Z.of_nat (length deltas)
    /\ CountDagSize.size state' = CountDagSize.size state + foldr Z.add 0 (fst <$> deltas)
    /\ CountDagSize.count state' = CountDagSize.count state + foldr Z.add 0 (snd <$> deltas)
    /\ (forall s, Scanner.outcome run = Scanner.Finished s ->
          s = state'
          /\ Scanner.queried run
             = cursors P (CountDagSize.currentID state) (length deltas)).
Proof.
  intros Hload Hrange. unfold CountDagSize.main. rewrite Hload, Hrange. cbv zeta.
  exact (scan_deltas P db denylist fuel range.2 state d [] Hload).
Qed.

Lemma X9_state_file_is_the_sum_of_the_pages_witness :
  exists state' (deltas : list (Z * Z)),
    CountDagSize.loadState
      (Scanner.disk (CountDagSize.main 10000 Examples.db Examples.denylist 5 ∅)) = Ok state'
    /\ Forall2 (fun cursor delta =>
                  CountDagSize.page_delta 10000 Examples.db Examples.denylist cursor = Ok delta)
         (cursors 10000 0 (length deltas)) deltas
    /\ CountDagSize.currentID state' = 0 + 10000 * Z.of_nat (length deltas)
    /\ CountDagSize.size state' = 0 + foldr Z.add 0 (fst <$> deltas)
    /\ CountDagSize.count state' = 0 + foldr Z.add 0 (snd <$> deltas)
    /\ (forall s,
          Scanner.outcome (CountDagSize.main 10000 Examples.db Examples.denylist 5 ∅)
          = Scanner.Finished s ->
          s = state'
          /\ Scanner.queried (CountDagSize.main 10000 Examples.db Examples.denylist 5 ∅)
             = cursors 10000 0 (length deltas)).
Proof.
  refine (X9_state_file_is_the_sum_of_the_pages 10000 Examples.db Examples.denylist 5 ∅
            (CountDagSize.mkState 0 0 0) (1, 15000) _ _).
  - reflexivity.
  - reflexivity.
Defined.

(** ** What the stream of denylist-cars.mjs emits *)

Lemma elem_of_concat {A} (x : A) (ls : list (list A)) :
  x ∈ concat ls <-> exists l, x ∈ l /\ l ∈ ls.
Proof.
  induction ls as [|l ls IH]; cbn.
  - split; [by intros ?%elem_of_nil|]. by intros (? & _ & ?%elem_of_nil).
  - rewrite elem_of_app, IH. split.
    + intros [?|(l' & ? & ?)]; [exists l; split; [done|left]|exists l'; split; [done|by right]].
    + intros (l' & ? & [->|?]%elem_of_cons); [by left|right; by exists l'].
Qed.

Section DenylistCarsItems.
Import DenylistCars.
Variable P : Z.
Variable db : Db.t.
Variable fetchBucketKeys : string -> Result (list string).
Variable denylist : gset string.

Local Abbreviation cur w := (CurrentIDState.currentID (state w)).
Local Abbreviation pull := (DenylistCars.pull P db fetchBucketKeys denylist).
Local Abbreviation pipe := (DenylistCars.pipe P db fetchBucketKeys denylist).
Local Abbreviation listed_items := (DenylistCars.listed_items P db fetchBucketKeys denylist).
Local Abbreviation trace := (pages_enqueued P db fetchBucketKeys denylist).

(** [map] keeps the order of the page. *)
Lemma map_Forall2 (us : list Db.Upload) : forall items,
  map_ db fetchBucketKeys us = Ok items ->
  Forall2 (fun u item => mapper db fetchBucketKeys u = Ok item) us items.
Proof.
  induction us as [|u us IH]; intros items; cbn.
  - intros [= <-]. constructor.
  - destruct (mapper db fetchBucketKeys u) as [item|] eqn:Hitem; [|done]. cbn.
    destruct (map_ db fetchBucketKeys us) as [rest|]; [|done]. cbn.
    intros [= <-]. constructor; [done|]. by apply IH.
Qed.

Lemma trace_nil max w r rest :
  (r = Closed \/ r = Yielded -> rest = [] /\ r = Closed /\ max <= cur w) ->
  trace max w (mkWorld (state w) (disk w) (queried w ++ rest) (enqueued w)) r [].
Proof.
  intros Hr. unfold pages_enqueued. cbn. rewrite app_nil_r.
  split; [constructor|]. split; [done|]. split; [done|].
  split; [exists rest; split; [done|]; intros H; by apply Hr|].
  split; [intros _; lia|]. intros ->. apply Hr. by left.
Qed.

Lemma pull_trace fuel : forall max w w' r,
  pull fuel max w = (w', r) -> exists pages, trace max w w' r pages.
Proof.
  induction fuel as [|fuel IH]; intros max w w' r; cbn [DenylistCars.pull].
  - intros [= <- <-]. exists [].
    pose proof (trace_nil max w PullOutOfFuel []) as H.
    rewrite app_nil_r in H. destruct w. apply H. by intros [[=]|[=]].
  - case_bool_decide as Hmax.
    { intros [= <- <-]. exists [].
      pose proof (trace_nil max w Closed []) as H.
      rewrite app_nil_r in H. destruct w. apply H. intros _. cbn in *.
      split; [done|]. split; [done|]. lia. }
    destruct (listed_items (cur w)) as [items|] eqn:Hitems.
    2:{ intros [= <- <-]. exists []. apply trace_nil. by intros [[=]|[=]]. }
    cbn [disk queried enqueued state].
    assert (forall w1 r1,
              state w1 = CurrentIDState.mkState (cur w + P) ->
              queried w1 = queried w ++ [cur w] ->
              enqueued w1 = enqueued w ++ items ->
              r1 <> Closed ->
              trace max w w1 r1 [(cur w, items)]) as Hone.
    { intros w1 r1 Hs Hq He Hr1. unfold pages_enqueued. rewrite Hs, Hq, He. cbn.
      rewrite !app_nil_r.
      split; [constructor; [split; [cbn; lia|done]|constructor]|].
      split; [done|]. split; [done|].
      split; [by exists []|].
      split; [intros; lia|done]. }
    destruct (State.store _ _ _ _) as [d'|] eqn:Hstore.
    2:{ intros [= <- <-]. exists [(cur w, items)]. by apply Hone. }
    case_bool_decide as Hpushed; cbn [bool_decide].
    + intros [= <- <-]. exists [(cur w, items)]. by apply Hone.
    + intros Hpull.
      destruct (IH _ _ _ _ Hpull) as (pages & Hall & Hcs & Henq & Hq & Hcur & Hend).
      cbn [state CurrentIDState.currentID enqueued queried] in *.
      exists ((cur w, items) :: pages). unfold pages_enqueued.
      cbn [length fmap list_fmap fst snd concat cursors].
      split; [constructor; [split; [cbn; lia|done]|done]|].
      split; [by rewrite Hcs|].
      split; [by rewrite Henq, <- app_assoc|].
      split.
      { destruct Hq as (rest & Hq & Hrest). exists rest.
        rewrite Hq, <- !app_assoc. done. }
      split; [intros Hr; rewrite (Hcur Hr); lia|done].
Qed.

Lemma pipe_trace pulls : forall fuel max w w' r,
  pipe pulls fuel max w = (w', r) -> exists pages, trace max w w' r pages.
Proof.
  induction pulls as [|pulls IH]; intros fuel max w w' r; cbn [DenylistCars.pipe].
  - intros [= <- <-]. exists [].
    pose proof (trace_nil max w PullOutOfFuel []) as H.
    rewrite app_nil_r in H. destruct w. apply H. by intros [[=]|[=]].
  - destruct (pull fuel max w) as [w1 r1] eqn:Hpull.
    destruct (pull_trace _ _ _ _ _ Hpull)
      as (pages1 & Hall1 & Hcs1 & Henq1 & Hq1 & Hcur1 & Hend1).
    destruct r1; try (intros [= <- <-]; by exists pages1).
    intros Hpipe.
    destruct (IH _ _ _ _ _ Hpipe) as (pages2 & Hall2 & Hcs2 & Henq2 & Hq2 & Hcur2 & Hend2).
    specialize (Hcur1 (or_intror eq_refl)).
    destruct Hq1 as (rest1 & Hq1 & Hrest1). rewrite (Hrest1 (or_intror eq_refl)) in Hq1.
    rewrite app_nil_r in Hq1.
    exists (pages1 ++ pages2). unfold pages_enqueued.
    rewrite !fmap_app, concat_app, length_app.
    split; [by apply Forall_app|].
    split.
    { rewrite Hcs1, Hcs2, Hcur1. apply (cursors_app P). }
    split; [by rewrite Henq2, Henq1, <- app_assoc|].
    split.
    { destruct Hq2 as (rest2 & Hq2 & Hrest2). exists rest2.
      rewrite Hq2, Hq1, <- !app_assoc. done. }
    split; [intros Hr; rewrite (Hcur2 Hr), Hcur1; lia|done].
Qed.
End DenylistCarsItems.

(** X10. While no call of [pull] has thrown, whatever the stream of
    [denylist-cars.mjs] has enqueued is made from an upload of a page
    the script fetched whose source CID is deny-listed: every item has
    the user, the id and the source CID of that upload, the keys
    [fetchBucketKeys] gave for the source CID and the size
    [fetchTotalDagSize] gave for the content CID. *)
Theorem X10_every_item_is_of_a_listed_upload
    (P : Z) (db : Db.t) (fetchBucketKeys : string -> Result (list string))
    (denylist : gset string) (pulls fuel : nat) (d : Fs.t) :
  let run := DenylistCars.main P db fetchBucketKeys denylist pulls fuel d in
  (forall err, run.2 <> DenylistCars.Errored err) ->
  forall item, item ∈ DenylistCars.enqueued run.1 ->
    Denylist.isDenyListed denylist (DenylistCars.root item) = true
    /\ exists cursor uploads u,
         cursor ∈ DenylistCars.queried run.1
         /\ Db.fetchUploadsAfter db cursor P = Ok uploads
         /\ u ∈ uploads
         /\ DenylistCars.user item = Db.user_id u
         /\ DenylistCars.upload item = Db.id u
         /\ DenylistCars.root item = Db.source_cid u
         /\ fetchBucketKeys (Db.source_cid u) = Ok (DenylistCars.keys item)
         /\ DenylistCars.fetchTotalDagSize db [Db.content_cid u] = Ok (DenylistCars.size item).
Proof.
  intros run _ item. subst run. unfold DenylistCars.main.
  destruct (CurrentIDState.load_or_init _ _) as [state|]; cbn [fst];
    [|by intros ?%elem_of_nil].
  destruct (Db.fetchUploadIdRange db) as [range|]; cbn [fst];
    [|by intros ?%elem_of_nil].
  destruct (DenylistCars.pipe _ _ _ _ _ _ _ _) as [w' r] eqn:Hpipe. cbn [fst].
  destruct (pipe_trace _ _ _ _ _ _ _ _ _ _ Hpipe)
    as (pages & Hall & _ & Henq & (rest & Hq & _) & _).
  cbn in Henq, Hq. rewrite Henq, Hq.
  intros Hnew.
  apply elem_of_concat in Hnew as (items' & Hitems & Hpage).
  apply list_elem_of_fmap in Hpage as ([c items] & -> & Hpage). cbn in Hitems.
  rewrite Forall_forall in Hall. destruct (Hall _ Hpage) as [_ Hlisted]. cbn in *.
  unfold DenylistCars.listed_items in Hlisted.
  destruct (Db.fetchUploadsAfter db c P) as [uploads|] eqn:Huploads; [|done].
  cbn in Hlisted. apply map_Forall2 in Hlisted.
  apply list_elem_of_lookup in Hitems as [i Hi].
  destruct (Forall2_lookup_r _ _ _ _ _ Hlisted Hi) as (u & Hu & Hmap).
  apply list_elem_of_lookup_2, list_elem_of_filter in Hu as [Hdenied Hu].
  unfold DenylistCars.mapper in Hmap.
  destruct (fetchBucketKeys (Db.source_cid u)) as [keys|] eqn:Hkeys; [|done].
  cbn in Hmap.
  destruct (DenylistCars.fetchTotalDagSize db [Db.content_cid u]) as [size|] eqn:Hsize;
    [|done].
  injection Hmap as <-. cbn. split; [done|].
  exists c, uploads, u. repeat split; try done.
  apply elem_of_app. left. apply list_elem_of_fmap. by exists (c, items).
Qed.

Lemma X10_every_item_is_of_a_listed_upload_witness :
  Denylist.isDenyListed Examples.denylist
    (DenylistCars.root (DenylistCars.mkItem 1 15000 "b" [] 20)) = true
  /\ exists cursor uploads u,
       cursor ∈ DenylistCars.queried
                  (DenylistCars.main 10000 Examples.db Examples.no_keys Examples.denylist
                     5 5 ∅).1
       /\ Db.fetchUploadsAfter Examples.db cursor 10000 = Ok uploads
       /\ u ∈ uploads
       /\ DenylistCars.user (DenylistCars.mkItem 1 15000 "b" [] 20) = Db.user_id u
       /\ DenylistCars.upload (DenylistCars.mkItem 1 15000 "b" [] 20) = Db.id u
       /\ DenylistCars.root (DenylistCars.mkItem 1 15000 "b" [] 20) = Db.source_cid u
       /\ Examples.no_keys (Db.source_cid u)
          = Ok (DenylistCars.keys (DenylistCars.mkItem 1 15000 "b" [] 20))
       /\ DenylistCars.fetchTotalDagSize Examples.db [Db.content_cid u]
          = Ok (DenylistCars.size (DenylistCars.mkItem 1 15000 "b" [] 20)).
Proof.
  refine (X10_every_item_is_of_a_listed_upload 10000 Examples.db Examples.no_keys
            Examples.denylist 5 5 ∅ _ (DenylistCars.mkItem 1 15000 "b" [] 20) _).
  - intros err. vm_compute. discriminate.
  - vm_compute. left.
Defined.

(** X11. A stream of [denylist-cars.mjs] that closes has emitted, for
    every upload between the cursor it began with and the cursor it
    ends with whose source CID is deny-listed, an item with the id, the
    user and the source CID of that upload (ids being unique); and no
    upload has an id behind the final cursor. *)
Theorem X11_closed_stream_has_emitted_every_listed_upload
    (upload : list Db.Upload) (dags : list (string * Z)) (P : Z)
    (fetchBucketKeys : string -> Result (list string)) (denylist : gset string)
    (pulls fuel : nat) (d : Fs.t) (state : CurrentIDState.State) (w' : DenylistCars.World) :
  0 < P ->
  NoDup (Db.id <$> upload) ->
  CurrentIDState.load_or_init DenylistCars.statePath d = Ok state ->
  DenylistCars.main P (Db.of_tables upload dags) fetchBucketKeys denylist pulls fuel d
  = (w', DenylistCars.Closed) ->
  forall u, u ∈ upload ->
    Db.id u <= CurrentIDState.currentID (DenylistCars.state w')
    /\ (CurrentIDState.currentID state <= Db.id u
          < CurrentIDState.currentID (DenylistCars.state w') ->
        Denylist.isDenyListed denylist (Db.source_cid u) = true ->
        exists item,
          item ∈ DenylistCars.enqueued w'
          /\ DenylistCars.upload item = Db.id u
          /\ DenylistCars.user item = Db.user_id u
          /\ DenylistCars.root item = Db.source_cid u).
Proof.
  intros HP Hnodup Hload Hmain u Hu. unfold DenylistCars.main in Hmain.
  rewrite Hload in Hmain.
  destruct (fetchUploadIdRange_of_tables upload dags) as (min & max & Hrange & Hbounds & _).
  { intros ->. by apply elem_of_nil in Hu. }
  rewrite Hrange in Hmain. cbn [snd] in Hmain.
  destruct (pipe_trace P (Db.of_tables upload dags) fetchBucketKeys denylist
              pulls fuel max _ w' _ Hmain)
    as (pages & Hall & Hcs & Henq & _ & Hcur & Hend).
  specialize (Hcur (or_introl eq_refl)). specialize (Hend eq_refl). cbn in Hcur, Henq, Hcs.
  split; [specialize (Hbounds u Hu); lia|].
  intros Hid Hdenied.
  set (c0 := CurrentIDState.currentID state) in *.
  set (j := (Db.id u - c0) / P).
  assert (0 <= j) by (apply Z.div_pos; lia).
  assert (P * j <= Db.id u - c0 < P * j + P) as Hj.
  { pose proof (Z.mul_div_le (Db.id u - c0) P HP) as Hlo.
    pose proof (Z.mul_succ_div_gt (Db.id u - c0) P HP) as Hhi. fold j in Hlo, Hhi. lia. }
  assert (Z.to_nat j < length pages)%nat as Hlt by nia.
  destruct (lookup_lt_is_Some_2 pages (Z.to_nat j) Hlt) as [[c items] Hpage].
  assert (c = c0 + P * j) as ->.
  { assert ((fst <$> pages) !! Z.to_nat j = Some c) as Hc
      by (by rewrite list_lookup_fmap, Hpage).
    rewrite Hcs, (cursors_lookup P) in Hc by done. injection Hc as <-. lia. }
  rewrite Forall_forall in Hall.
  destruct (Hall _ (list_elem_of_lookup_2 _ _ _ Hpage)) as [_ Hlisted]. cbn in Hlisted.
  unfold DenylistCars.listed_items in Hlisted. cbn in Hlisted.
  apply map_Forall2 in Hlisted.
  assert (u ∈ filter (fun u => Denylist.isDenyListed denylist (Db.source_cid u) = true)
                (Db.select_uploads_after upload (c0 + P * j) P)) as Hin.
  { apply list_elem_of_filter. split; [done|]. apply window_in_page; [done..|lia]. }
  apply list_elem_of_lookup in Hin as [i Hi].
  destruct (Forall2_lookup_l _ _ _ _ _ Hlisted Hi) as (item & Hitem & Hmap).
  exists item. split.
  - rewrite Henq. apply elem_of_concat. exists items. split.
    + by apply list_elem_of_lookup_2 in Hitem.
    + apply list_elem_of_fmap. exists (c0 + P * j, items). split; [done|].
      by apply list_elem_of_lookup_2 in Hpage.
  - unfold DenylistCars.mapper in Hmap.
    destruct (fetchBucketKeys (Db.source_cid u)); [|done].
    cbn [mbind Result_bind] in Hmap.
    destruct (DenylistCars.fetchTotalDagSize _ _); [|done]. by injection Hmap as <-.
Qed.

Lemma X11_closed_stream_has_emitted_every_listed_upload_witness :
  Db.id (Examples.upload_at 15000 "b" 2023 4) <= 20000
  /\ (0 <= Db.id (Examples.upload_at 15000 "b" 2023 4) < 20000 ->
      Denylist.isDenyListed Examples.denylist
        (Db.source_cid (Examples.upload_at 15000 "b" 2023 4)) = true ->
      exists item,
        item ∈ DenylistCars.enqueued
                 (DenylistCars.main 10000 Examples.db Examples.no_keys Examples.denylist
                    5 5 ∅).1
        /\ DenylistCars.upload item = Db.id (Examples.upload_at 15000 "b" 2023 4)
        /\ DenylistCars.user item = Db.user_id (Examples.upload_at 15000 "b" 2023 4)
        /\ DenylistCars.root item = Db.source_cid (Examples.upload_at 15000 "b" 2023 4)).
Proof.
  refine (X11_closed_stream_has_emitted_every_listed_upload Examples.uploads Examples.dags
            10000 Examples.no_keys Examples.denylist 5 5 ∅ (CurrentIDState.mkState 0)
            (DenylistCars.main 10000 Examples.db Examples.no_keys Examples.denylist 5 5 ∅).1
            _ _ _ _ (Examples.upload_at 15000 "b" 2023 4) _).
  - lia.
  - vm_compute. apply NoDup_cons. split; [|apply NoDup_singleton].
    by intros [=]%list_elem_of_singleton.
  - reflexivity.
  - vm_compute. reflexivity.
  - left.
Defined.

(** ** What an export hands on *)

Section ExportOutput.
Import ExportCars.

Lemma await_next_arrival next s s' a :
  await_next next s = Some (s', a) ->
  totalBytes s' = totalBytes s
  /\ (a = Reject AbortError \/ exists delay, next = Some (delay, a)).
Proof.
  unfold await_next. destruct (aborted s).
  - intros [= <- <-]. split; [done|by left].
  - destruct next as [[delay a0]|], (timer s) as [deadline|]; try done.
    + case_bool_decide; intros [= <- <-]; (split; [done|]); [by left|right; by eexists].
    + intros [= <- <-]. split; [done|]. right; by eexists.
    + intros [= <- <-]. split; [done|by left].
Qed.

Lemma elapse_totalBytes dt s : totalBytes (elapse dt s) = totalBytes s.
Proof. unfold elapse. destruct (timer s); [case_bool_decide|]; done. Qed.

Lemma size_of_cons b out : size_of (b :: out) = Z.of_nat (length (bytes b)) + size_of out.
Proof. done. Qed.

Lemma handed_on_nil arrivals s s' out exit :
  totalBytes s' = totalBytes s ->
  (exit = ExitClosed -> exists delay, head arrivals = Some (delay, Done)) ->
  handed_on arrivals s s' out out exit.
Proof.
  intros Htotal Hexit. exists []. rewrite app_nil_r. cbn.
  split; [done|]. split; [done|]. split; [unfold size_of; cbn; lia|].
  intros [delay Hd]%Hexit. exists delay. by destruct arrivals.
Qed.

Lemma pulls_output arrivals : forall demands s out s' out' exit,
  pulls arrivals demands s out = (s', out', exit) ->
  handed_on arrivals s s' out out' exit.
Proof.
  induction arrivals as [|[delay0 a0] arrivals IH]; intros demands s out s' out' exit.
  - destruct demands as [|[busy|] demands]; cbn [pulls head tail].
    3:{ intros [= <- <- <-]. by apply handed_on_nil. }
    all: destruct (await_next _ _) as [[s1 a]|] eqn:Hnext.
    all: try (intros [= <- <- <-]; apply handed_on_nil;
              [apply elapse_totalBytes|done]).
    all: destruct (await_next_arrival _ _ _ _ Hnext) as [Htotal [->|[? [=]]]].
    all: intros [= <- <- <-]; apply handed_on_nil;
           [cbn; by rewrite Htotal, elapse_totalBytes|done].
  - destruct demands as [|[busy|] demands]; cbn [pulls head tail].
    3:{ intros [= <- <- <-]. by apply handed_on_nil. }
    all: destruct (await_next _ _) as [[s1 a]|] eqn:Hnext.
    all: try (intros [= <- <- <-]; apply handed_on_nil;
              [apply elapse_totalBytes|done]).
    all: destruct (await_next_arrival _ _ _ _ Hnext) as [Htotal Ha].
    all: destruct a as [value| |err].
    all: try (intros [= <- <- <-]; apply handed_on_nil;
              [cbn; by rewrite Htotal, elapse_totalBytes|];
              try done; intros _; destruct Ha as [[=]|[d [= -> ->]]]; by eexists).
    all: destruct Ha as [[=]|[d [= -> ->]]].
    all: intros Hrest; apply IH in Hrest as (new & -> & Hvals & Hbytes & Hclosed).
    all: exists (value :: new); cbn [length take fmap list_fmap snd];
         rewrite <- app_assoc; cbn [app];
         split; [done|]; split; [by rewrite <- Hvals|];
         split; [|done].
    all: cbn in Hbytes; rewrite Hbytes, Htotal, elapse_totalBytes, size_of_cons; lia.
Qed.
End ExportOutput.

(** X12. The blocks [exportDAG] enqueues are the blocks the peer sent,
    from the first one on, in the order they arrived, none left out and
    none twice; [totalBytes] is the sum of their lengths.  The stream
    closes only when the peer has said that it is done, after the last
    of these blocks; when the dial fails nothing is enqueued and the
    stream fails with the error of the dial. *)
Theorem X12_export_hands_on_the_blocks_in_order
    (t : ExportCars.Transfer) (demands : list ExportCars.Demand) :
  let run := ExportCars.exportDAG t demands in
  let s := run.1.1 in
  let out := run.1.2 in
  let exit := run.2 in
  ExportCars.Value <$> out = snd <$> take (length out) (ExportCars.arrivals t)
  /\ ExportCars.totalBytes s = size_of out
  /\ (exit = ExportCars.ExitClosed ->
      exists delay,
        ExportCars.arrivals t !! length out = Some (delay, ExportCars.Done))
  /\ (forall err, ExportCars.dial t = Throw err ->
        out = [] /\ exit = ExportCars.ExitErrored err).
Proof.
  intros run s out exit. subst s out exit run. unfold ExportCars.exportDAG.
  destruct (ExportCars.dial t) as [[]|err0] eqn:Hdial; cbn [fst snd].
  - destruct (ExportCars.pulls _ _ _ _) as [[s' out'] exit'] eqn:Hpulls. cbn [fst snd].
    apply pulls_output in Hpulls as (new & -> & Hvals & Hbytes & Hclosed).
    cbn [app]. split; [done|]. split; [|split; [done|by intros ? [=]]].
    by rewrite Hbytes, elapse_totalBytes.
  - split; [done|]. split; [by rewrite elapse_totalBytes|].
    split; [done|]. by intros err [= <-].
Qed.

Lemma X12_export_hands_on_the_blocks_in_order_witness :
  exists delay,
    [(100%nat, ExportCars.Value Examples.block1); (200%nat, ExportCars.Value Examples.block2);
     (50%nat, ExportCars.Done)]
    !! length (ExportCars.exportDAG
                 (ExportCars.mkTransfer 10 (Ok ())
                    [(100%nat, ExportCars.Value Examples.block1);
                     (200%nat, ExportCars.Value Examples.block2);
                     (50%nat, ExportCars.Done)]) []).1.2
    = Some (delay, ExportCars.Done).
Proof.
  refine (proj1 (proj2 (proj2 (X12_export_hands_on_the_blocks_in_order
            (ExportCars.mkTransfer 10 (Ok ())
               [(100%nat, ExportCars.Value Examples.block1);
                (200%nat, ExportCars.Value Examples.block2);
                (50%nat, ExportCars.Done)]) []))) _).
  vm_compute. reflexivity.
Defined.

(** ** The shuffle, the extractor and the verification *)

(** X13. [shuffle] gives back the elements of the array, each as often
    as it was in it, whatever [Math.random] returns; so the array keeps
    its length. *)
Theorem X13_shuffle_keeps_the_elements {T : Type} (random : nat -> nat) (array : list T) :
  ExportCars.shuffle random array ≡ₚ array
  /\ length (ExportCars.shuffle random array) = length array.
Proof.
  pose proof (shuffle_Permutation random array) as Hperm.
  split; [done|]. by rewrite Hperm.
Qed.

Section Leftovers.
Import ExportCars.
Context {Indexer : Type}.
Variable new_indexer : Indexer.
Variable decodeAndIndex : Indexer -> Block -> Result Indexer.
Variable report : Indexer -> Result Structure.
Variable Link_parse : string -> Result CID.
Variable network : string -> CID -> Transfer.
Variable random : nat -> nat.

Local Abbreviation index_blocks := (ExportCars.index_blocks decodeAndIndex).
Local Abbreviation verifyDAG := (ExportCars.verifyDAG new_indexer decodeAndIndex report).
Local Abbreviation attempt := (ExportCars.attempt new_indexer decodeAndIndex report network).
Local Abbreviation try_peers :=
  (ExportCars.try_peers new_indexer decodeAndIndex report Link_parse network).

Lemma index_blocks_app before : forall rest indexer events events' indexer',
  index_blocks indexer before events = (events', Ok indexer') ->
  index_blocks indexer (before ++ rest) events = index_blocks indexer' rest events'.
Proof.
  induction before as [|b before IH]; intros rest indexer events events' indexer'; cbn.
  - by intros [= <- <-].
  - destruct (decodeAndIndex indexer b) as [indexer1|]; [|done]. apply IH.
Qed.

(** An attempt that goes through has written the blocks of an export
    that closed, under the root, and has verified that file. *)
Lemma attempt_ok peer root destPath fs fs' :
  attempt peer root destPath fs = (fs', Ok ()) ->
  exists s out,
    exportDAG (network peer root) [] = (s, out, ExitClosed)
    /\ fs' = <[destPath := mkCar [root] out]> fs
    /\ (verifyDAG root destPath fs').2 = Ok ().
Proof.
  unfold ExportCars.attempt.
  destruct (exportDAG (network peer root) []) as [[s out] exit].
  destruct exit; try done. intros [= <- Hverify]. by exists s, out.
Qed.

Lemma try_peers_emitted peers : forall upload t t',
  try_peers peers upload t = Ok t' ->
  emitted t' = emitted t
  \/ exists peer root fs,
       peer ∈ peers
       /\ last (attempted t') = Some peer
       /\ Link_parse (Db.content_cid upload) = Ok root
       /\ attempt peer root ("./out/contents/" +:+ Db.content_cid upload +:+ ".car") fs
          = (files t', Ok ())
       /\ emitted t'
          = Some (mkLocalUpload upload
                    ("./out/contents/" +:+ Db.content_cid upload +:+ ".car")).
Proof.
  induction peers as [|peer peers IH]; intros upload t t'; cbn [ExportCars.try_peers].
  - intros [= <-]. by left.
  - destruct (Link_parse (Db.content_cid upload)) as [root|] eqn:Hroot; [|done].
    cbn [mbind Result_bind].
    destruct (attempt peer root _ (files t)) as [fs [[]|err]] eqn:Hattempt.
    + intros [= <-]. right. exists peer, root, (files t). cbn.
      split; [left|]. split; [by rewrite last_snoc|]. done.
    + intros Hrest. destruct (IH _ _ _ Hrest) as [Hsame|(p & r & fs0 & Hp & Hrest')].
      * left. exact Hsame.
      * right. exists p, r, fs0. rewrite Hroot in Hrest'. split; [by right|done].
Qed.
End Leftovers.

(** X14. What [getContentExtractor] enqueues has been verified: the
    upload comes with the path [./out/contents/<content_cid>.car]; the
    file at it was written by the last peer tried, whose export
    closed, holds the blocks of that export under the parsed content
    CID as its one root, and [verifyDAG] accepts it.  When [Link.parse]
    rejects the content CID, [transform] throws its error. *)
Theorem X14_what_is_enqueued_has_been_verified
    {Indexer : Type} (new_indexer : Indexer)
    (decodeAndIndex : Indexer -> ExportCars.Block -> Result Indexer)
    (report : Indexer -> Result ExportCars.Structure)
    (Link_parse : string -> Result ExportCars.CID)
    (network : string -> ExportCars.CID -> ExportCars.Transfer)
    (random : nat -> nat) (upload : Db.Upload) (fs : gmap string ExportCars.Car) :
  let run := ExportCars.transform new_indexer decodeAndIndex report Link_parse network
               random upload fs in
  (forall t item,
     run = Ok t ->
     ExportCars.emitted t = Some item ->
     exists peer root s out,
       ExportCars.upload item = upload
       /\ ExportCars.path item = ("./out/contents/" +:+ Db.content_cid upload +:+ ".car")%string
       /\ Link_parse (Db.content_cid upload) = Ok root
       /\ last (ExportCars.attempted t) = Some peer
       /\ ExportCars.exportDAG (network peer root) [] = (s, out, ExportCars.ExitClosed)
       /\ ExportCars.files t !! ExportCars.path item = Some (ExportCars.mkCar [root] out)
       /\ (ExportCars.verifyDAG new_indexer decodeAndIndex report root
             (ExportCars.path item) (ExportCars.files t)).2 = Ok ())
  /\ (forall err, Link_parse (Db.content_cid upload) = Throw err -> run = Throw err).
Proof.
  intros run. subst run. unfold ExportCars.transform. split.
  - intros t item Hrun Hitem.
    destruct (try_peers_emitted _ _ _ _ _ _ _ _ _ Hrun) as [Hsame|(p & r & fs0 & _ & Hlast & Hroot & Hattempt & Hem)].
    { rewrite Hitem in Hsame. done. }
    rewrite Hitem in Hem. injection Hem as ->.
    apply attempt_ok in Hattempt as (s & out & Hexport & Hfiles & Hverify).
    exists p, r, s, out. cbn [ExportCars.upload ExportCars.path].
    repeat split; try done. rewrite Hfiles. apply lookup_insert_eq.
  - intros err Hroot.
    pose proof (shuffle_Permutation random ExportCars.PEERS) as Hperm.
    destruct (ExportCars.shuffle random ExportCars.PEERS) as [|peer peers].
    + by apply Permutation_nil_l in Hperm.
    + cbn [ExportCars.try_peers]. by rewrite Hroot.
Qed.

Lemma X14_what_is_enqueued_has_been_verified_witness :
  exists peer root s out,
    ExportCars.upload
      (ExportCars.mkLocalUpload (Examples.upload_at 1 "bafyroot" 2023 4)
         "./out/contents/bafyroot.car") = Examples.upload_at 1 "bafyroot" 2023 4
    /\ ExportCars.path
         (ExportCars.mkLocalUpload (Examples.upload_at 1 "bafyroot" 2023 4)
            "./out/contents/bafyroot.car")
       = ("./out/contents/" +:+ Db.content_cid (Examples.upload_at 1 "bafyroot" 2023 4)
          +:+ ".car")%string
    /\ Examples.Link_parse (Db.content_cid (Examples.upload_at 1 "bafyroot" 2023 4)) = Ok root
    /\ last (ExportCars.attempted
               (ExportCars.mkTransformed (drop 1 ExportCars.PEERS)
                  [("failed to bitswap bafyroot from " +:+ default "" (ExportCars.PEERS !! 1%nat)
                    +:+ ": failed verification: non-complete DAG: Partial")%string]
                  (Some (ExportCars.mkLocalUpload (Examples.upload_at 1 "bafyroot" 2023 4)
                           "./out/contents/bafyroot.car"))
                  {[ "./out/contents/bafyroot.car"%string
                     := ExportCars.mkCar ["bafyroot"%string]
                          [Examples.block1; Examples.block2] ]})) = Some peer
    /\ ExportCars.exportDAG (Examples.network peer root) [] = (s, out, ExportCars.ExitClosed)
    /\ ({[ "./out/contents/bafyroot.car"%string
           := ExportCars.mkCar ["bafyroot"%string] [Examples.block1; Examples.block2] ]}
        : gmap string ExportCars.Car) !! "./out/contents/bafyroot.car"%string
       = Some (ExportCars.mkCar [root] out)
    /\ (ExportCars.verifyDAG [] Examples.decodeAndIndex Examples.report root
          "./out/contents/bafyroot.car"
          ({[ "./out/contents/bafyroot.car"%string
              := ExportCars.mkCar ["bafyroot"%string] [Examples.block1; Examples.block2] ]}
           : gmap string ExportCars.Car)).2 = Ok ().
Proof.
  refine (proj1 (X14_what_is_enqueued_has_been_verified [] Examples.decodeAndIndex
            Examples.report Examples.Link_parse Examples.network (fun _ => O)
            (Examples.upload_at 1 "bafyroot" 2023 4) ∅)
            (ExportCars.mkTransformed (drop 1 ExportCars.PEERS)
                  [("failed to bitswap bafyroot from " +:+ default "" (ExportCars.PEERS !! 1%nat)
                    +:+ ": failed verification: non-complete DAG: Partial")%string]
                  (Some (ExportCars.mkLocalUpload (Examples.upload_at 1 "bafyroot" 2023 4)
                           "./out/contents/bafyroot.car"))
                  {[ "./out/contents/bafyroot.car"%string
                     := ExportCars.mkCar ["bafyroot"%string]
                          [Examples.block1; Examples.block2] ]})
            (ExportCars.mkLocalUpload (Examples.upload_at 1 "bafyroot" 2023 4)
               "./out/contents/bafyroot.car") _ _).
  - vm_compute. reflexivity.
  - reflexivity.
Defined.

(** X15. [verifyDAG] stops at the first block the indexer rejects: the
    blocks before it and the block itself have been handed to
    [decodeAndIndex], no later block, the header is not looked at and
    no report is asked for; the error is [failed indexing: ...] with the
    error of the indexer as its cause.  A file that does not exist
    fails in the same way, with nothing indexed. *)
Theorem X15_verifyDAG_stops_at_the_first_bad_block
    {Indexer : Type} (new_indexer : Indexer)
    (decodeAndIndex : Indexer -> ExportCars.Block -> Result Indexer)
    (report : Indexer -> Result ExportCars.Structure)
    (root : ExportCars.CID) (path : string) (files : gmap string ExportCars.Car) :
  let verified := ExportCars.verifyDAG new_indexer decodeAndIndex report root path files in
  (forall car before b after indexer err,
     files !! path = Some car ->
     ExportCars.blocks car = before ++ b :: after ->
     ExportCars.index_blocks decodeAndIndex new_indexer before []
     = (ExportCars.Indexed <$> before, Ok indexer) ->
     decodeAndIndex indexer b = Throw err ->
     verified
     = (ExportCars.Indexed <$> before ++ [b],
        Throw (Caused ("failed indexing: " +:+ message_of err) err)))
  /\ (files !! path = None ->
      verified
      = ([], Throw (Caused ("failed indexing: " +:+ message_of (SysError "ENOENT"))
                      (SysError "ENOENT")))).
Proof.
  intros verified. subst verified. unfold ExportCars.verifyDAG, ExportCars.indexing. split.
  - intros car before b after indexer err -> Hblocks Hbefore Hb.
    rewrite Hblocks, (index_blocks_app decodeAndIndex before _ _ _ _ _ Hbefore).
    cbn [ExportCars.index_blocks]. rewrite Hb. by rewrite fmap_app.
  - by intros ->.
Qed.

Lemma X15_verifyDAG_stops_at_the_first_bad_block_witness :
  ExportCars.verifyDAG ([] : list ExportCars.Block)
    (fun indexer b => if bool_decide (ExportCars.cid b = "bafyleaf"%string)
                      then Throw (JsError "unknown codec")
                      else Ok (indexer ++ [b]))
    Examples.report "bafyroot" "a.car"
    {[ "a.car"%string
       := ExportCars.mkCar ["bafyroot"%string]
            [Examples.block1; Examples.block2; Examples.block1] ]}
  = (ExportCars.Indexed <$> [Examples.block1] ++ [Examples.block2],
     Throw (Caused ("failed indexing: " +:+ message_of (JsError "unknown codec"))
              (JsError "unknown codec"))).
Proof.
  refine (proj1 (X15_verifyDAG_stops_at_the_first_bad_block ([] : list ExportCars.Block)
            (fun indexer b => if bool_decide (ExportCars.cid b = "bafyleaf"%string)
                              then Throw (JsError "unknown codec")
                              else Ok (indexer ++ [b]))
            Examples.report "bafyroot" "a.car"
            {[ "a.car"%string
               := ExportCars.mkCar ["bafyroot"%string]
                    [Examples.block1; Examples.block2; Examples.block1] ]})
            (ExportCars.mkCar ["bafyroot"%string]
               [Examples.block1; Examples.block2; Examples.block1])
            [Examples.block1] Examples.block2 [Examples.block1] [Examples.block1]
            (JsError "unknown codec") _ _ _ _).
  - reflexivity.
  - reflexivity.
  - reflexivity.
  - reflexivity.
Defined.

(** ** The pages of sync-denylist.mjs *)

Section SyncDenylistFacts.
Import SyncDenylist.
Variable fetchPage : string -> Result Page.

Local Abbreviation pull := (SyncDenylist.pull fetchPage).
Local Abbreviation pulls := (SyncDenylist.pulls fetchPage).
Local Abbreviation listed := (pages_listed fetchPage).

Lemma sync_saveState_loadState st d d' : saveState st d = Ok d' -> loadState d' = Ok st.
Proof.
  unfold saveState, loadState. intros Hw.
  rewrite (writeFile_readFile _ _ _ _ Hw).
  cbn -[Fs.of_utf8 Fs.utf8 Json.parse Json.stringify].
  rewrite of_utf8_utf8, parse_stringify. cbn. by destruct st.
Qed.

Lemma pull_listed w w' r :
  pull w = (w', r) ->
  exists pages,
    listed w w' r pages
    /\ (r = Returned ->
        exists p, pages = [(cursor (state w), p)] /\ result_info_cursor p <> ""%string).
Proof.
  unfold SyncDenylist.pull. cbn [state disk requested enqueued].
  destruct (fetchPage (cursor (state w))) as [page|err] eqn:Hpage.
  2:{ intros [= <- <-]. exists []. unfold pages_listed. cbn. rewrite app_nil_r.
      split; [|done]. split; [done|]. split; [done|].
      split; [exists [cursor (state w)]; split; [done|by intros [[=]|[=]]]|].
      split; done. }
  assert (forall w1 r1,
            enqueued w1 = enqueued w ++ result page ->
            requested w1 = requested w ++ [cursor (state w)] ->
            (r1 = Returned -> cursor (state w1) = result_info_cursor page) ->
            (r1 = Closed -> result_info_cursor page = ""%string /\ state w1 = state w) ->
            listed w w1 r1 [(cursor (state w), page)]) as Hone.
  { intros w1 r1 Henq Hreq Hret Hcl. unfold pages_listed. cbn. rewrite app_nil_r.
    split; [done|]. split; [done|]. split; [by exists []|]. split; [done|].
    intros Hr. destruct (Hcl Hr) as [? ->]. done. }
  case_bool_decide as Hcursor.
  - intros [= <- <-]. exists [(cursor (state w), page)]. split; [|done].
    by apply Hone.
  - destruct (saveState _ _) as [d'|err].
    + intros [= <- <-]. exists [(cursor (state w), page)]. split; [by apply Hone|].
      intros _. by exists page.
    + intros [= <- <-]. exists [(cursor (state w), page)]. split; [by apply Hone|done].
Qed.

Lemma listed_nil w : listed w w Returned [].
Proof.
  unfold pages_listed. cbn. rewrite !app_nil_r.
  split; [done|]. split; [done|]. split; [exists []; by rewrite app_nil_r|]. split; done.
Qed.

Lemma pulls_listed n : forall w w' r,
  pulls n w = (w', r) -> exists pages, listed w w' r pages.
Proof.
  induction n as [|n IH]; intros w w' r; cbn [SyncDenylist.pulls].
  - intros [= <- <-]. exists []. apply listed_nil.
  - destruct (pull w) as [w1 r1] eqn:Hpull.
    destruct (pull_listed _ _ _ Hpull) as (pages1 & Hlisted1 & Hone).
    destruct r1; try (intros [= <- <-]; by exists pages1).
    intros Hpulls. destruct (IH _ _ _ Hpulls) as (pages2 & Hl2 & Henq2 & Hreq2 & Hret2 & Hcl2).
    destruct (Hone eq_refl) as (p1 & -> & Hp1).
    destruct Hlisted1 as (Hl1 & Henq1 & (rest1 & Hreq1 & Hrest1) & Hret1 & _).
    specialize (Hret1 eq_refl). rewrite (Hrest1 (or_intror eq_refl)) in Hreq1.
    cbn in Hl1, Henq1, Hreq1, Hret1. rewrite app_nil_r in Henq1.
    exists ((cursor (state w), p1) :: pages2). unfold pages_listed.
    cbn [linked after fmap list_fmap concat fst snd].
    rewrite <- Hret1.
    split; [split; [done|]; split; [apply Hl1|]; split; [intros _; by rewrite Hret1|done]|].
    split; [by rewrite Henq2, Henq1, <- app_assoc|].
    split.
    { destruct Hreq2 as (rest2 & Hreq2 & Hrest2). exists rest2.
      rewrite Hreq2, Hreq1, <- !app_assoc. done. }
    split; [done|].
    intros Hr. destruct (Hcl2 Hr) as [Hafter Hlast]. split; [done|].
    destruct pages2; [done|]. done.
Qed.

(** While no pull fails the state file holds the state. *)
Lemma pulls_disk n : forall w w' r,
  loadState (disk w) = Ok (state w) ->
  pulls n w = (w', r) ->
  r = Closed \/ r = Returned ->
  loadState (disk w') = Ok (state w').
Proof.
  induction n as [|n IH]; intros w w' r Hdisk; cbn [SyncDenylist.pulls].
  - by intros [= <- <-].
  - unfold SyncDenylist.pull. cbn [state disk requested enqueued].
    destruct (fetchPage (cursor (state w))) as [page|err].
    2:{ intros [= <- <-] [[=]|[=]]. }
    case_bool_decide as Hcursor.
    + by intros [= <- <-].
    + destruct (saveState _ _) as [d'|err] eqn:Hsave.
      * apply IH. cbn. by apply sync_saveState_loadState in Hsave.
      * intros [= <- <-] [[=]|[=]].
Qed.
End SyncDenylistFacts.

Lemma linked_last (fetchPage : string -> Result SyncDenylist.Page) pages :
  forall c c' p,
    SyncDenylist.linked fetchPage c pages ->
    last pages = Some (c', p) ->
    fetchPage c' = Ok p
    /\ SyncDenylist.after c pages = SyncDenylist.result_info_cursor p.
Proof.
  induction pages as [|[c1 p1] pages IH]; intros c c' p; [done|].
  cbn [SyncDenylist.linked SyncDenylist.after]. intros (-> & Hp1 & _ & Hrest).
  destruct pages as [|cp pages].
  - by intros [= <- <-].
  - intros Hlast. by apply (IH _ _ _ Hrest).
Qed.

Lemma main_listed
    (fetchPage : string -> Result SyncDenylist.Page) (n : nat) (d : Fs.t)
    (state : SyncDenylist.State) (w' : SyncDenylist.World) (r : SyncDenylist.Pulled) :
  SyncDenylist.loadState d = Ok state ->
  SyncDenylist.main fetchPage n d = (w', r) ->
  exists pages : list (string * SyncDenylist.Page),
    SyncDenylist.linked fetchPage (SyncDenylist.cursor state) pages
    /\ SyncDenylist.enqueued w' = concat ((fun p => SyncDenylist.result p.2) <$> pages)
    /\ (r = SyncDenylist.Closed \/ r = SyncDenylist.Returned ->
        SyncDenylist.requested w' = fst <$> pages
        /\ SyncDenylist.loadState (SyncDenylist.disk w') = Ok (SyncDenylist.state w'))
    /\ (r = SyncDenylist.Returned ->
        SyncDenylist.cursor (SyncDenylist.state w')
        = SyncDenylist.after (SyncDenylist.cursor state) pages)
    /\ (r = SyncDenylist.Closed ->
        SyncDenylist.after (SyncDenylist.cursor state) pages = ""%string
        /\ last (fst <$> pages) = Some (SyncDenylist.cursor (SyncDenylist.state w'))).
Proof.
  intros Hload Hmain. unfold SyncDenylist.main in Hmain. rewrite Hload in Hmain.
  destruct (pulls_listed _ _ _ _ _ Hmain)
    as (pages & Hl & Henq & (rest & Hreq & Hrest) & Hret & Hcl).
  exists pages. cbn in Hl, Henq, Hreq, Hret, Hcl.
  split; [done|]. split; [done|]. split; [|done].
  intros Hr. rewrite (Hrest Hr), app_nil_r in Hreq. split; [done|].
  by apply (pulls_disk fetchPage n (SyncDenylist.mkWorld state d [] []) w' r).
Qed.

(** X16. The names [sync-denylist.mjs] emits are the names of the pages
    of the listing, page after page and each page once: the first page
    is asked for with the cursor of the state file (the empty cursor
    when there is none), every other one with the cursor the page
    before it gave.  The stream closes at the first page that gives no
    cursor and leaves the cursor that page was asked for with in the
    state; while no pull fails, the state file holds the state. *)
Theorem X16_names_follow_the_cursors
    (fetchPage : string -> Result SyncDenylist.Page) (n : nat) (d : Fs.t)
    (state : SyncDenylist.State) (w' : SyncDenylist.World) (r : SyncDenylist.Pulled) :
  SyncDenylist.loadState d = Ok state ->
  SyncDenylist.main fetchPage n d = (w', r) ->
  exists pages : list (string * SyncDenylist.Page),
    SyncDenylist.linked fetchPage (SyncDenylist.cursor state) pages
    /\ SyncDenylist.enqueued w' = concat ((fun p => SyncDenylist.result p.2) <$> pages)
    /\ (r = SyncDenylist.Closed \/ r = SyncDenylist.Returned ->
        SyncDenylist.requested w' = fst <$> pages
        /\ SyncDenylist.loadState (SyncDenylist.disk w') = Ok (SyncDenylist.state w'))
    /\ (r = SyncDenylist.Returned ->
        SyncDenylist.cursor (SyncDenylist.state w')
        = SyncDenylist.after (SyncDenylist.cursor state) pages)
    /\ (r = SyncDenylist.Closed ->
        SyncDenylist.after (SyncDenylist.cursor state) pages = ""%string
        /\ last (fst <$> pages) = Some (SyncDenylist.cursor (SyncDenylist.state w'))).
Proof. apply main_listed. Qed.

Lemma X16_names_follow_the_cursors_witness :
  let fetchPage (c : string) :=
    if bool_decide (c = ""%string)
    then Ok (SyncDenylist.mkPage ["a"%string; "b"%string] "next")
    else Ok (SyncDenylist.mkPage ["c"%string] "") in
  exists pages : list (string * SyncDenylist.Page),
    SyncDenylist.linked fetchPage "" pages
    /\ SyncDenylist.enqueued (SyncDenylist.main fetchPage 5 ∅).1
       = concat ((fun p => SyncDenylist.result p.2) <$> pages)
    /\ ((SyncDenylist.main fetchPage 5 ∅).2 = SyncDenylist.Closed
        \/ (SyncDenylist.main fetchPage 5 ∅).2 = SyncDenylist.Returned ->
        SyncDenylist.requested (SyncDenylist.main fetchPage 5 ∅).1 = fst <$> pages
        /\ SyncDenylist.loadState (SyncDenylist.disk (SyncDenylist.main fetchPage 5 ∅).1)
           = Ok (SyncDenylist.state (SyncDenylist.main fetchPage 5 ∅).1))
    /\ ((SyncDenylist.main fetchPage 5 ∅).2 = SyncDenylist.Returned ->
        SyncDenylist.cursor (SyncDenylist.state (SyncDenylist.main fetchPage 5 ∅).1)
        = SyncDenylist.after "" pages)
    /\ ((SyncDenylist.main fetchPage 5 ∅).2 = SyncDenylist.Closed ->
        SyncDenylist.after "" pages = ""%string
        /\ last (fst <$> pages)
           = Some (SyncDenylist.cursor (SyncDenylist.state (SyncDenylist.main fetchPage 5 ∅).1))).
Proof.
  intros fetchPage.
  refine (X16_names_follow_the_cursors fetchPage 5 ∅ (SyncDenylist.mkState "")
            (SyncDenylist.main fetchPage 5 ∅).1 (SyncDenylist.main fetchPage 5 ∅).2 _ _).
  - reflexivity.
  - vm_compute. reflexivity.
Defined.

(** X17. A run of [sync-denylist.mjs] that closes leaves in the state
    file the cursor its last page was asked for with (the state file is
    not written for a page that gives no cursor).  So a run started
    afterwards asks for that last page again, emits its names a second
    time and closes; it opens [denylist.json] for appending, unless the
    listing was one page asked for with the empty cursor. *)
Theorem X17_run_after_a_closed_run_repeats_the_last_page
    (fetchPage : string -> Result SyncDenylist.Page) (n : nat) (d : Fs.t)
    (w' : SyncDenylist.World) :
  SyncDenylist.main fetchPage n d = (w', SyncDenylist.Closed) ->
  exists c page,
    last (SyncDenylist.requested w') = Some c
    /\ fetchPage c = Ok page
    /\ SyncDenylist.result_info_cursor page = ""%string
    /\ SyncDenylist.loadState (SyncDenylist.disk w') = Ok (SyncDenylist.mkState c)
    /\ (SyncDenylist.open_flags (SyncDenylist.mkState c) = SyncDenylist.Append
        <-> c <> ""%string)
    /\ forall m,
         SyncDenylist.main fetchPage (S m) (SyncDenylist.disk w')
         = (SyncDenylist.mkWorld (SyncDenylist.mkState c) (SyncDenylist.disk w') [c]
              (SyncDenylist.result page),
            SyncDenylist.Closed).
Proof.
  intros Hmain.
  destruct (SyncDenylist.loadState d) as [state|err] eqn:Hload.
  2:{ unfold SyncDenylist.main in Hmain. by rewrite Hload in Hmain. }
  destruct (main_listed fetchPage n d state w' _ Hload Hmain)
    as (pages & Hl & _ & Hok & _ & Hcl).
  destruct (Hok (or_introl eq_refl)) as [Hreq Hdisk].
  destruct (Hcl eq_refl) as [Hafter Hlast].
  destruct (last pages) as [[c page]|] eqn:Hpages.
  2:{ rewrite fmap_last, Hpages in Hlast. done. }
  rewrite fmap_last, Hpages in Hlast. cbn in Hlast. injection Hlast as Hc.
  destruct (linked_last fetchPage pages _ _ _ Hl Hpages) as [Hpage Hafter'].
  rewrite Hafter in Hafter'.
  assert (SyncDenylist.state w' = SyncDenylist.mkState c) as Hstate
    by (destruct (SyncDenylist.state w'); cbn in Hc; by subst).
  rewrite Hstate in Hdisk.
  exists c, page. split; [by rewrite Hreq, fmap_last, Hpages|].
  split; [done|]. split; [done|]. split; [done|]. split.
  - unfold SyncDenylist.open_flags. cbn. case_bool_decide; split; done.
  - intros m. unfold SyncDenylist.main. rewrite Hdisk.
    cbn [SyncDenylist.pulls]. unfold SyncDenylist.pull. cbn. rewrite Hpage.
    by rewrite bool_decide_eq_true_2.
Qed.

Lemma X17_run_after_a_closed_run_repeats_the_last_page_witness :
  let fetchPage (c : string) :=
    if bool_decide (c = ""%string)
    then Ok (SyncDenylist.mkPage ["a"%string; "b"%string] "next")
    else Ok (SyncDenylist.mkPage ["c"%string] "") in
  let w' := (SyncDenylist.main fetchPage 5 ∅).1 in
  exists c page,
    last (SyncDenylist.requested w') = Some c
    /\ fetchPage c = Ok page
    /\ SyncDenylist.result_info_cursor page = ""%string
    /\ SyncDenylist.loadState (SyncDenylist.disk w') = Ok (SyncDenylist.mkState c)
    /\ (SyncDenylist.open_flags (SyncDenylist.mkState c) = SyncDenylist.Append
        <-> c <> ""%string)
    /\ forall m,
         SyncDenylist.main fetchPage (S m) (SyncDenylist.disk w')
         = (SyncDenylist.mkWorld (SyncDenylist.mkState c) (SyncDenylist.disk w') [c]
              (SyncDenylist.result page),
            SyncDenylist.Closed).
Proof.
  intros fetchPage w'.
  refine (X17_run_after_a_closed_run_repeats_the_last_page fetchPage 5 ∅ w' _).
  vm_compute. reflexivity.
Defined.

(** ** The pieces of the cargo export *)

Section CargoPieces.
Import ExportCargo.

Lemma Map_get_set_eq {V} (k : string) (v : V) (m : Map V) :
  Map_get k (Map_set k v m) = Some v.
Proof.
  induction m as [|[k' v'] m IH]; cbn.
  - by rewrite String.eqb_refl.
  - destruct (String.eqb k' k) eqn:Hk; cbn; by rewrite Hk.
Qed.

Lemma Map_get_set_ne {V} (k k' : string) (v : V) (m : Map V) :
  k' <> k -> Map_get k' (Map_set k v m) = Map_get k' m.
Proof.
  intros Hne. induction m as [|[k1 v1] m IH]; cbn.
  - destruct (String.eqb k k') eqn:Hk; [|done]. apply String.eqb_eq in Hk. by subst.
  - destruct (String.eqb k1 k) eqn:Hk; cbn.
    + apply String.eqb_eq in Hk as ->.
      destruct (String.eqb k k') eqn:Hk'; [|done]. apply String.eqb_eq in Hk'. by subst.
    + by rewrite IH.
Qed.

Lemma Map_get_None {V} (k : string) (m : Map V) :
  Map_get k m = None <-> k ∉ fst <$> m.
Proof.
  induction m as [|[k' v'] m IH]; cbn.
  - split; [intros _; apply not_elem_of_nil|done].
  - rewrite not_elem_of_cons. destruct (String.eqb k' k) eqn:Hk.
    + apply String.eqb_eq in Hk as ->. split; [done|]. by intros [? _].
    + apply String.eqb_neq in Hk. rewrite IH. split; [by split|by intros [_ ?]].
Qed.

Lemma Map_set_keys {V} (k : string) (v : V) (m : Map V) :
  fst <$> Map_set k v m
  = if decide (k ∈ fst <$> m) then fst <$> m else (fst <$> m) ++ [k].
Proof.
  induction m as [|[k' v'] m IH]; cbn.
  - by rewrite decide_False by apply not_elem_of_nil.
  - destruct (String.eqb k' k) eqn:Hk; cbn.
    + apply String.eqb_eq in Hk as ->. rewrite decide_True by left. done.
    + apply String.eqb_neq in Hk. rewrite IH.
      destruct (decide (k ∈ fst <$> m)) as [Hin|Hnotin].
      * rewrite decide_True by (by right). done.
      * rewrite decide_False; [done|]. rewrite not_elem_of_cons. by split.
Qed.

Lemma Map_set_NoDup {V} (k : string) (v : V) (m : Map V) :
  NoDup (fst <$> m) -> NoDup (fst <$> Map_set k v m).
Proof.
  intros Hnodup. rewrite Map_set_keys. case_decide; [done|].
  apply NoDup_app. split; [done|]. split; [|apply NoDup_singleton].
  intros x Hx ->%list_elem_of_singleton. done.
Qed.

Lemma Map_elem_of {V} (k : string) (v : V) (m : Map V) :
  NoDup (fst <$> m) -> (k, v) ∈ m <-> Map_get k m = Some v.
Proof.
  induction m as [|[k' v'] m IH]; cbn; intros Hnodup.
  - split; [by intros ?%elem_of_nil|done].
  - apply NoDup_cons in Hnodup as [Hnotin Hnodup]. rewrite elem_of_cons.
    destruct (String.eqb k' k) eqn:Hk.
    + apply String.eqb_eq in Hk as ->. split.
      * intros [[= ->]|Hin]; [done|].
        exfalso. apply Hnotin. by apply (list_elem_of_fmap_2 fst _ (k, v)).
      * intros [= ->]. by left.
    + apply String.eqb_neq in Hk. rewrite <- IH by done. split.
      * intros [[= -> _]|Hin]; done.
      * by right.
Qed.

Lemma collect_spec value : forall pieces pieces',
  collect value pieces = Ok pieces' ->
  NoDup (fst <$> pieces) ->
  NoDup (fst <$> pieces')
  /\ Forall (fun item => deals item <> []) value
  /\ forall k,
       Map_get k pieces'
       = match of_piece k value with
         | [] => Map_get k pieces
         | new => Some (default [] (Map_get k pieces) ++ new)
         end.
Proof.
  induction value as [|item value IH]; intros pieces pieces'; cbn [collect].
  - intros [= <-] Hnodup. split; [done|]. split; [constructor|done].
  - unfold first_piece. destruct (deals item) as [|pieceCid ds] eqn:Hdeals; [done|].
    cbn [mbind Result_bind]. intros Hrest Hnodup.
    destruct (IH _ _ Hrest (Map_set_NoDup _ _ _ Hnodup)) as (Hnodup' & Hall & Hget).
    split; [done|]. split; [constructor; [by rewrite Hdeals|done]|].
    intros k. rewrite Hget. unfold of_piece. rewrite filter_cons, Hdeals. cbn [head].
    destruct (decide (pieceCid = k)) as [->|Hne].
    + rewrite decide_True by done. rewrite Map_get_set_eq. cbn [fmap list_fmap default].
      destruct (cid <$> filter _ value) as [|c cs] eqn:Hnew; cbn [default from_option id].
      * done.
      * by rewrite <- app_assoc.
    + rewrite decide_False by congruence. by rewrite Map_get_set_ne.
Qed.

Lemma collect_fails value : forall pieces,
  (exists item, item ∈ value /\ deals item = []) ->
  exists err, collect value pieces = Throw err.
Proof.
  induction value as [|item value IH]; intros pieces (bad & Hin & Hbad).
  - by apply elem_of_nil in Hin.
  - cbn [collect]. unfold first_piece.
    destruct (deals item) as [|pieceCid ds] eqn:Hdeals; [by eexists|].
    cbn [mbind Result_bind]. apply IH. exists bad. split; [|done].
    apply elem_of_cons in Hin as [->|Hin]; [congruence|done].
Qed.
End CargoPieces.

(** X18. [getSourceReader] makes one item for every piece that is the
    first deal of an entry, and no two items for a piece.  The contents
    of an item are the CIDs of the entries whose first deal is with its
    piece, in the order of the file, and there is at least one; deals
    after the first are not looked at; the filename is empty.  An entry
    without deals makes [start] throw. *)
Theorem X18_pieces_group_the_contents (value : list ExportCargo.Entry) :
  (forall items,
     ExportCargo.getSourceReader value = Ok items ->
     NoDup (ExportCargo.piece <$> items)
     /\ (forall item, item ∈ items ->
           ExportCargo.contents item = ExportCargo.of_piece (ExportCargo.piece item) value
           /\ ExportCargo.contents item <> []
           /\ ExportCargo.filename item = ""%string)
     /\ (forall entry pieceCid,
           entry ∈ value ->
           head (ExportCargo.deals entry) = Some pieceCid ->
           exists item,
             item ∈ items /\ ExportCargo.piece item = pieceCid
             /\ ExportCargo.cid entry ∈ ExportCargo.contents item)
     /\ Forall (fun entry => ExportCargo.deals entry <> []) value)
  /\ ((exists entry, entry ∈ value /\ ExportCargo.deals entry = []) ->
      exists err, ExportCargo.getSourceReader value = Throw err).
Proof.
  split.
  - intros items. unfold ExportCargo.getSourceReader.
    destruct (ExportCargo.collect value []) as [pieces|] eqn:Hcollect; [|done].
    cbn [mbind Result_bind]. intros [= <-].
    destruct (collect_spec _ _ _ Hcollect (NoDup_nil_2 (A:=string))) as (Hnodup & Hall & Hget).
    cbn [ExportCargo.Map_get] in Hget.
    split; [|split; [|split; [|done]]].
    + rewrite <- list_fmap_compose.
      by replace (ExportCargo.piece ∘ _) with (@fst string (list string)).
    + intros item ([k v] & -> & Hin)%list_elem_of_fmap. cbn.
      apply (Map_elem_of _ _ _ Hnodup) in Hin. rewrite Hget in Hin.
      destruct (ExportCargo.of_piece k value) as [|c cs]; [done|].
      by injection Hin as <-.
    + intros entry pieceCid Hentry Hpiece.
      assert (ExportCargo.cid entry ∈ ExportCargo.of_piece pieceCid value) as Hcid.
      { apply list_elem_of_fmap_2, list_elem_of_filter. by split. }
      exists (ExportCargo.mkItem pieceCid (ExportCargo.of_piece pieceCid value) "").
      cbn. split; [|done].
      apply list_elem_of_fmap. exists (pieceCid, ExportCargo.of_piece pieceCid value).
      split; [done|]. apply (Map_elem_of _ _ _ Hnodup). rewrite Hget.
      destruct (ExportCargo.of_piece pieceCid value); [by apply elem_of_nil in Hcid|done].
  - intros Hbad. unfold ExportCargo.getSourceReader.
    destruct (collect_fails value [] Hbad) as [err ->]. by exists err.
Qed.

Lemma X18_pieces_group_the_contents_witness :
  NoDup (ExportCargo.piece <$>
           [ExportCargo.mkItem "p1" ["a"%string; "c"%string] "";
            ExportCargo.mkItem "p2" ["b"%string] ""]).
Proof.
  refine (proj1 (proj1 (X18_pieces_group_the_contents
            [ExportCargo.mkEntry "a" ["p1"%string; "p2"%string];
             ExportCargo.mkEntry "b" ["p2"%string];
             ExportCargo.mkEntry "c" ["p1"%string]])
            [ExportCargo.mkItem "p1" ["a"%string; "c"%string] "";
             ExportCargo.mkItem "p2" ["b"%string] ""] _)).
  reflexivity.
Defined.

(** ** Resuming a download *)

Section CargoDownload.
Import ExportCargo.

Lemma prefix_resume (data remote : list Byte.byte) (n : nat) :
  data `prefix_of` remote ->
  data ++ take n (drop (length data) remote) `prefix_of` remote.
Proof.
  intros [k ->]. rewrite drop_app_length.
  apply prefix_app, prefix_take.
Qed.

Lemma attempt_resumable remote a local :
  resumable remote local ->
  resumable remote (attempt remote a local).1
  /\ ((attempt remote a local).2 = Ok () -> (attempt remote a local).1 = Some remote).
Proof.
  intros Hres. unfold attempt.
  destruct local as [data|]; cbn [resumable] in Hres.
  - destruct (head_answers a); cbn [andb].
    + case_bool_decide as Hlen.
      { cbn. split; [done|]. intros _. f_equal.
        destruct Hres as [k ->]. rewrite length_app in Hlen.
        assert (k = []) as -> by (apply length_zero_iff_nil; lia).
        by rewrite app_nil_r. }
      destruct (get_answers a); cbn [negb]; [|by split].
      unfold GetObject. case_bool_decide as Hlt; [|by split].
      assert (0 < length data \/ data = [])%nat as [Hpos| ->]
        by (destruct data; [by right|left; cbn; lia]).
      * rewrite bool_decide_eq_true_2 by done. cbn [default from_option id].
        destruct (body_fails a); cbn.
        -- split; [by apply prefix_resume|done].
        -- split; [|intros _; f_equal].
           ++ rewrite <- (firstn_all (drop _ remote)). by apply prefix_resume.
           ++ destruct Hres as [k ->]. by rewrite drop_app_length.
      * cbn. destruct (body_fails a); cbn; [|by split].
        split; [apply prefix_take|done].
    + destruct (get_answers a); cbn [negb]; [|by split].
      unfold GetObject. case_bool_decide as Hlt; [|by split].
      cbn. destruct (body_fails a); cbn; [|by split].
      split; [apply prefix_take|done].
  - cbn. destruct (get_answers a); cbn [negb]; [|by split].
    unfold GetObject. case_bool_decide as Hlt; [|by split].
    cbn. destruct (body_fails a); cbn; [|by split].
    split; [apply prefix_take|done].
Qed.

Lemma download_resumable remote attempts : forall local,
  resumable remote local ->
  resumable remote (download remote attempts local).1
  /\ ((download remote attempts local).2 = Ok () ->
      (download remote attempts local).1 = Some remote).
Proof.
  induction attempts as [|a attempts IH]; intros local Hres; cbn [download].
  - by split.
  - destruct (attempt_resumable remote a local Hres) as [Hres' Hdone].
    destruct (attempt remote a local) as [local' [[]|err]]; cbn [fst snd] in *.
    + split; [done|]. intros _. by apply Hdone.
    + destruct attempts as [|a' attempts]; [by split|]. by apply IH.
Qed.
End CargoDownload.

(** X19. A download of [getCargoDownloader] that finds a file holding
    the first bytes of the object, or no file, leaves such a file
    whatever attempts fail and wherever a body breaks off, and when
    [retry] returns normally the file holds the object, all of it and
    nothing else: an attempt asks for the bytes behind the ones the
    file has and appends them, or begins the file anew. *)
Theorem X19_download_resumes_where_the_file_ends
    (remote : list Byte.byte) (attempts : list ExportCargo.Attempt)
    (local : option (list Byte.byte)) :
  ExportCargo.resumable remote local ->
  ExportCargo.resumable remote (ExportCargo.download remote attempts local).1
  /\ ((ExportCargo.download remote attempts local).2 = Ok () ->
      (ExportCargo.download remote attempts local).1 = Some remote).
Proof. apply download_resumable. Qed.

Lemma X19_download_resumes_where_the_file_ends_witness :
  let remote := Fs.utf8 "0123456789" in
  let attempts := [ExportCargo.mkAttempt true true 4 true;
                   ExportCargo.mkAttempt false false 0 false;
                   ExportCargo.mkAttempt true true 0 false] in
  ExportCargo.resumable remote (ExportCargo.download remote attempts (Some (Fs.utf8 "012"))).1
  /\ ((ExportCargo.download remote attempts (Some (Fs.utf8 "012"))).2 = Ok () ->
      (ExportCargo.download remote attempts (Some (Fs.utf8 "012"))).1 = Some remote).
Proof.
  intros remote attempts.
  refine (X19_download_resumes_where_the_file_ends remote attempts (Some (Fs.utf8 "012")) _).
  exists (Fs.utf8 "3456789"). reflexivity.
Defined.

(** ** The markers of export-cars.mjs *)

Section Markers.
Import ExportUploads.









End Markers.



(** ** The reader of export-cars.mjs *)

Section UploadReader.
Import ExportUploads.
Variable LIST_NFTS : nat -> nat -> Result (list Row).
Variable again : nat -> bool.

Local Abbreviation offsets k := ((fun i => i * limit)%nat <$> seq 0 k).
Local Abbreviation kept := (fun rows : list Row => filter (fun row => no_backup row = true) rows).
Local Abbreviation answered pages :=
  (forall (i : nat) rows, pages !! i = Some rows ->
     LIST_NFTS (i * limit) limit = Ok rows /\ rows <> []).





End UploadReader.



(** A page whose rows all have backup URLs: the stream is left open
    with the rows behind it unread, unless data was asked for during
    the call. *)
Example reader_stalls_behind_a_page_with_backups :
  let backed id := ExportUploads.mkRow (Examples.upload_at id "a" 2022 11)
                     (Some ["https://a"%string]) in
  let LIST_NFTS := fun offset limit : nat =>
    Ok (if offset is O then [backed 1] else
          if decide (offset = ExportUploads.limit)
          then [ExportUploads.mkRow (Examples.upload_at 1001 "b" 2022 11) None]
          else []) in
  ExportUploads.getUploadReader LIST_NFTS (fun _ => false) 5
  = (ExportUploads.mkReader 1000 [0%nat] [], ExportUploads.Stalled)
  /\ ExportUploads.getUploadReader LIST_NFTS (fun _ => true) 5
     = (ExportUploads.mkReader 2000 [0%nat; 1000%nat; 2000%nat]
          [ExportUploads.mkRow (Examples.upload_at 1001 "b" 2022 11) None],
        ExportUploads.Closed).
Proof. split; vm_compute; reflexivity. Qed.

(** ** The months of count-filecoin-size-monthly.mjs *)

Section FilecoinMonths.
Import FilecoinMonthly.

Lemma step_lookup l m :
  monthly_lookup (totals (step l m)) (Db.getFullYear (collected_at m))
    (Db.getMonth (collected_at m))
  = Some (value m - default 0 (prevMonthTotal l)).
Proof. unfold step. cbv zeta. case_bool_decide; cbn; apply monthly_lookup_insert. Qed.

Lemma step_lookup_ne l m year month :
  ~ collected_in year month m ->
  monthly_lookup (totals (step l m)) year month = monthly_lookup (totals l) year month.
Proof.
  intros Hne. unfold step. cbv zeta.
  case_bool_decide; cbn; apply monthly_lookup_insert_ne; intros [= -> ->];
    by apply Hne.
Qed.

Lemma step_curr l m :
  exists year, curr (step l m) = Some (year, Db.getMonth (collected_at m)).
Proof.
  unfold step. cbv zeta.
  destruct (default (_, _) (curr l)) as [y mo] eqn:E. cbn [snd].
  case_bool_decide as Hmonth; cbn; [by eexists|]. exists y. by rewrite Hmonth.
Qed.

(** Within a month the month stays the current one and
    [prevMonthTotal] as it is. *)
Lemma step_same_month l m year month y :
  collected_in year month m ->
  curr l = Some (y, month) ->
  curr (step l m) = Some (y, month) /\ prevMonthTotal (step l m) = prevMonthTotal l.
Proof.
  intros [_ Hmonth] Hcurr. unfold step. cbv zeta. rewrite Hcurr, Hmonth. cbn.
  by rewrite bool_decide_eq_false_2 by (by intros []).
Qed.

Lemma foldl_same_month ms : forall l year month y,
  Forall (collected_in year month) ms ->
  curr l = Some (y, month) ->
  curr (foldl step l ms) = Some (y, month)
  /\ prevMonthTotal (foldl step l ms) = prevMonthTotal l.
Proof.
  induction ms as [|m ms IH]; intros l year month y Hall Hcurr; [done|].
  apply Forall_cons in Hall as [Hm Hall]. cbn [foldl].
  destruct (step_same_month l m year month y Hm Hcurr) as [Hcurr' Hprev'].
  destruct (IH _ _ _ _ Hall Hcurr') as [? ?]. split; [done|congruence].
Qed.

Lemma foldl_lookup_ne ms : forall l year month,
  Forall (fun m => ~ collected_in year month m) ms ->
  monthly_lookup (totals (foldl step l ms)) year month = monthly_lookup (totals l) year month.
Proof.
  induction ms as [|m ms IH]; intros l year month Hall; [done|].
  apply Forall_cons in Hall as [Hm Hall]. cbn [foldl].
  rewrite IH by done. by apply step_lookup_ne.
Qed.

(** In the first month there is no [prevMonthTotal]. *)
Lemma foldl_first_month ms : forall l year month,
  Forall (collected_in year month) ms ->
  prevMonthTotal l = None ->
  curr l = None \/ (exists y, curr l = Some (y, month)) ->
  prevMonthTotal (foldl step l ms) = None
  /\ (curr (foldl step l ms) = None \/ exists y, curr (foldl step l ms) = Some (y, month)).
Proof.
  induction ms as [|m ms IH]; intros l year month Hall Hprev Hcurr; [done|].
  apply Forall_cons in Hall as [Hm Hall]. cbn [foldl].
  apply (IH _ year); [done| |].
  - unfold step. cbv zeta. destruct Hm as [_ Hmonth].
    destruct Hcurr as [->|[y ->]]; cbn; rewrite Hmonth;
      by rewrite bool_decide_eq_false_2 by (by intros []).
  - right. unfold step. cbv zeta. destruct Hm as [_ Hmonth].
    destruct Hcurr as [->|[y ->]]; cbn; rewrite Hmonth;
      rewrite bool_decide_eq_false_2 by (by intros []); by eexists.
Qed.
End FilecoinMonths.

(** X22. What [count-filecoin-size-monthly.mjs] gives as the new data
    of a month is, for a month with two samples or more that begins
    after a sample of another month, the last sample of the month less
    its first one: what was added between the last sample of the month
    before and the first one of this month is in the total of no
    month.  For the month the samples begin with it is the last sample
    of the month as it is. *)
Theorem X22_new_data_of_a_month
    (year month : Z) (first last_ : FilecoinMonthly.Metric)
    (middle rest : list FilecoinMonthly.Metric) :
  FilecoinMonthly.collected_in year month last_ ->
  Forall (FilecoinMonthly.collected_in year month) middle ->
  Forall (fun m => ~ FilecoinMonthly.collected_in year month m) rest ->
  (forall before x,
     Db.getMonth (FilecoinMonthly.collected_at x) <> month ->
     FilecoinMonthly.collected_in year month first ->
     monthly_lookup
       (FilecoinMonthly.monthly_totals (before ++ x :: first :: middle ++ last_ :: rest))
       year month
     = Some (FilecoinMonthly.value last_ - FilecoinMonthly.value first))
  /\ monthly_lookup (FilecoinMonthly.monthly_totals (middle ++ last_ :: rest)) year month
     = Some (FilecoinMonthly.value last_).
Proof.
  intros Hlast Hmiddle Hrest. unfold FilecoinMonthly.monthly_totals. split.
  - intros before x Hx Hfirst.
    rewrite foldl_app. cbn [foldl]. rewrite foldl_app. cbn [foldl].
    rewrite foldl_lookup_ne by done.
    set (l0 := foldl FilecoinMonthly.step _ before).
    destruct (step_curr l0 x) as [y0 Hcurr0].
    set (l1 := FilecoinMonthly.step l0 x) in *.
    assert (FilecoinMonthly.curr (FilecoinMonthly.step l1 first) = Some (year, month)
            /\ FilecoinMonthly.prevMonthTotal (FilecoinMonthly.step l1 first)
               = Some (FilecoinMonthly.value first)) as [Hcurr2 Hprev2].
    { unfold FilecoinMonthly.step. cbv zeta. rewrite Hcurr0.
      destruct Hfirst as [-> ->]. cbn.
      by rewrite bool_decide_eq_true_2 by (by apply not_eq_sym). }
    destruct (foldl_same_month middle _ year month year Hmiddle Hcurr2) as [_ Hprev3].
    destruct Hlast as [Hy Hm].
    pose proof (step_lookup
                  (foldl FilecoinMonthly.step (FilecoinMonthly.step l1 first) middle) last_)
      as Hcell.
    rewrite Hy, Hm in Hcell. by rewrite Hcell, Hprev3, Hprev2.
  - rewrite foldl_app. cbn [foldl]. rewrite foldl_lookup_ne by done.
    destruct (foldl_first_month middle (FilecoinMonthly.mkLoop ∅ None None) year month
                Hmiddle eq_refl (or_introl eq_refl)) as [Hprev _].
    destruct Hlast as [Hy Hm].
    pose proof (step_lookup
                  (foldl FilecoinMonthly.step (FilecoinMonthly.mkLoop ∅ None None) middle)
                  last_) as Hcell.
    rewrite Hy, Hm in Hcell. rewrite Hcell, Hprev. cbn. f_equal. lia.
Qed.

Lemma X22_new_data_of_a_month_witness :
  monthly_lookup
    (FilecoinMonthly.monthly_totals
       ([FilecoinMonthly.mkMetric 100 (Db.mkDate 2022 0)]
        ++ FilecoinMonthly.mkMetric 150 (Db.mkDate 2022 0)
        :: FilecoinMonthly.mkMetric 170 (Db.mkDate 2022 1)
        :: [FilecoinMonthly.mkMetric 180 (Db.mkDate 2022 1)]
        ++ FilecoinMonthly.mkMetric 200 (Db.mkDate 2022 1)
        :: [FilecoinMonthly.mkMetric 260 (Db.mkDate 2022 2)]))
    2022 1
  = Some (200 - 170).
Proof.
  refine (proj1 (X22_new_data_of_a_month 2022 1
            (FilecoinMonthly.mkMetric 170 (Db.mkDate 2022 1))
            (FilecoinMonthly.mkMetric 200 (Db.mkDate 2022 1))
            [FilecoinMonthly.mkMetric 180 (Db.mkDate 2022 1)]
            [FilecoinMonthly.mkMetric 260 (Db.mkDate 2022 2)] _ _ _)
            [FilecoinMonthly.mkMetric 100 (Db.mkDate 2022 0)]
            (FilecoinMonthly.mkMetric 150 (Db.mkDate 2022 0)) _ _).
  - by split.
  - constructor; [by split|constructor].
  - constructor; [|constructor]. by intros [_ [=]].
  - cbn. lia.
  - by split.
Defined.
